(** * Fatebound Breach: the deterministic engine, client and on-chain

    A shallow embedding of the two implementations of the game engine:
    the TypeScript client ([vrfMapper.ts], [turnResolver.ts]) and the
    Solidity library [TurnVerifier], and of what drives them: the level
    generator ([levelGenerator.ts]), the game store ([gameStore.ts]) and
    the game contract ([FateboundCore.sol]).  JavaScript numbers are
    modelled as integers ([Z]): sums and differences are those of the
    code as long as they stay within the safe-integer range (absolute
    value below 2^53), beyond which binary64 rounds them; the statements
    on the exact score, turn counter and enemy hp of a resolution carry
    that range as a hypothesis.  Solidity's [uintN]
    values are integers in [0, 2^N) whose checked arithmetic reverts on
    overflow. *)

From Stdlib Require Import ZArith List Lia Bool Ascii String Permutation Sorted DecimalString.
From stdpp Require Import base decidable option list gmap strings.

Local Open Scope Z_scope.
#[local] Set Warnings "-clear-no-such-hyp".

(** ** Keccak-256

    Both implementations hash with Keccak-256 ([keccak256] of viem on the
    client, the EVM opcode on-chain): the Keccak-f[1600] permutation in a
    sponge of rate 136 bytes with the original [0x01 .. 0x80] padding.
    Lanes are 64-bit integers; the state is the list of the 25 lanes, lane
    [(x, y)] at index [x + 5 * y]. *)

Module Keccak.

Definition mask64 : Z := 2 ^ 64 - 1.

Definition rotl64 (x n : Z) : Z :=
  Z.lor (Z.land (Z.shiftl x n) mask64) (Z.shiftr x (64 - n)).

Definition not64 (x : Z) : Z := Z.lxor x mask64.

Definition lane (st : list Z) (x y : Z) : Z :=
  nth (Z.to_nat (x mod 5 + 5 * (y mod 5))) st 0.

Definition coords : list (Z * Z) :=
  flat_map (fun y => map (fun x => (x, y)) [0; 1; 2; 3; 4]) [0; 1; 2; 3; 4].

Definition round_constants : list Z :=
  [ 0x0000000000000001; 0x0000000000008082; 0x800000000000808A;
    0x8000000080008000; 0x000000000000808B; 0x0000000080000001;
    0x8000000080008081; 0x8000000000008009; 0x000000000000008A;
    0x0000000000000088; 0x0000000080008009; 0x000000008000000A;
    0x000000008000808B; 0x800000000000008B; 0x8000000000008089;
    0x8000000000008003; 0x8000000000008002; 0x8000000000000080;
    0x000000000000800A; 0x800000008000000A; 0x8000000080008081;
    0x8000000000008080; 0x0000000080000001; 0x8000000080008008 ].

(** Rotation offsets, in lane order [x + 5 * y]. *)
Definition rotation_offsets : list Z :=
  [ 0; 1; 62; 28; 27;
    36; 44; 6; 55; 20;
    3; 10; 43; 25; 39;
    41; 45; 15; 21; 8;
    18; 2; 61; 56; 14 ].

Definition theta (st : list Z) : list Z :=
  let C x := fold_left Z.lxor (map (lane st x) [1; 2; 3; 4]) (lane st x 0) in
  let D x := Z.lxor (C (x + 4)) (rotl64 (C (x + 1)) 1) in
  map (fun '(x, y) => Z.lxor (lane st x y) (D x)) coords.

(** [rho] and [pi] together: the lane that lands at [(X, Y)] comes from
    [(x, y)] with [y = X] and [2x + 3y = Y (mod 5)], that is [x = X + 3Y]. *)
Definition rho_pi (st : list Z) : list Z :=
  map (fun '(X, Y) =>
         let x := (X + 3 * Y) mod 5 in
         let y := X in
         rotl64 (lane st x y) (lane rotation_offsets x y)) coords.

Definition chi (st : list Z) : list Z :=
  map (fun '(x, y) =>
         Z.lxor (lane st x y)
                (Z.land (not64 (lane st (x + 1) y)) (lane st (x + 2) y))) coords.

Definition iota (rc : Z) (st : list Z) : list Z :=
  match st with
  | [] => []
  | a :: rest => Z.lxor a rc :: rest
  end.

Definition round (st : list Z) (rc : Z) : list Z :=
  iota rc (chi (rho_pi (theta st))).

Definition keccak_f (st : list Z) : list Z :=
  fold_left round round_constants st.

Definition rate : nat := 136.

(** Padding to a multiple of the rate: [0x01], zeros, and [0x80] or-ed
    into the last byte. *)
Definition pad (msg : list Z) : list Z :=
  let q := (rate - (length msg mod rate))%nat in
  match q with
  | 1%nat => msg ++ [0x81]
  | _ => msg ++ [0x01] ++ repeat 0 (q - 2) ++ [0x80]
  end.

Fixpoint lane_of_bytes (bs : list Z) : Z :=
  match bs with
  | [] => 0
  | b :: rest => Z.lor b (Z.shiftl (lane_of_bytes rest) 8)
  end.

Fixpoint bytes_of_lane (n : nat) (l : Z) : list Z :=
  match n with
  | O => []
  | S n' => Z.land l 255 :: bytes_of_lane n' (Z.shiftr l 8)
  end.

Fixpoint lanes_of_bytes (n : nat) (bs : list Z) : list Z :=
  match n with
  | O => []
  | S n' => lane_of_bytes (firstn 8 bs) :: lanes_of_bytes n' (skipn 8 bs)
  end.

Fixpoint zip_xor (st block : list Z) : list Z :=
  match st, block with
  | a :: st', b :: block' => Z.lxor a b :: zip_xor st' block'
  | _, [] => st
  | [], _ => []
  end.

Fixpoint absorb (blocks : nat) (bs : list Z) (st : list Z) : list Z :=
  match blocks with
  | O => st
  | S n =>
      absorb n (skipn rate bs)
             (keccak_f (zip_xor st (lanes_of_bytes 17 (firstn rate bs))))
  end.

Definition keccak256 (msg : list Z) : list Z :=
  let padded := pad msg in
  let st := absorb (length padded / rate) padded (repeat 0 25%nat) in
  flat_map (bytes_of_lane 8) (firstn 4 st).

End Keccak.

(** ** Data shared by the two implementations *)

(** The five packet kinds: the string union [PacketType] of
    [gameState.ts] and the enum [TurnVerifier.PacketType] list the same
    five names. *)
Inductive PacketType := MISS | ATTACK | DEFEND | CRIT | HEAL.

Inductive Rarity := COMMON | RARE | LEGENDARY.

Inductive AnomalyType := STABLE | ION_STORM | DATA_LEAK | OVERCLOCK.

Inductive TurnResult := CONTINUE | VICTORY | DEFEAT.

#[global] Instance PacketType_eq_dec : EqDecision PacketType.
Proof. solve_decision. Defined.
#[global] Instance Rarity_eq_dec : EqDecision Rarity.
Proof. solve_decision. Defined.
#[global] Instance AnomalyType_eq_dec : EqDecision AnomalyType.
Proof. solve_decision. Defined.
#[global] Instance TurnResult_eq_dec : EqDecision TurnResult.
Proof. solve_decision. Defined.

(** What the client code throws ([throw new Error(...)]), one constructor
    per message. *)
Inductive Error :=
| InvalidByte (byte : Z)
| InvalidTurn (turn : Z)
| InvalidHex (hex : string)
| InvalidPacketId (packetId : string)
| PacketAlreadyAssigned (packetId : string)
| InvalidTarget (targetId : string)
| NotAllPacketsAssigned (expected got : nat)
| PacketNotFound (packetId : string)
| TargetNotFound (targetId : string).

Inductive Result (A : Type) :=
| Ok (a : A)
| Throw (e : Error).
Arguments Ok {A} a.
Arguments Throw {A} e.

Definition bindR {A B} (r : Result A) (k : A -> Result B) : Result B :=
  match r with
  | Ok a => k a
  | Throw e => Throw e
  end.

Definition mapR {A B} (f : A -> B) (r : Result A) : Result B :=
  bindR r (fun a => Ok (f a)).

Fixpoint mapM_R {A B} (f : A -> Result B) (l : list A) : Result (list B) :=
  match l with
  | [] => Ok []
  | a :: l' => bindR (f a) (fun b => bindR (mapM_R f l') (fun bs => Ok (b :: bs)))
  end.

(** Text helpers: decimal rendering of an integer (template literals),
    the UTF-8 bytes of an ASCII string ([TextEncoder.encode]). *)
Definition decimal (n : Z) : string := NilZero.string_of_int (Z.to_int n).

Definition encodeText (s : string) : list Z :=
  map (fun c => Z.of_nat (Ascii.nat_of_ascii c)) (String.list_ascii_of_string s).

Definition hexDigit (upper : bool) (d : Z) : Ascii.ascii :=
  Ascii.ascii_of_nat
    (Z.to_nat (if d <? 10 then 48 + d else (if upper then 55 else 87) + d)).

(** Two hex digits of a byte. *)
Definition hexByte (upper : bool) (b : Z) (rest : string) : string :=
  String (hexDigit upper (b / 16)) (String (hexDigit upper (b mod 16)) rest).

(** The [0x]-prefixed lowercase hex rendering viem returns for a digest. *)
Definition bytesToHex (bs : list Z) : string :=
  String.append "0x" (fold_right (hexByte false) EmptyString bs).

(** ** The client ([gameState.ts], [vrfMapper.ts], [turnResolver.ts]) *)

Module Client.

(** *** The types of [gameState.ts] *)

Record Packet := mkPacket {
  packet_id : string;
  hexValue : string;
  byteValue : Z;
  packet_type : PacketType;
  packet_rarity : Rarity;
  packet_value : Z
}.

Record Position := mkPosition { pos_x : Z; pos_y : Z }.

Record Grid := mkGrid { width : Z; height : Z }.

Record Player := mkPlayer {
  hp : Z;
  maxHp : Z;
  shield : Z;
  position : Position
}.

Inductive EnemyIntent := IntentATTACK | IntentDEFEND | IntentBUFF | IntentIDLE.

Record Enemy := mkEnemy {
  enemy_id : string;
  enemy_name : string;
  enemy_hp : Z;
  enemy_maxHp : Z;
  enemy_type : string;
  enemy_position : Position;
  intent : EnemyIntent;
  damage : Z
}.

Record Assignment := mkAssignment {
  packetId : string;
  targetId : string
}.

Inductive GameStatus := INIT | WAITING_FOR_VRF | PLANNING | EXECUTING | RESOLVED.

Record GameState := mkGameState {
  status : GameStatus;
  levelSeed : string;
  turnCounter : Z;
  levelId : Z;
  grid : Grid;
  player : Player;
  enemies : list Enemy;
  dataStream : list Packet;
  assignments : list Assignment;
  score : Z;
  anomaly : AnomalyType;
  jackpotHit : bool
}.

(** *** [vrfMapper.ts] *)

(** [PACKET_THRESHOLDS] and [PACKET_VALUES] of [gameState.ts]. *)
Definition PACKET_THRESHOLDS_max (t : PacketType) : Z :=
  match t with
  | MISS => 19
  | ATTACK => 150
  | DEFEND => 200
  | CRIT => 240
  | HEAL => 255
  end.

Definition PACKET_VALUES (t : PacketType) : Z :=
  match t with
  | MISS => 0
  | ATTACK => 5
  | DEFEND => 5
  | CRIT => 15
  | HEAL => 10
  end.

Definition mapByteToPacketType (byte : Z) : Result PacketType :=
  if (byte <? 0) || (byte >? 255) then Throw (InvalidByte byte)
  else if byte <=? PACKET_THRESHOLDS_max MISS then Ok MISS
  else if byte <=? PACKET_THRESHOLDS_max ATTACK then Ok ATTACK
  else if byte <=? PACKET_THRESHOLDS_max DEFEND then Ok DEFEND
  else if byte <=? PACKET_THRESHOLDS_max CRIT then Ok CRIT
  else Ok HEAL.

Definition mapByteToPacket (byte : Z) (index : Z) (rarityByte : Z) : Result Packet :=
  bindR (mapByteToPacketType byte) (fun type =>
    let hexValue := String.append "0x" (hexByte true byte EmptyString) in
    let rarity :=
      if rarityByte >? 240 then LEGENDARY
      else if rarityByte >? 200 then RARE
      else COMMON in
    Ok {| packet_id := String.append "packet-" (decimal index);
          hexValue := hexValue;
          byteValue := byte;
          packet_type := type;
          packet_rarity := rarity;
          packet_value := PACKET_VALUES type |}).

(** [%] of JavaScript truncates towards zero: [Z.rem]. *)
Definition calculatePacketCount (turn : Z) : Result Z :=
  if turn <? 1 then Throw (InvalidTurn turn)
  else Ok (5 + Z.rem turn 3).

(** The level seed is the byte string [toBytes(levelSeed)]; the result is
    the hex string viem's [keccak256] returns.  The template literal
    writes [turn] in decimal digits for the integers below 10^21, the
    turns this definition is for. *)
Definition deriveTurnSeed (levelSeed : list Z) (turn : Z) : string :=
  let turnSuffix := String.append "Turn" (decimal turn) in
  let seedBytes := levelSeed in
  let turnBytes := encodeText turnSuffix in
  let combined := seedBytes ++ turnBytes in
  bytesToHex (Keccak.keccak256 combined).

Definition isHexDigit (c : Ascii.ascii) : bool :=
  let n := Z.of_nat (Ascii.nat_of_ascii c) in
  ((48 <=? n) && (n <=? 57)) || ((97 <=? n) && (n <=? 102)) || ((65 <=? n) && (n <=? 70)).

Definition hexDigitValue (c : Ascii.ascii) : Z :=
  let n := Z.of_nat (Ascii.nat_of_ascii c) in
  if n <=? 57 then n - 48 else if n <=? 70 then n - 55 else n - 87.

(** [parseInt(paddedHex.substr(i * 2, 2), 16)] over the whole string. *)
Fixpoint parsePairs (cs : list Ascii.ascii) : list Z :=
  match cs with
  | hi :: lo :: rest => (16 * hexDigitValue hi + hexDigitValue lo) :: parsePairs rest
  | _ => []
  end.

Definition hexToBytes (hex : string) : Result (list Z) :=
  let cleanHex :=
    match hex with
    | String "0" (String "x" rest) => rest
    | _ => hex
    end in
  let cs := String.list_ascii_of_string cleanHex in
  if negb (forallb isHexDigit cs) then Throw (InvalidHex hex)
  else
    let paddedHex := if Nat.even (length cs) then cs else "0"%char :: cs in
    Ok (parsePairs paddedHex).

(** [bytes[i]] of a [Uint8Array]; the digests indexed here always have 32
    bytes (see [hexToBytes_deriveTurnSeed]). *)
Definition at_index (bytes : list Z) (i : Z) : Z := nth (Z.to_nat i) bytes 0.

Record Hand := mkHand {
  packets : list Packet;
  hand_anomaly : AnomalyType;
  hand_jackpotHit : bool
}.

Definition derivePacketsFromSeed (levelSeed : list Z) (turn : Z) : Result Hand :=
  bindR (calculatePacketCount turn) (fun packetCount =>
  let turnSeed := deriveTurnSeed levelSeed turn in
  bindR (hexToBytes turnSeed) (fun seedBytes =>
  let anomalyByte := at_index seedBytes 12 in
  let anomaly :=
    if anomalyByte <=? 30 then ION_STORM
    else if anomalyByte <=? 60 then DATA_LEAK
    else if anomalyByte <=? 90 then OVERCLOCK
    else STABLE in
  let jackpotByte := at_index seedBytes 31 in
  let jackpotHit := jackpotByte >=? 250 in
  let len := Z.of_nat (length seedBytes) in
  bindR (mapM_R (fun i =>
           let baseIndex := i * 2 in
           let typeByteIndex := Z.rem baseIndex len in
           let rarityByteIndex := Z.rem (baseIndex + 1) len in
           let typeByte := at_index seedBytes typeByteIndex in
           let rarityByte := at_index seedBytes rarityByteIndex in
           mapByteToPacket typeByte i rarityByte)
         (map Z.of_nat (seq 0 (Z.to_nat packetCount))))
    (fun packets =>
  Ok {| packets := packets; hand_anomaly := anomaly; hand_jackpotHit := jackpotHit |}))).

(** *** [turnResolver.ts]

    The functions of the resolver mutate the state object they are given.
    A mutation is a function from the object's value before to its value
    after; a function that can also throw returns the value the object has
    at that point together with the result. *)

Definition set_player (state : GameState) (p : Player) : GameState :=
  {| status := status state; levelSeed := levelSeed state;
     turnCounter := turnCounter state; levelId := levelId state;
     grid := grid state; player := p; enemies := enemies state;
     dataStream := dataStream state; assignments := assignments state;
     score := score state; anomaly := anomaly state;
     jackpotHit := jackpotHit state |}.

Definition set_enemies (state : GameState) (es : list Enemy) : GameState :=
  {| status := status state; levelSeed := levelSeed state;
     turnCounter := turnCounter state; levelId := levelId state;
     grid := grid state; player := player state; enemies := es;
     dataStream := dataStream state; assignments := assignments state;
     score := score state; anomaly := anomaly state;
     jackpotHit := jackpotHit state |}.

Definition set_score (state : GameState) (sc : Z) : GameState :=
  {| status := status state; levelSeed := levelSeed state;
     turnCounter := turnCounter state; levelId := levelId state;
     grid := grid state; player := player state; enemies := enemies state;
     dataStream := dataStream state; assignments := assignments state;
     score := sc; anomaly := anomaly state;
     jackpotHit := jackpotHit state |}.

Definition set_jackpotHit (state : GameState) (b : bool) : GameState :=
  {| status := status state; levelSeed := levelSeed state;
     turnCounter := turnCounter state; levelId := levelId state;
     grid := grid state; player := player state; enemies := enemies state;
     dataStream := dataStream state; assignments := assignments state;
     score := score state; anomaly := anomaly state;
     jackpotHit := b |}.

Definition set_hp (p : Player) (h : Z) : Player :=
  {| hp := h; maxHp := maxHp p; shield := shield p; position := position p |}.

Definition set_shield (p : Player) (sh : Z) : Player :=
  {| hp := hp p; maxHp := maxHp p; shield := sh; position := position p |}.

Definition set_enemy_hp (e : Enemy) (h : Z) : Enemy :=
  {| enemy_id := enemy_id e; enemy_name := enemy_name e; enemy_hp := h;
     enemy_maxHp := enemy_maxHp e; enemy_type := enemy_type e;
     enemy_position := enemy_position e; intent := intent e;
     damage := damage e |}.

(** A state mutation that may throw. *)
Definition M (A : Type) : Type := GameState -> GameState * Result A.

Definition ret {A} (a : A) : M A := fun state => (state, Ok a).

Definition throw {A} (e : Error) : M A := fun state => (state, Throw e).

Definition bind {A B} (m : M A) (k : A -> M B) : M B :=
  fun state =>
    match m state with
    | (state', Ok a) => k a state'
    | (state', Throw e) => (state', Throw e)
    end.

Definition mutate (f : GameState -> GameState) : M unit :=
  fun state => (f state, Ok tt).

Definition liftR {A} (r : GameState -> Result A) : M A :=
  fun state => (state, r state).

#[global] Instance M_bind : MBind M := fun A B k m => bind m k.
#[global] Instance M_ret : MRet M := fun A a => ret a.

Fixpoint forEach {A} (f : A -> M unit) (l : list A) : M unit :=
  match l with
  | [] => mret tt
  | a :: l' => f a ;; forEach f l'
  end.

(** [JSON.parse(JSON.stringify(state))]: a fresh object with the same
    value (every field is a finite number, a string, a boolean, an array
    or a plain object). *)
Definition cloneState (state : GameState) : GameState := state.

(** [Math.floor(packet.value * 1.5)] is [(3 * value) / 2] rounded down. *)
Definition effectiveValue (anomaly : AnomalyType) (packet : Packet) : Z :=
  let effectiveValue :=
    match packet_rarity packet with
    | RARE => (3 * packet_value packet) / 2
    | LEGENDARY => packet_value packet * 2
    | COMMON => packet_value packet
    end in
  if decide (anomaly = OVERCLOCK /\ packet_type packet = ATTACK)
  then effectiveValue + 5 else effectiveValue.

Definition applyDamageToPlayer (damage : Z) (state : GameState) : GameState :=
  let remainingDamage := damage in
  let '(state, remainingDamage) :=
    if shield (player state) >? 0 then
      let shieldAbsorbed := Z.min (shield (player state)) remainingDamage in
      (set_player state
         (set_shield (player state) (shield (player state) - shieldAbsorbed)),
       remainingDamage - shieldAbsorbed)
    else (state, remainingDamage) in
  if remainingDamage >? 0 then
    set_player state
      (set_hp (player state) (Z.max 0 (hp (player state) - remainingDamage)))
  else state.

(** [state.enemies.find((e) => e.id === targetId)]: the first enemy with
    that id, with its index in the array. *)
Fixpoint findEnemy (targetId : string) (es : list Enemy) : option (nat * Enemy) :=
  match es with
  | [] => None
  | e :: es' =>
      if String.eqb (enemy_id e) targetId then Some (O, e)
      else option_map (fun '(i, e') => (S i, e')) (findEnemy targetId es')
  end.

Definition applyPacketEffect (packet : Packet) (targetId : string) : M unit :=
  fun state =>
  if String.eqb targetId "trash" then (state, Ok tt)
  else
    let effectiveValue := effectiveValue (anomaly state) packet in
    if String.eqb targetId "player" then
      match packet_type packet with
      | HEAL =>
          (set_player state
             (set_hp (player state)
                (Z.min (hp (player state) + effectiveValue) (maxHp (player state)))),
           Ok tt)
      | DEFEND =>
          (set_player state
             (set_shield (player state) (shield (player state) + effectiveValue)),
           Ok tt)
      | ATTACK | CRIT => (applyDamageToPlayer effectiveValue state, Ok tt)
      | MISS => (state, Ok tt)
      end
    else
      match findEnemy targetId (enemies state) with
      | None => (state, Throw (TargetNotFound targetId))
      | Some (i, enemy) =>
          if String.eqb (enemy_type enemy) "CACHE_GOLD" then
            match packet_type packet with
            | CRIT => (set_enemies state (<[i := set_enemy_hp enemy 0]> (enemies state)), Ok tt)
            | _ => (state, Ok tt)
            end
          else
            match packet_type packet with
            | ATTACK | CRIT =>
                (set_enemies state
                   (<[i := set_enemy_hp enemy (Z.max 0 (enemy_hp enemy - effectiveValue))]>
                      (enemies state)),
                 Ok tt)
            | _ => (state, Ok tt)
            end
      end.

Definition executeEnemyPhase (state : GameState) : GameState :=
  let livingEnemies := filter (fun e => enemy_hp e > 0) (enemies state) in
  fold_left
    (fun state enemy =>
       match intent enemy with
       | IntentATTACK => applyDamageToPlayer (damage enemy) state
       | _ => state
       end)
    livingEnemies state.

Definition removeDeadEnemies (state : GameState) : GameState :=
  set_enemies state (filter (fun e => enemy_hp e > 0) (enemies state)).

Definition checkTurnResult (state : GameState) : TurnResult :=
  if hp (player state) <=? 0 then DEFEAT
  else if (length (enemies state) =? 0)%nat
          || forallb (fun e => enemy_hp e <=? 0) (enemies state)
  then VICTORY
  else CONTINUE.

(** [validateAssignments]: the loop over the assignments, carrying the
    set [assignedPackets]. *)
Fixpoint validateLoop (packetIds : gset string) (es : list Enemy)
    (assignedPackets : gset string) (assignments : list Assignment)
    : Result (gset string) :=
  match assignments with
  | [] => Ok assignedPackets
  | assignment :: rest =>
      if negb (bool_decide (packetId assignment ∈ packetIds))
      then Throw (InvalidPacketId (packetId assignment))
      else if bool_decide (packetId assignment ∈ assignedPackets)
      then Throw (PacketAlreadyAssigned (packetId assignment))
      else
        let assignedPackets := assignedPackets ∪ {[packetId assignment]} in
        let validTarget :=
          String.eqb (targetId assignment) "player"
          || String.eqb (targetId assignment) "trash"
          || existsb (fun e => String.eqb (enemy_id e) (targetId assignment)) es in
        if negb validTarget then Throw (InvalidTarget (targetId assignment))
        else validateLoop packetIds es assignedPackets rest
  end.

Definition validateAssignments (state : GameState) (assignments : list Assignment)
    : Result unit :=
  let packetIds : gset string := list_to_set (map packet_id (dataStream state)) in
  bindR (validateLoop packetIds (enemies state) ∅ assignments) (fun assignedPackets =>
  if negb (size assignedPackets =? size packetIds)%nat
  then Throw (NotAllPacketsAssigned (size packetIds) (size assignedPackets))
  else Ok tt).

(** Step 3 of [resolveTurn], one assignment. *)
Definition applyAssignment (assignment : Assignment) : M unit :=
  fun nextState =>
    match find (fun p => String.eqb (packet_id p) (packetId assignment))
               (dataStream nextState) with
    | None => (nextState, Throw (PacketNotFound (packetId assignment)))
    | Some packet => applyPacketEffect packet (targetId assignment) nextState
    end.

(** Step 4 of [resolveTurn], one enemy of [nextState.enemies]: the kill
    awards, against the enemy of the same id in [currentState]. *)
Definition scoreKill (currentState : GameState) (nextState : GameState)
    (enemy : Enemy) : GameState :=
  match findEnemy (enemy_id enemy) (enemies currentState) with
  | Some (_, originalEnemy) =>
      if (enemy_hp originalEnemy >? 0) && (enemy_hp enemy <=? 0) then
        let nextState := set_score nextState (score nextState + 100) in
        if String.eqb (enemy_type enemy) "CACHE_GOLD"
        then set_score nextState (score nextState + 1000)
        else nextState
      else nextState
  | None => nextState
  end.

Definition startOfTurnJackpot (nextState : GameState) : GameState :=
  if jackpotHit nextState
  then set_jackpotHit (set_score nextState (score nextState + 5000)) false
  else nextState.

Definition startOfTurnAnomaly (nextState : GameState) : GameState :=
  if decide (anomaly nextState = DATA_LEAK) then
    set_player nextState
      (set_hp (player nextState)
         (Z.min (hp (player nextState) + 5) (maxHp (player nextState))))
  else nextState.

Definition endOfTurnAnomaly (nextState : GameState) : GameState :=
  if decide (anomaly nextState = ION_STORM) then
    let nextState := applyDamageToPlayer 5 nextState in
    let nextState :=
      set_enemies nextState
        (map (fun e => if enemy_hp e >? 0
                       then set_enemy_hp e (Z.max 0 (enemy_hp e - 5)) else e)
             (enemies nextState)) in
    removeDeadEnemies nextState
  else nextState.

(** Steps 6 to 8: the hand and assignments are cleared, the turn counter
    incremented, the status and the victory bonuses set.  The increment
    and the awards are exact within the safe-integer range. *)
Definition finishTurn (nextState : GameState) : GameState :=
  let cleared :=
    {| status := status nextState; levelSeed := levelSeed nextState;
       turnCounter := turnCounter nextState + 1; levelId := levelId nextState;
       grid := grid nextState; player := player nextState;
       enemies := enemies nextState; dataStream := []; assignments := [];
       score := score nextState; anomaly := anomaly nextState;
       jackpotHit := jackpotHit nextState |} in
  let result := checkTurnResult cleared in
  let set_status (s : GameState) (st : GameStatus) :=
    {| status := st; levelSeed := levelSeed s; turnCounter := turnCounter s;
       levelId := levelId s; grid := grid s; player := player s;
       enemies := enemies s; dataStream := dataStream s;
       assignments := assignments s; score := score s; anomaly := anomaly s;
       jackpotHit := jackpotHit s |} in
  match result with
  | CONTINUE => set_status cleared WAITING_FOR_VRF
  | DEFEAT => set_status cleared RESOLVED
  | VICTORY =>
      let s := set_status cleared RESOLVED in
      let s := set_score s (score s + 500) in
      if hp (player s) =? maxHp (player s)
      then set_score s (score s + 200) else s
  end.

(** The body of [resolveTurn], run on the clone [nextState]; it reads
    [currentState] in step 4 only.  Steps 1 to 4, up to the removal of
    the dead enemies: *)
Definition playerPhase (currentState : GameState)
    (assignments : list Assignment) : M unit :=
  mutate startOfTurnJackpot ;;
  mutate startOfTurnAnomaly ;;
  liftR (fun nextState => validateAssignments nextState assignments) ;;
  forEach applyAssignment assignments ;;
  mutate (fun nextState =>
            fold_left (scoreKill currentState) (enemies nextState) nextState) ;;
  mutate removeDeadEnemies.

(** and the whole body, with steps 5 to 8: *)
Definition resolveTurnOn (currentState : GameState)
    (assignments : list Assignment) : M unit :=
  playerPhase currentState assignments ;;
  mutate executeEnemyPhase ;;
  mutate endOfTurnAnomaly ;;
  mutate finishTurn.

Definition resolveTurn (currentState : GameState) (assignments : list Assignment)
    : Result GameState :=
  let nextState := cloneState currentState in
  match resolveTurnOn currentState assignments nextState with
  | (nextState, Ok _) => Ok nextState
  | (_, Throw e) => Throw e
  end.

(** The same call on a store of state objects: [currentState] is a
    reference, the clone is a fresh object, and every write of the body
    goes to that clone.  What [resolveTurn] returns is the reference of
    the clone; after a throw the clone is still in the store, unreachable. *)
Definition resolveTurnRef (currentState : nat) (assignments : list Assignment)
    (store : gmap nat GameState) : option (gmap nat GameState * Result nat) :=
  match store !! currentState with
  | None => None
  | Some current =>
      let nextState := fresh (dom store) in
      let '(final, r) := resolveTurnOn current assignments (cloneState current) in
      Some (<[nextState := final]> store, mapR (fun _ => nextState) r)
  end.

(** *** [serializeStateForHash]

    The object handed to [JSON.stringify]. *)
Record NormalizedPlayer := mkNormalizedPlayer { n_hp : Z; n_shield : Z }.

Record NormalizedEnemy := mkNormalizedEnemy { n_id : string; n_enemy_hp : Z }.

Record Normalized := mkNormalized {
  n_status : GameStatus;
  n_levelSeed : string;
  n_turnCounter : Z;
  n_levelId : Z;
  n_player : NormalizedPlayer;
  n_enemies : list NormalizedEnemy
}.

Section Serialize.

(** The two built-ins the function calls: [String.prototype.localeCompare]
    (negative, zero or positive) and [JSON.stringify]. *)
Variable localeCompare : string -> string -> Z.
Variable JSON_stringify : Normalized -> string.

(** [Array.prototype.sort] is stable: an element goes after those that
    compare lower and before the later elements it ties with.  [a] comes
    before every element of [sorted] in the array. *)
Fixpoint insertSorted (a : NormalizedEnemy) (sorted : list NormalizedEnemy)
    : list NormalizedEnemy :=
  match sorted with
  | [] => [a]
  | b :: rest =>
      if localeCompare (n_id a) (n_id b) >? 0
      then b :: insertSorted a rest
      else a :: b :: rest
  end.

Definition sortById (l : list NormalizedEnemy) : list NormalizedEnemy :=
  fold_right insertSorted [] l.

Definition normalize (state : GameState) : Normalized :=
  {| n_status := status state;
     n_levelSeed := levelSeed state;
     n_turnCounter := turnCounter state;
     n_levelId := levelId state;
     n_player := {| n_hp := hp (player state); n_shield := shield (player state) |};
     n_enemies :=
       sortById (map (fun e => {| n_id := enemy_id e; n_enemy_hp := enemy_hp e |})
                     (enemies state)) |}.

Definition serializeStateForHash (state : GameState) : string :=
  JSON_stringify (normalize state).

End Serialize.

End Client.

(** ** The on-chain verifier ([TurnVerifier.sol])

    A [uintN] is an integer in [0, 2^N).  Solidity 0.8 checks arithmetic:
    an overflowing addition, an out-of-range index and a failed [require]
    revert the call, which the model returns as [Revert]. *)

Module TurnVerifier.

Inductive Revert :=
| InvalidAssignmentCount
| InvalidEnemyTarget
| PanicOverflow
| PanicIndex.

Inductive Outcome (A : Type) :=
| Return (a : A)
| Reverted (r : Revert).
Arguments Return {A} a.
Arguments Reverted {A} r.

Definition bindO {A B} (o : Outcome A) (k : A -> Outcome B) : Outcome B :=
  match o with
  | Return a => k a
  | Reverted r => Reverted r
  end.

Definition is_uint (bits : Z) (v : Z) : Prop := 0 <= v < 2 ^ bits.

(** Checked addition at a [uintN] type. *)
Definition add_checked (bits : Z) (a b : Z) : Outcome Z :=
  if a + b <? 2 ^ bits then Return (a + b) else Reverted PanicOverflow.

Definition THRESHOLD_MISS : Z := 19.
Definition THRESHOLD_ATTACK : Z := 150.
Definition THRESHOLD_DEFEND : Z := 200.
Definition THRESHOLD_CRIT : Z := 240.

Definition VALUE_MISS : Z := 0.
Definition VALUE_ATTACK : Z := 5.
Definition VALUE_DEFEND : Z := 5.
Definition VALUE_CRIT : Z := 15.
Definition VALUE_HEAL : Z := 10.

Record Packet := mkPacket {
  byteValue : Z;
  packetType : PacketType;
  value : Z
}.

Record Player := mkPlayer {
  hp : Z;
  maxHp : Z;
  shield : Z
}.

Record Enemy := mkEnemy {
  enemy_id : Z;
  enemy_hp : Z;
  enemy_maxHp : Z;
  damage : Z;
  isAttacking : bool;
  isCache : bool
}.

Record Assignment := mkAssignment {
  packetIndex : Z;
  targetType : Z
}.

Definition mapByteToPacketType (byteValue : Z) : PacketType :=
  if byteValue <=? THRESHOLD_MISS then MISS
  else if byteValue <=? THRESHOLD_ATTACK then ATTACK
  else if byteValue <=? THRESHOLD_DEFEND then DEFEND
  else if byteValue <=? THRESHOLD_CRIT then CRIT
  else HEAL.

Definition getPacketValue (pType : PacketType) : Z :=
  match pType with
  | MISS => VALUE_MISS
  | ATTACK => VALUE_ATTACK
  | DEFEND => VALUE_DEFEND
  | CRIT => VALUE_CRIT
  | HEAL => VALUE_HEAL
  end.

(** [5 + (turn % 3)] at [uint8]: at most 7, the addition never overflows. *)
Definition calculatePacketCount (turn : Z) : Z := 5 + turn mod 3.

(** [abi.encodePacked(levelSeed, "Turn", turn)]: the 32 bytes of the seed,
    the four bytes of the string literal, and the [uint8] turn as one
    byte. *)
Definition deriveTurnSeed (levelSeed : list Z) (turn : Z) : list Z :=
  Keccak.keccak256 (levelSeed ++ encodeText "Turn" ++ [turn]).

Definition deriveHand (levelSeed : list Z) (turn : Z) : list Packet :=
  let packetCount := calculatePacketCount turn in
  let turnSeed := deriveTurnSeed levelSeed turn in
  map (fun i =>
         let byteValue := nth (Z.to_nat (i mod 32)) turnSeed 0 in
         let pType := mapByteToPacketType byteValue in
         {| byteValue := byteValue;
            packetType := pType;
            value := getPacketValue pType |})
      (map Z.of_nat (seq 0 (Z.to_nat packetCount))).

Definition applyPacketToPlayer (player : Player) (packet : Packet) : Outcome Player :=
  match packetType packet with
  | HEAL =>
      bindO (add_checked 16 (hp player) (value packet)) (fun newHp =>
      Return {| hp := if newHp >? maxHp player then maxHp player else newHp;
                maxHp := maxHp player;
                shield := shield player |})
  | DEFEND =>
      bindO (add_checked 16 (shield player) (value packet)) (fun newShield =>
      Return {| hp := hp player; maxHp := maxHp player; shield := newShield |})
  | _ => Return player
  end.

Definition set_enemy_hp (enemy : Enemy) (h : Z) : Enemy :=
  {| enemy_id := enemy_id enemy;
     enemy_hp := h;
     enemy_maxHp := enemy_maxHp enemy;
     damage := damage enemy;
     isAttacking := isAttacking enemy;
     isCache := isCache enemy |}.

Definition applyPacketToEnemy (enemy : Enemy) (packet : Packet) : Enemy :=
  if isCache enemy then
    match packetType packet with
    | CRIT => set_enemy_hp enemy 0
    | _ => enemy
    end
  else
    match packetType packet with
    | ATTACK | CRIT =>
        if enemy_hp enemy >? value packet
        then set_enemy_hp enemy (enemy_hp enemy - value packet)
        else set_enemy_hp enemy 0
    | _ => enemy
    end.

Definition applyDamageToPlayer (player : Player) (damage : Z) : Player :=
  let remainingDamage := damage in
  let hitHp (newShield remainingDamage : Z) :=
    {| hp := if hp player >? remainingDamage
             then hp player - remainingDamage else 0;
       maxHp := maxHp player;
       shield := newShield |} in
  if shield player >? 0 then
    if shield player >=? remainingDamage then
      {| hp := hp player; maxHp := maxHp player;
         shield := shield player - remainingDamage |}
    else hitHp 0 (remainingDamage - shield player)
  else hitHp (shield player) remainingDamage.

(** A [for (uint8 i = 0; i < a.length; i++)] loop that runs to the end
    overflows its counter when the array has 256 elements or more. *)
Definition uint8_loop {A} (a : list A) : bool := Z.of_nat (length a) <=? 255.

Definition executeEnemyPhase (player : Player) (enemies : list Enemy) : Outcome Player :=
  if uint8_loop enemies then
    Return (fold_left
              (fun player e =>
                 if (enemy_hp e >? 0) && isAttacking e
                 then applyDamageToPlayer player (damage e)
                 else player)
              enemies player)
  else Reverted PanicOverflow.

(** The scan for a living enemy stops at the first one ([break]). *)
Definition checkTurnResult (player : Player) (enemies : list Enemy) : Outcome TurnResult :=
  if hp player =? 0 then Return DEFEAT
  else if existsb (fun e => enemy_hp e >? 0) (firstn 256 enemies) then Return CONTINUE
  else if uint8_loop enemies then Return VICTORY
  else Reverted PanicOverflow.

(** Phase 1 of [resolveTurn]: the packet assignments, in order. *)
Definition applyAssignment (hand : list Packet)
    (st : Player * list Enemy) (a : Assignment) : Outcome (Player * list Enemy) :=
  let '(newPlayer, newEnemies) := st in
  match nth_error hand (Z.to_nat (packetIndex a)) with
  | None => Reverted PanicIndex
  | Some packet =>
      if targetType a =? 0 then Return st
      else if targetType a =? 1 then
        bindO (applyPacketToPlayer newPlayer packet) (fun p => Return (p, newEnemies))
      else
        let enemyIndex := Z.to_nat (targetType a - 2) in
        match nth_error newEnemies enemyIndex with
        | None => Reverted InvalidEnemyTarget
        | Some enemy =>
            Return (newPlayer,
                    <[enemyIndex := applyPacketToEnemy enemy packet]> newEnemies)
        end
  end.

Fixpoint applyAssignments (hand : list Packet) (st : Player * list Enemy)
    (assignments : list Assignment) : Outcome (Player * list Enemy) :=
  match assignments with
  | [] => Return st
  | a :: rest =>
      bindO (applyAssignment hand st a) (fun st' => applyAssignments hand st' rest)
  end.

(** The kill awards.  [newEnemies[i] = initialEnemies[i]] copies a memory
    reference, so after phase 1 both arrays hold the same structs: the
    loop is given the two views it reads. *)
Fixpoint awardKills (initialEnemies newEnemies : list Enemy) (newScore : Z) : Outcome Z :=
  match initialEnemies, newEnemies with
  | ini :: initialEnemies', new :: newEnemies' =>
      bindO (if (enemy_hp ini >? 0) && (enemy_hp new =? 0) then
               bindO (add_checked 32 newScore 100) (fun sc =>
                 if isCache new then add_checked 32 sc 1000 else Return sc)
             else Return newScore)
            (fun sc => awardKills initialEnemies' newEnemies' sc)
  | _, _ => Return newScore
  end.

Definition resolveTurn (levelSeed : list Z) (initialPlayer : Player)
    (initialEnemies : list Enemy) (turn : Z) (assignments : list Assignment)
    (initialScore : Z) : Outcome (Player * list Enemy * TurnResult * Z) :=
  let hand := deriveHand levelSeed turn in
  if negb (length assignments =? length hand)%nat then Reverted InvalidAssignmentCount
  else if negb (uint8_loop initialEnemies) then Reverted PanicOverflow
  else
    bindO (applyAssignments hand (initialPlayer, initialEnemies) assignments)
      (fun '(newPlayer, newEnemies) =>
    let initialEnemies := newEnemies in
    bindO (awardKills initialEnemies newEnemies initialScore) (fun newScore =>
    bindO (checkTurnResult newPlayer newEnemies) (fun result =>
    bindO (if decide (result = CONTINUE) then
             bindO (executeEnemyPhase newPlayer newEnemies) (fun p =>
             bindO (checkTurnResult p newEnemies) (fun r => Return (p, r)))
           else Return (newPlayer, result))
      (fun '(newPlayer, result) =>
    bindO (if decide (result = VICTORY) then
             bindO (add_checked 32 newScore 500) (fun sc =>
               if hp newPlayer =? maxHp newPlayer
               then add_checked 32 sc 200 else Return sc)
           else Return newScore)
      (fun newScore => Return (newPlayer, newEnemies, result, newScore)))))).

(** Big-endian bytes of an unsigned integer, as [abi.encodePacked] lays
    out a [uintN] of [n] bytes. *)
Fixpoint encode_uint (n : nat) (v : Z) : list Z :=
  match n with
  | O => []
  | S n' => (v / 256 ^ Z.of_nat n') mod 256 :: encode_uint n' v
  end.

Definition encode_bool (b : bool) : list Z := [if b then 1 else 0].

Definition encodeEnemy (e : Enemy) : list Z :=
  encode_uint 1 (enemy_id e) ++ encode_uint 2 (enemy_hp e)
    ++ encode_uint 2 (enemy_maxHp e) ++ encode_uint 1 (damage e)
    ++ encode_bool (isAttacking e) ++ encode_bool (isCache e).

(** The bytes [computeStateHash] hashes: enemies in array order. *)
Definition statePreimage (player : Player) (enemies : list Enemy) (turn score : Z) : list Z :=
  let enemyData := fold_left (fun enemyData e => enemyData ++ encodeEnemy e) enemies [] in
  encode_uint 2 (hp player) ++ encode_uint 2 (maxHp player)
    ++ encode_uint 2 (shield player) ++ encode_uint 1 turn
    ++ encode_uint 4 score ++ enemyData.

Definition computeStateHash (player : Player) (enemies : list Enemy) (turn score : Z)
    : Outcome (list Z) :=
  if uint8_loop enemies
  then Return (Keccak.keccak256 (statePreimage player enemies turn score))
  else Reverted PanicOverflow.

End TurnVerifier.

(** ** The level generator ([levelGenerator.ts]) *)

Module LevelGenerator.

Record Level := mkLevel {
  enemies : list Client.Enemy;
  player : Client.Player
}.

(** The key of a cell in [usedPositions]: x and y in decimal, separated
    by a comma. *)
Definition key (x y : Z) : string :=
  String.append (decimal x) (String.append "," (decimal y)).

(** [bytes[i % bytes.length]] for a non-empty [bytes]. *)
Definition byteAt (bytes : list Z) (i : Z) : Z :=
  nth (Z.to_nat (Z.rem i (Z.of_nat (length bytes)))) bytes 0.

(** The linear probe: at most 36 steps along the rows of the grid. *)
Fixpoint probe (attemptsLeft : nat) (usedPositions : gset string) (x y : Z) : Z * Z :=
  match attemptsLeft with
  | O => (x, y)
  | S attemptsLeft' =>
      if decide (key x y ∈ usedPositions) then
        let x' := Z.rem (x + 1) 6 in
        let y' := if x' =? 0 then Z.rem (y + 1) 6 else y in
        probe attemptsLeft' usedPositions x' y'
      else (x, y)
  end.

Record Kind := mkKind {
  kind_type : string;
  kind_name : string;
  kind_hp : Z;
  kind_damage : Z;
  kind_intent : Client.EnemyIntent
}.

(** 0-100: drone, 101-200: firewall, 201 and above: sentinel. *)
Definition kindOf (bType : Z) : Kind :=
  if (bType >=? 101) && (bType <=? 200) then
    {| kind_type := "firewall"; kind_name := "FIREWALL_A"; kind_hp := 20;
       kind_damage := 5; kind_intent := Client.IntentATTACK |}
  else if bType >? 200 then
    {| kind_type := "sentinel"; kind_name := "SENTINEL_C"; kind_hp := 30;
       kind_damage := 8; kind_intent := Client.IntentDEFEND |}
  else
    {| kind_type := "drone"; kind_name := "DRONE_B"; kind_hp := 15;
       kind_damage := 3; kind_intent := Client.IntentATTACK |}.

(** The variables the enemy loop updates. *)
Record Spawn := mkSpawn {
  bytePtr : Z;
  usedPositions : gset string;
  spawned : list Client.Enemy
}.

(** One iteration of the enemy loop. *)
Definition spawnEnemy (bytes : list Z) (st : Spawn) (i : Z) : Spawn :=
  let bX := byteAt bytes (bytePtr st) in
  let bY := byteAt bytes (bytePtr st + 1) in
  let bType := byteAt bytes (bytePtr st + 2) in
  let '(x, y) := probe 36 (usedPositions st) (Z.rem bX 6) (Z.rem bY 6) in
  let kind := kindOf bType in
  {| bytePtr := bytePtr st + 3;
     usedPositions := {[ key x y ]} ∪ usedPositions st;
     spawned :=
       spawned st ++
       [ {| Client.enemy_id := String.append "enemy-" (decimal i);
            Client.enemy_name := kind_name kind;
            Client.enemy_hp := kind_hp kind;
            Client.enemy_maxHp := kind_hp kind;
            Client.enemy_type := kind_type kind;
            Client.enemy_position := {| Client.pos_x := x; Client.pos_y := y |};
            Client.intent := kind_intent kind;
            Client.damage := kind_damage kind |} ] |}.

Definition cache (cx cy : Z) : Client.Enemy :=
  {| Client.enemy_id := "cache-gold";
     Client.enemy_name := "ZERO_DAY_CACHE";
     Client.enemy_hp := 1;
     Client.enemy_maxHp := 1;
     Client.enemy_type := "CACHE_GOLD";
     Client.enemy_position := {| Client.pos_x := cx; Client.pos_y := cy |};
     Client.intent := Client.IntentIDLE;
     Client.damage := 0 |}.

(** The cache loop, from [cacheAttempts] on: the first free cell at
    Manhattan distance 3 or more from the player, if one of the
    remaining attempts finds it. *)
Fixpoint spawnCache (attemptsLeft : nat) (cacheAttempts : Z) (bytePtr : Z)
    (usedPositions : gset string) (player : Client.Player) : option Client.Enemy :=
  match attemptsLeft with
  | O => None
  | S attemptsLeft' =>
      let cx := Z.rem (bytePtr + cacheAttempts) 6 in
      let cy := Z.rem (bytePtr + cacheAttempts + 3) 6 in
      let dist := Z.abs (cx - Client.pos_x (Client.position player))
                  + Z.abs (cy - Client.pos_y (Client.position player)) in
      if negb (bool_decide (key cx cy ∈ usedPositions)) && (dist >=? 3)
      then Some (cache cx cy)
      else spawnCache attemptsLeft' (cacheAttempts + 1) bytePtr usedPositions player
  end.

Definition defaultPlayer : Client.Player :=
  {| Client.hp := 100; Client.maxHp := 100; Client.shield := 0;
     Client.position := {| Client.pos_x := 0; Client.pos_y := 2 |} |}.

(** [bytes] is [toBytes(seed)].  With no bytes every read gives
    [undefined] and the coordinates are NaN, which the integer positions
    of this development do not hold: no level is given there. *)
Definition generateLevelFromSeed (bytes : list Z) : option Level :=
  match bytes with
  | [] => None
  | countByte :: _ =>
      let player := defaultPlayer in
      let enemyCount := Z.rem countByte 3 + 2 in
      let usedPositions : gset string :=
        {[ key (Client.pos_x (Client.position player))
               (Client.pos_y (Client.position player)) ]} in
      let st :=
        fold_left (spawnEnemy bytes)
          (map Z.of_nat (seq 0 (Z.to_nat enemyCount)))
          {| bytePtr := 1; usedPositions := usedPositions; spawned := [] |} in
      let enemies :=
        match spawnCache 50 0 (bytePtr st) (LevelGenerator.usedPositions st) player with
        | Some c => spawned st ++ [c]
        | None => spawned st
        end in
      Some {| enemies := enemies; player := player |}
  end.

End LevelGenerator.

(** ** The game store ([gameStore.ts])

    The state of the store that the game actions read and write.  The
    display-only fields (history log, damage events and byte mappings,
    hover and console flags) and the wallet fields are left out. *)

Module GameStore.

Record MoveRecord := mkMoveRecord {
  turnNumber : Z;
  seed : string;
  damageDealt : Z;
  packetsUsed : nat
}.

Record Store := mkStore {
  gameState : option Client.GameState;
  currentLevelSeed : option string;
  gameResult : option TurnResult;
  packetQueue : list Client.Packet;
  selectedPacketIds : list string;
  isAnimating : bool;
  isExecuting : bool;
  pendingAssignments : list Client.Assignment;
  moveHistory : list MoveRecord
}.

Definition initialStore : Store :=
  {| gameState := None; currentLevelSeed := None; gameResult := None;
     packetQueue := []; selectedPacketIds := []; isAnimating := false;
     isExecuting := false; pendingAssignments := []; moveHistory := [] |}.

Definition set_isExecuting (s : Store) (b : bool) : Store :=
  {| gameState := gameState s; currentLevelSeed := currentLevelSeed s;
     gameResult := gameResult s; packetQueue := packetQueue s;
     selectedPacketIds := selectedPacketIds s; isAnimating := isAnimating s;
     isExecuting := b; pendingAssignments := pendingAssignments s;
     moveHistory := moveHistory s |}.

Definition set_pendingAssignments (s : Store) (l : list Client.Assignment) : Store :=
  {| gameState := gameState s; currentLevelSeed := currentLevelSeed s;
     gameResult := gameResult s; packetQueue := packetQueue s;
     selectedPacketIds := selectedPacketIds s; isAnimating := isAnimating s;
     isExecuting := isExecuting s; pendingAssignments := l;
     moveHistory := moveHistory s |}.

Definition canAssignPacketToTarget (packetType : PacketType) (targetId : string)
    (enemies : list Client.Enemy) : bool :=
  if String.eqb targetId "trash" then true
  else
    let isEnemy := existsb (fun e => String.eqb (Client.enemy_id e) targetId) enemies in
    let isPlayer := String.eqb targetId "player" in
    match packetType with
    | ATTACK | CRIT | MISS => isEnemy
    | HEAL | DEFEND => isPlayer
    end.

Definition set_intent (e : Client.Enemy) (i : Client.EnemyIntent) : Client.Enemy :=
  {| Client.enemy_id := Client.enemy_id e; Client.enemy_name := Client.enemy_name e;
     Client.enemy_hp := Client.enemy_hp e; Client.enemy_maxHp := Client.enemy_maxHp e;
     Client.enemy_type := Client.enemy_type e;
     Client.enemy_position := Client.enemy_position e;
     Client.intent := i; Client.damage := Client.damage e |}.

Definition updateEnemyIntents (enemies : list Client.Enemy) (turnCounter : Z)
    : list Client.Enemy :=
  imap (fun index enemy =>
          let pattern := Z.rem (turnCounter + Z.of_nat index) 3 in
          let intent :=
            if pattern =? 0 then Client.IntentATTACK
            else if pattern =? 1 then
              if String.eqb (Client.enemy_type enemy) "sentinel"
              then Client.IntentDEFEND else Client.IntentATTACK
            else Client.IntentIDLE in
          set_intent enemy intent)
       enemies.

Definition findPacket (packetId : string) (packetQueue : list Client.Packet)
    : option Client.Packet :=
  find (fun p => String.eqb (Client.packet_id p) packetId) packetQueue.

Definition isValidAssignment (s : Store) (packetId targetId : string) : bool :=
  match gameState s with
  | None => false
  | Some gameState =>
      match findPacket packetId (packetQueue s) with
      | None => false
      | Some packet =>
          if existsb (fun a => String.eqb (Client.packetId a) packetId)
               (pendingAssignments s)
          then false
          else if String.prefix "enemy-" targetId
                  && match find (fun e => String.eqb (Client.enemy_id e) targetId)
                             (Client.enemies gameState) with
                     | None => true
                     | Some enemy => Client.enemy_hp enemy <=? 0
                     end
          then false
          else canAssignPacketToTarget (Client.packet_type packet) targetId
                 (Client.enemies gameState)
      end
  end.

Definition getValidTargetsForPacket (s : Store) (packetId : string) : list string :=
  match gameState s with
  | None => []
  | Some gameState =>
      match findPacket packetId (packetQueue s) with
      | None => []
      | Some packet =>
          let validTargets := ["trash"%string] in
          match Client.packet_type packet with
          | ATTACK | CRIT | MISS =>
              validTargets
                ++ map Client.enemy_id
                     (filter (fun e => Client.enemy_hp e > 0) (Client.enemies gameState))
          | HEAL | DEFEND => validTargets ++ ["player"%string]
          end
      end
  end.

Definition notPacket (packetId : string) (a : Client.Assignment) : bool :=
  negb (String.eqb (Client.packetId a) packetId).

Definition assignPacket (packetId targetId : string) (s : Store) : Store * bool :=
  if negb (isValidAssignment s packetId targetId) then (s, false)
  else
    let filtered := List.filter (notPacket packetId) (pendingAssignments s) in
    let newAssignment :=
      {| Client.packetId := packetId; Client.targetId := targetId |} in
    ({| gameState := gameState s; currentLevelSeed := currentLevelSeed s;
        gameResult := gameResult s; packetQueue := packetQueue s;
        selectedPacketIds :=
          List.filter (fun id => negb (String.eqb id packetId)) (selectedPacketIds s);
        isAnimating := isAnimating s; isExecuting := isExecuting s;
        pendingAssignments := filtered ++ [newAssignment];
        moveHistory := moveHistory s |},
     true).

Definition unassignPacket (packetId : string) (s : Store) : Store :=
  set_pendingAssignments s (List.filter (notPacket packetId) (pendingAssignments s)).

(** The amount and the kind of the damage event of one assignment:
    [true] for the kind damage. *)
Definition damageEvent (packetQueue : list Client.Packet) (a : Client.Assignment)
    : Z * bool :=
  match findPacket (Client.packetId a) packetQueue with
  | None => (0, true)
  | Some packet =>
      (Client.packet_value packet,
       match Client.packet_type packet with
       | HEAL | DEFEND | MISS => false
       | _ => true
       end)
  end.

Definition totalDamage (packetQueue : list Client.Packet)
    (pendingAssignments : list Client.Assignment) : Z :=
  fold_left (fun acc curr => acc + curr.1)
    (List.filter (fun e => e.2) (map (damageEvent packetQueue) pendingAssignments)) 0.

(** What the callback that [executeTurn] schedules has captured. *)
Record Scheduled := mkScheduled {
  sch_gameState : Client.GameState;
  sch_pendingAssignments : list Client.Assignment;
  sch_moveHistory : list MoveRecord;
  sch_totalDamage : Z
}.

(** The synchronous part of [executeTurn]: the store it leaves and the
    callback it schedules, if any. *)
Definition executeTurn (s : Store) : Store * option Scheduled :=
  match gameState s with
  | None => (s, None)
  | Some gameState =>
      if negb (length (pendingAssignments s) =? length (Client.dataStream gameState))%nat
      then (s, None)
      else
        (set_isExecuting s true,
         Some {| sch_gameState := gameState;
                 sch_pendingAssignments := pendingAssignments s;
                 sch_moveHistory := moveHistory s;
                 sch_totalDamage := totalDamage (packetQueue s) (pendingAssignments s) |})
  end.

(** The scheduled callback, on the store it finds; the flag tells
    whether it schedules [generateNewHand] in turn. *)
Definition resolveScheduled (c : Scheduled) (s : Store) : Store * bool :=
  match Client.resolveTurn (sch_gameState c) (sch_pendingAssignments c) with
  | Throw _ => (set_isExecuting s false, false)
  | Ok nextState =>
      let result := Client.checkTurnResult nextState in
      let nextState :=
        if decide (result = CONTINUE)
        then Client.set_enemies nextState
               (updateEnemyIntents (Client.enemies nextState)
                  (Client.turnCounter nextState))
        else nextState in
      let s :=
        {| gameState := Some nextState; currentLevelSeed := currentLevelSeed s;
           gameResult := Some result; packetQueue := packetQueue s;
           selectedPacketIds := selectedPacketIds s; isAnimating := isAnimating s;
           isExecuting := isExecuting s; pendingAssignments := [];
           moveHistory :=
             sch_moveHistory c ++
             [ {| turnNumber := Client.turnCounter (sch_gameState c);
                  seed := Client.levelSeed (sch_gameState c);
                  damageDealt := sch_totalDamage c;
                  packetsUsed := length (sch_pendingAssignments c) |} ] |} in
      if decide (result = CONTINUE) then (s, true)
      else (set_isExecuting s false, false)
  end.

Section Seeds.

(** [toBytes] of viem: the bytes of a seed string. *)
Variable toBytes : string -> list Z.

(** [startGame]: no level is given for a seed without bytes (see
    [generateLevelFromSeed]); a throw of [derivePacketsFromSeed] leaves
    the store as it was. *)
Definition startGame (seed : string) (s : Store) : option (Result Store) :=
  match LevelGenerator.generateLevelFromSeed (toBytes seed) with
  | None => None
  | Some level =>
      Some
        (bindR (Client.derivePacketsFromSeed (toBytes seed) 1) (fun hand =>
         let gameState :=
           {| Client.status := Client.PLANNING;
              Client.levelSeed := seed;
              Client.turnCounter := 1;
              Client.levelId := 1;
              Client.grid := {| Client.width := 6; Client.height := 6 |};
              Client.player := LevelGenerator.player level;
              Client.enemies := LevelGenerator.enemies level;
              Client.dataStream := Client.packets hand;
              Client.assignments := [];
              Client.score := 0;
              Client.anomaly := Client.hand_anomaly hand;
              Client.jackpotHit := Client.hand_jackpotHit hand |} in
         Ok {| gameState := Some gameState; currentLevelSeed := Some seed;
               gameResult := None; packetQueue := Client.packets hand;
               selectedPacketIds := []; isAnimating := true; isExecuting := false;
               pendingAssignments := []; moveHistory := moveHistory s |}))
  end.

Definition generateNewHand (s : Store) : Result Store :=
  match gameState s, currentLevelSeed s with
  | Some gameState, Some currentLevelSeed =>
      if String.eqb currentLevelSeed EmptyString then Ok s
      else
        bindR (Client.derivePacketsFromSeed (toBytes currentLevelSeed)
                 (Client.turnCounter gameState)) (fun hand =>
        let updatedState :=
          {| Client.status := Client.PLANNING;
             Client.levelSeed := Client.levelSeed gameState;
             Client.turnCounter := Client.turnCounter gameState;
             Client.levelId := Client.levelId gameState;
             Client.grid := Client.grid gameState;
             Client.player := Client.player gameState;
             Client.enemies := Client.enemies gameState;
             Client.dataStream := Client.packets hand;
             Client.assignments := Client.assignments gameState;
             Client.score := Client.score gameState;
             Client.anomaly := Client.hand_anomaly hand;
             Client.jackpotHit := Client.hand_jackpotHit hand |} in
        Ok {| gameState := Some updatedState; currentLevelSeed := Some currentLevelSeed;
              gameResult := None; packetQueue := Client.packets hand;
              selectedPacketIds := []; isAnimating := true;
              isExecuting := isExecuting s; pendingAssignments := [];
              moveHistory := moveHistory s |})
  | _, _ => Ok s
  end.

End Seeds.

End GameStore.

(** ** The game contract ([FateboundCore.sol])

    The storage of the contract and its external functions.  A call
    either returns, with the storage it leaves, or reverts, leaving the
    storage as it was.  What the outside answers is an input of
    [startGame]: the fee, the sequence number of the request (none when
    the Entropy contract reverts) and whether the sender takes the
    refund.  The Entropy contract does not call back within its
    [requestV2]: its callback is a transaction of its own.  Balances and
    events are left out. *)

Module FateboundCore.

Definition ENTROPY : Z := 0x825c0390f379C631f3Cf11A82a37D20BddF93c07.

Definition DEFAULT_PLAYER_HP : Z := 100.

Inductive GameStatus := NONE | WAITING_FOR_VRF | ACTIVE | COMPLETED.

#[global] Instance GameStatus_eq_dec : EqDecision GameStatus.
Proof. solve_decision. Defined.

Record Game := mkGame {
  player : Z;
  seed : list Z;
  stateHash : list Z;
  currentTurn : Z;
  score : Z;
  status : GameStatus;
  result : TurnResult
}.

(** The value of a storage slot never written. *)
Definition noGame : Game :=
  {| player := 0; seed := repeat 0 32; stateHash := repeat 0 32; currentTurn := 0;
     score := 0; status := NONE; result := CONTINUE |}.

Record State := mkState {
  gameCounter : Z;
  games : gmap Z Game;
  activeGameId : gmap Z Z;
  sequenceToGameId : gmap Z Z
}.

Definition deployed : State :=
  {| gameCounter := 0; games := ∅; activeGameId := ∅; sequenceToGameId := ∅ |}.

Definition game (st : State) (gameId : Z) : Game := default noGame (games st !! gameId).

Definition set_game (st : State) (gameId : Z) (g : Game) : State :=
  {| gameCounter := gameCounter st; games := <[gameId := g]> (games st);
     activeGameId := activeGameId st; sequenceToGameId := sequenceToGameId st |}.

Inductive Failure :=
| Require (message : string)
| Verifier (r : TurnVerifier.Revert)
| Panic
| External.

Inductive Outcome (A : Type) :=
| Done (a : A)
| Failed (f : Failure).
Arguments Done {A} a.
Arguments Failed {A} f.

Definition require (condition : bool) (message : string) (k : Outcome State)
    : Outcome State :=
  if condition then k else Failed (Require message).

Definition verifier {A} (o : TurnVerifier.Outcome A) (k : A -> Outcome State)
    : Outcome State :=
  match o with
  | TurnVerifier.Return a => k a
  | TurnVerifier.Reverted r => Failed (Verifier r)
  end.

Definition startGame (sender value fee : Z) (sequenceNumber : option Z)
    (refundAccepted : bool) (st : State) : Outcome State :=
  let existingGame := default 0 (activeGameId st !! sender) in
  let existingStatus := status (game st existingGame) in
  require ((existingGame =? 0)
           || bool_decide (existingStatus = COMPLETED)
           || bool_decide (existingStatus = NONE))
    "Complete or forfeit existing game first" (
  require (value >=? fee) "Insufficient fee for VRF" (
  if negb (gameCounter st + 1 <? 2 ^ 256) then Failed Panic
  else
    let gameId := gameCounter st + 1 in
    match sequenceNumber with
    | None => Failed External
    | Some sequenceNumber =>
        if (value >? fee) && negb refundAccepted then Failed External
        else
          Done {| gameCounter := gameId;
                  games :=
                    <[gameId := {| player := sender; seed := repeat 0 32;
                                   stateHash := repeat 0 32; currentTurn := 0;
                                   score := 0; status := WAITING_FOR_VRF;
                                   result := CONTINUE |}]>
                      (games st);
                  activeGameId := <[sender := gameId]> (activeGameId st);
                  sequenceToGameId :=
                    <[sequenceNumber := gameId]> (sequenceToGameId st) |}
    end)).

Definition _getDefaultEnemies : list TurnVerifier.Enemy :=
  [ {| TurnVerifier.enemy_id := 0; TurnVerifier.enemy_hp := 20;
       TurnVerifier.enemy_maxHp := 20; TurnVerifier.damage := 5;
       TurnVerifier.isAttacking := true; TurnVerifier.isCache := false |};
    {| TurnVerifier.enemy_id := 1; TurnVerifier.enemy_hp := 15;
       TurnVerifier.enemy_maxHp := 15; TurnVerifier.damage := 3;
       TurnVerifier.isAttacking := true; TurnVerifier.isCache := false |};
    {| TurnVerifier.enemy_id := 2; TurnVerifier.enemy_hp := 30;
       TurnVerifier.enemy_maxHp := 30; TurnVerifier.damage := 8;
       TurnVerifier.isAttacking := false; TurnVerifier.isCache := false |} ].

Definition initialPlayer : TurnVerifier.Player :=
  {| TurnVerifier.hp := DEFAULT_PLAYER_HP; TurnVerifier.maxHp := DEFAULT_PLAYER_HP;
     TurnVerifier.shield := 0 |}.

Definition _entropyCallback (sender sequenceNumber _provider : Z)
    (randomNumber : list Z) (st : State) : Outcome State :=
  require (sender =? ENTROPY) "Only Entropy contract can call" (
  let gameId := default 0 (sequenceToGameId st !! sequenceNumber) in
  require (negb (gameId =? 0)) "Unknown sequence number" (
  let game := game st gameId in
  require (bool_decide (status game = WAITING_FOR_VRF)) "Game not waiting for VRF" (
  verifier (TurnVerifier.computeStateHash initialPlayer _getDefaultEnemies 1 0)
    (fun stateHash =>
  Done {| gameCounter := gameCounter st;
          games :=
            <[gameId := {| player := player game; seed := randomNumber;
                           stateHash := stateHash; currentTurn := 1;
                           score := score game; status := ACTIVE;
                           result := result game |}]>
              (games st);
          activeGameId := activeGameId st;
          sequenceToGameId := delete sequenceNumber (sequenceToGameId st) |})))).

Definition submitTurn (sender gameId : Z) (player : TurnVerifier.Player)
    (enemies : list TurnVerifier.Enemy) (assignments : list TurnVerifier.Assignment)
    (st : State) : Outcome State :=
  let game := game st gameId in
  require (sender =? FateboundCore.player game) "Not your game" (
  require (bool_decide (status game = ACTIVE)) "Game not active" (
  verifier (TurnVerifier.computeStateHash player enemies (currentTurn game) (score game))
    (fun claimedStateHash =>
  require (bool_decide (claimedStateHash = stateHash game))
    "State mismatch - invalid pre-state" (
  verifier (TurnVerifier.resolveTurn (seed game) player enemies (currentTurn game)
              assignments (score game))
    (fun '(newPlayer, newEnemies, result, newScore) =>
  if negb (currentTurn game + 1 <? 2 ^ 8) then Failed Panic
  else
    let currentTurn := currentTurn game + 1 in
    verifier (TurnVerifier.computeStateHash newPlayer newEnemies currentTurn newScore)
      (fun stateHash =>
    let ended := negb (bool_decide (result = CONTINUE)) in
    Done (set_game st gameId
            {| FateboundCore.player := FateboundCore.player game;
               seed := seed game;
               stateHash := stateHash;
               currentTurn := currentTurn;
               score := newScore;
               status := if ended then COMPLETED else status game;
               result := if ended then result else FateboundCore.result game |}))))))).

Definition claimVictory (sender gameId claimedScore : Z) (st : State) : Outcome State :=
  let game := game st gameId in
  require (sender =? player game) "Not your game" (
  require (bool_decide (status game = ACTIVE)) "Game not active" (
  Done (set_game st gameId
          {| player := player game; seed := seed game; stateHash := stateHash game;
             currentTurn := currentTurn game;
             score := claimedScore mod 2 ^ 32;
             status := COMPLETED; result := VICTORY |}))).

Definition forfeitGame (sender gameId : Z) (st : State) : Outcome State :=
  let game := game st gameId in
  require (sender =? player game) "Not your game" (
  require (bool_decide (status game = ACTIVE)
           || bool_decide (status game = WAITING_FOR_VRF)) "Game not active" (
  Done (set_game st gameId
          {| player := player game; seed := seed game; stateHash := stateHash game;
             currentTurn := currentTurn game; score := score game;
             status := COMPLETED; result := DEFEAT |}))).

Definition hasActiveGame (player : Z) (st : State) : bool :=
  let gameId := default 0 (activeGameId st !! player) in
  if gameId =? 0 then false
  else
    let status := status (game st gameId) in
    bool_decide (status = ACTIVE) || bool_decide (status = WAITING_FOR_VRF).

Definition getHand (seed : list Z) (turn : Z) : list TurnVerifier.Packet :=
  TurnVerifier.deriveHand seed turn.

(** The transactions of the contract. *)
Inductive Call :=
| StartGame (sender value fee : Z) (sequenceNumber : option Z) (refundAccepted : bool)
| EntropyCallback (sender sequenceNumber _provider : Z) (randomNumber : list Z)
| SubmitTurn (sender gameId : Z) (player : TurnVerifier.Player)
    (enemies : list TurnVerifier.Enemy) (assignments : list TurnVerifier.Assignment)
| ClaimVictory (sender gameId claimedScore : Z)
| ForfeitGame (sender gameId : Z).

Definition call (c : Call) (st : State) : Outcome State :=
  match c with
  | StartGame sender value fee sequenceNumber refundAccepted =>
      startGame sender value fee sequenceNumber refundAccepted st
  | EntropyCallback sender sequenceNumber _provider randomNumber =>
      _entropyCallback sender sequenceNumber _provider randomNumber st
  | SubmitTurn sender gameId player enemies assignments =>
      submitTurn sender gameId player enemies assignments st
  | ClaimVictory sender gameId claimedScore => claimVictory sender gameId claimedScore st
  | ForfeitGame sender gameId => forfeitGame sender gameId st
  end.

(** The storage after a transaction: a reverted one changes nothing. *)
Definition after (st : State) (c : Call) : State :=
  match call c st with
  | Done st' => st'
  | Failed _ => st
  end.

Definition sender_of (c : Call) : Z :=
  match c with
  | StartGame sender _ _ _ _ | EntropyCallback sender _ _ _
  | SubmitTurn sender _ _ _ _ | ClaimVictory sender _ _ | ForfeitGame sender _ => sender
  end.

End FateboundCore.

(** * Fixtures and the predicates of the specification *)

(** The ranges as the specification lists them. *)
Definition kindRange (k : PacketType) (b : Z) : Prop :=
  match k with
  | MISS => 0 <= b <= 19
  | ATTACK => 20 <= b <= 150
  | DEFEND => 151 <= b <= 200
  | CRIT => 201 <= b <= 240
  | HEAL => 241 <= b <= 255
  end.

Ltac split_byte_tests :=
  repeat match goal with
         | |- context [?a <=? ?b] => destruct (Z.leb_spec a b)
         | |- context [?a <? ?b] => destruct (Z.ltb_spec a b)
         | |- context [?a >? ?b] => rewrite (Z.gtb_ltb a b)
         | |- context [?a >=? ?b] => rewrite (Z.geb_leb a b)
         end.

(** The fixture of the resolver's tests: one ATTACK packet, one drone. *)
Definition testPacket : Client.Packet :=
  {| Client.packet_id := "packet-0"; Client.hexValue := "0x64";
     Client.byteValue := 100; Client.packet_type := ATTACK;
     Client.packet_rarity := COMMON; Client.packet_value := 5 |}.

Definition testEnemy : Client.Enemy :=
  {| Client.enemy_id := "enemy-0"; Client.enemy_name := "Drone";
     Client.enemy_hp := 20; Client.enemy_maxHp := 20;
     Client.enemy_type := "basic";
     Client.enemy_position := {| Client.pos_x := 3; Client.pos_y := 3 |};
     Client.intent := Client.IntentATTACK; Client.damage := 5 |}.

Definition testPlayer (h sh : Z) : Client.Player :=
  {| Client.hp := h; Client.maxHp := 100; Client.shield := sh;
     Client.position := {| Client.pos_x := 0; Client.pos_y := 0 |} |}.

Definition testState : Client.GameState :=
  {| Client.status := Client.EXECUTING; Client.levelSeed := "0x1234";
     Client.turnCounter := 1; Client.levelId := 1;
     Client.grid := {| Client.width := 6; Client.height := 6 |};
     Client.player := testPlayer 100 0;
     Client.enemies := [testEnemy];
     Client.dataStream := [testPacket];
     Client.assignments := [];
     Client.score := 0; Client.anomaly := STABLE;
     Client.jackpotHit := false |}.

Definition verifierPlayer (h sh : Z) : TurnVerifier.Player :=
  {| TurnVerifier.hp := h; TurnVerifier.maxHp := 100; TurnVerifier.shield := sh |}.

Definition isDamage (t : PacketType) : Prop := t = ATTACK \/ t = CRIT.

Definition critPacket : Client.Packet :=
  {| Client.packet_id := "packet-0"; Client.hexValue := "0xDC";
     Client.byteValue := 220; Client.packet_type := CRIT;
     Client.packet_rarity := COMMON; Client.packet_value := 15 |}.

Definition verifierDrone (h : Z) : TurnVerifier.Enemy :=
  {| TurnVerifier.enemy_id := 0; TurnVerifier.enemy_hp := h;
     TurnVerifier.enemy_maxHp := 20; TurnVerifier.damage := 5;
     TurnVerifier.isAttacking := true; TurnVerifier.isCache := false |}.

Definition verifierPacket (b : Z) : TurnVerifier.Packet :=
  {| TurnVerifier.byteValue := b;
     TurnVerifier.packetType := TurnVerifier.mapByteToPacketType b;
     TurnVerifier.value :=
       TurnVerifier.getPacketValue (TurnVerifier.mapByteToPacketType b) |}.

Definition zeroSeed : list Z := repeat 0 32.

Definition clientView (p : Client.Packet) : Z * PacketType * Z :=
  (Client.byteValue p, Client.packet_type p, Client.packet_value p).

Definition verifierView (p : TurnVerifier.Packet) : Z * PacketType * Z :=
  (TurnVerifier.byteValue p, TurnVerifier.packetType p, TurnVerifier.value p).

Definition selfAssign (packetId : string) : Client.Assignment :=
  {| Client.packetId := packetId; Client.targetId := "player" |}.

Definition defendPacket : Client.Packet :=
  {| Client.packet_id := "packet-1"; Client.hexValue := "0xAF";
     Client.byteValue := 175; Client.packet_type := DEFEND;
     Client.packet_rarity := COMMON; Client.packet_value := 5 |}.

(** A player at hp 5 who takes the ATTACK packet and then the DEFEND
    packet, facing the drone of the fixture (ATTACK intent, damage 5). *)
Definition lostState : Client.GameState :=
  {| Client.status := Client.EXECUTING; Client.levelSeed := "0x1234";
     Client.turnCounter := 1; Client.levelId := 1;
     Client.grid := {| Client.width := 6; Client.height := 6 |};
     Client.player := testPlayer 5 0;
     Client.enemies := [testEnemy];
     Client.dataStream := [testPacket; defendPacket];
     Client.assignments := [];
     Client.score := 0; Client.anomaly := STABLE;
     Client.jackpotHit := false |}.

Definition lostAssignments : list Client.Assignment :=
  [selfAssign "packet-0"; selfAssign "packet-1"].

(** The three ways the specification lists for assignments to be invalid. *)
Definition unassignedPacket (state : Client.GameState)
    (assignments : list Client.Assignment) : Prop :=
  exists p, In p (Client.dataStream state)
            /\ ~ In (Client.packet_id p) (map Client.packetId assignments).

Definition assignedTwice (assignments : list Client.Assignment) : Prop :=
  ~ NoDup (map Client.packetId assignments).

Definition knownTarget (state : Client.GameState) (t : string) : Prop :=
  t = "player"%string \/ t = "trash"%string
  \/ exists e, In e (Client.enemies state) /\ Client.enemy_id e = t.

Definition unknownTarget (state : Client.GameState)
    (assignments : list Client.Assignment) : Prop :=
  exists a, In a assignments /\ ~ knownTarget state (Client.targetId a).

Definition invalidAssignments (state : Client.GameState)
    (assignments : list Client.Assignment) : Prop :=
  unassignedPacket state assignments
  \/ assignedTwice assignments
  \/ unknownTarget state assignments.

(** [k] more points, everything else the same. *)
Definition shiftScore (k : Z) (s : Client.GameState) : Client.GameState :=
  Client.set_score s (Client.score s + k).

(** The steps after the jackpot step neither read the score (they only
    add to it) nor touch the jackpot flag: they commute with a change of
    both. *)
Definition adjust (k : Z) (flag : option bool) (s : Client.GameState)
    : Client.GameState :=
  Client.set_jackpotHit (shiftScore k s)
    (match flag with Some b => b | None => Client.jackpotHit s end).

Definition commutes (f : Client.GameState -> Client.GameState) : Prop :=
  forall k flag s, f (adjust k flag s) = adjust k flag (f s).

Definition equivariant {A} (m : Client.M A) : Prop :=
  forall k flag s, m (adjust k flag s) = (adjust k flag (m s).1, (m s).2).

(** The body of [resolveTurn] after its first step. *)
Definition afterJackpot (current : Client.GameState)
    (assignments : list Client.Assignment) : Client.M unit :=
  (Client.mutate Client.startOfTurnAnomaly ;;
   Client.liftR (fun nextState => Client.validateAssignments nextState assignments) ;;
   Client.forEach Client.applyAssignment assignments ;;
   Client.mutate (fun nextState =>
     fold_left (Client.scoreKill current) (Client.enemies nextState) nextState) ;;
   Client.mutate Client.removeDeadEnemies) ;;
  Client.mutate Client.executeEnemyPhase ;;
  Client.mutate Client.endOfTurnAnomaly ;;
  Client.mutate Client.finishTurn.

Definition jackpotState : Client.GameState := Client.set_jackpotHit testState true.

Definition attackDrone : list Client.Assignment :=
  [{| Client.packetId := "packet-0"; Client.targetId := "enemy-0" |}].

(** A comparison to instantiate [localeCompare] with: the order of the
    character codes. *)
Definition codeCompare (a b : string) : Z :=
  match String.compare a b with
  | Lt => -1
  | Eq => 0
  | Gt => 1
  end.

(** A rendering to instantiate [JSON.stringify] with: the fields in
    order, strings as they are. *)
Definition renderNormalized (n : Client.Normalized) : string :=
  let field (name value : string) := String.append name (String.append ":" value) in
  let enemy (e : Client.NormalizedEnemy) :=
    String.append (Client.n_id e)
      (String.append "=" (String.append (decimal (Client.n_enemy_hp e)) ";")) in
  String.append (field "levelSeed" (Client.n_levelSeed n))
    (String.append (field ",turnCounter" (decimal (Client.n_turnCounter n)))
    (String.append (field ",levelId" (decimal (Client.n_levelId n)))
    (String.append (field ",hp" (decimal (Client.n_hp (Client.n_player n))))
    (String.append (field ",shield" (decimal (Client.n_shield (Client.n_player n))))
    (String.append ",enemies:"
       (fold_right String.append EmptyString (map enemy (Client.n_enemies n)))))))).

Definition cacheGold : Client.Enemy :=
  {| Client.enemy_id := "cache-gold"; Client.enemy_name := "ZERO_DAY_CACHE";
     Client.enemy_hp := 1; Client.enemy_maxHp := 1;
     Client.enemy_type := "CACHE_GOLD";
     Client.enemy_position := {| Client.pos_x := 4; Client.pos_y := 1 |};
     Client.intent := Client.IntentIDLE; Client.damage := 0 |}.

Definition twoEnemies : Client.GameState :=
  Client.set_enemies testState [testEnemy; cacheGold].

Definition verifierSentinel : TurnVerifier.Enemy :=
  {| TurnVerifier.enemy_id := 2; TurnVerifier.enemy_hp := 30;
     TurnVerifier.enemy_maxHp := 30; TurnVerifier.damage := 8;
     TurnVerifier.isAttacking := false; TurnVerifier.isCache := false |}.

Definition isByte (b : Z) : Prop := 0 <= b <= 255.

Definition hexChars (bs : list Z) : list Ascii.ascii :=
  String.list_ascii_of_string (fold_right (hexByte false) EmptyString bs).

(** The kind and magnitude both implementations give a source byte. *)
Definition packetOfByte (b : Z) : Z * PacketType * Z :=
  (b, TurnVerifier.mapByteToPacketType b,
   TurnVerifier.getPacketValue (TurnVerifier.mapByteToPacketType b)).

Definition indices (n : Z) : list Z := map Z.of_nat (seq 0 (Z.to_nat n)).

Definition sameHandAndIds (s s' : Client.GameState) : Prop :=
  Client.dataStream s' = Client.dataStream s
  /\ map Client.enemy_id (Client.enemies s') = map Client.enemy_id (Client.enemies s).

Definition targetById (s : Client.GameState) (t : string) : Prop :=
  t = "player"%string \/ t = "trash"%string
  \/ In t (map Client.enemy_id (Client.enemies s)).

(** What [validateAssignments] accepts: every assignment names a packet
    of the hand and a known target, no packet is named twice, and every
    packet of the hand is named. *)
Definition validAssignments (state : Client.GameState)
    (assignments : list Client.Assignment) : Prop :=
  (forall a, In a assignments ->
     In (Client.packetId a) (map Client.packet_id (Client.dataStream state))
     /\ knownTarget state (Client.targetId a))
  /\ NoDup (map Client.packetId assignments)
  /\ (forall p, In p (Client.dataStream state) ->
        In (Client.packet_id p) (map Client.packetId assignments)).

(** An enemy after a resolution step: the same enemy but for its hp;
    and, where nothing is negative, with an hp that is not higher. *)
Definition sameButHp (e e' : Client.Enemy) : Prop :=
  e' = Client.set_enemy_hp e (Client.enemy_hp e').

Definition weakened (e e' : Client.Enemy) : Prop :=
  sameButHp e e' /\ 0 <= Client.enemy_hp e' <= Client.enemy_hp e.

(** An enemy list after a resolution: some enemies removed, the others
    related by [R], in the same order. *)
Inductive Shrunk (R : Client.Enemy -> Client.Enemy -> Prop)
    : list Client.Enemy -> list Client.Enemy -> Prop :=
| Shrunk_nil : Shrunk R [] []
| Shrunk_drop e l l' : Shrunk R l l' -> Shrunk R (e :: l) l'
| Shrunk_keep e e' l l' : R e e' -> Shrunk R l l' -> Shrunk R (e :: l) (e' :: l').

(** What no step of a resolution before its last changes, and the
    directions in which the score and the player's hp move. *)
Definition evolves (s s' : Client.GameState) : Prop :=
  Client.status s' = Client.status s
  /\ Client.turnCounter s' = Client.turnCounter s
  /\ Client.levelSeed s' = Client.levelSeed s
  /\ Client.levelId s' = Client.levelId s
  /\ Client.grid s' = Client.grid s
  /\ Client.anomaly s' = Client.anomaly s
  /\ Client.maxHp (Client.player s') = Client.maxHp (Client.player s)
  /\ Client.position (Client.player s') = Client.position (Client.player s)
  /\ Client.score s <= Client.score s'
  /\ Client.hp (Client.player s')
     <= Z.max (Z.max (Client.hp (Client.player s)) (Client.maxHp (Client.player s))) 0
  /\ Shrunk sameButHp (Client.enemies s) (Client.enemies s').

(** The data model's ranges: the player's hp between 0 and maxHp, no
    negative shield, enemy hp or packet value. *)
Definition inRanges (s : Client.GameState) : Prop :=
  0 <= Client.hp (Client.player s) <= Client.maxHp (Client.player s)
  /\ 0 <= Client.shield (Client.player s)
  /\ Forall (fun e => 0 <= Client.enemy_hp e) (Client.enemies s)
  /\ Forall (fun p => 0 <= Client.packet_value p) (Client.dataStream s).

(** A step that keeps the ranges, the hand, and weakens or removes enemies. *)
Definition descends (s s' : Client.GameState) : Prop :=
  inRanges s'
  /\ Client.dataStream s' = Client.dataStream s
  /\ Shrunk weakened (Client.enemies s) (Client.enemies s').

(** The verifier's view of the client's data: the fields the verifier has. *)
Definition mirrorsPlayer (p : Client.Player) (v : TurnVerifier.Player) : Prop :=
  TurnVerifier.hp v = Client.hp p
  /\ TurnVerifier.maxHp v = Client.maxHp p
  /\ TurnVerifier.shield v = Client.shield p.

Definition mirrorsEnemy (e : Client.Enemy) (v : TurnVerifier.Enemy) : Prop :=
  TurnVerifier.enemy_hp v = Client.enemy_hp e
  /\ TurnVerifier.enemy_maxHp v = Client.enemy_maxHp e
  /\ TurnVerifier.damage v = Client.damage e
  /\ TurnVerifier.isAttacking v
     = match Client.intent e with Client.IntentATTACK => true | _ => false end
  /\ TurnVerifier.isCache v = String.eqb (Client.enemy_type e) "CACHE_GOLD".

(** A client packet the verifier can express: its kind and value, no
    rarity multiplier and no anomaly bonus. *)
Definition mirrorsPacket (anomaly : AnomalyType) (c : Client.Packet)
    (v : TurnVerifier.Packet) : Prop :=
  TurnVerifier.packetType v = Client.packet_type c
  /\ TurnVerifier.value v = Client.packet_value c
  /\ Client.packet_rarity c = COMMON
  /\ ~ (anomaly = OVERCLOCK /\ Client.packet_type c = ATTACK).

Definition healPacket : Client.Packet :=
  {| Client.packet_id := "packet-0"; Client.hexValue := "0xFA";
     Client.byteValue := 250; Client.packet_type := HEAL;
     Client.packet_rarity := COMMON; Client.packet_value := 10 |}.


(** Assignments that spend the four ATTACK packets of the verifier's
    turn-1 hand for the zero seed on enemy 0 and discard the rest. *)
Definition killAssignments : list TurnVerifier.Assignment :=
  map (fun '(i, t) => TurnVerifier.mkAssignment i t)
    [(0, 0); (1, 2); (2, 2); (3, 2); (4, 0); (5, 2)].

(** The bonus [resolveTurn] of the verifier adds on a victory. *)
Definition victoryBonus (player : TurnVerifier.Player) (result : TurnResult) : Z :=
  match result with
  | VICTORY =>
      500 + (if TurnVerifier.hp player =? TurnVerifier.maxHp player then 200 else 0)
  | _ => 0
  end.

(** What the verifier may do to an enemy: lower its hp, not below 0. *)
Definition verifierWeakened (e e' : TurnVerifier.Enemy) : Prop :=
  TurnVerifier.enemy_id e' = TurnVerifier.enemy_id e
  /\ TurnVerifier.enemy_maxHp e' = TurnVerifier.enemy_maxHp e
  /\ TurnVerifier.damage e' = TurnVerifier.damage e
  /\ TurnVerifier.isAttacking e' = TurnVerifier.isAttacking e
  /\ TurnVerifier.isCache e' = TurnVerifier.isCache e
  /\ 0 <= TurnVerifier.enemy_hp e' <= TurnVerifier.enemy_hp e.


(** Reading a big-endian unsigned integer back from its bytes. *)
Definition decode_uint (bs : list Z) : Z :=
  fold_left (fun acc b => acc * 256 + b) bs 0.

(** The values the Solidity types of the state can hold. *)
Definition encodablePlayer (p : TurnVerifier.Player) : Prop :=
  TurnVerifier.is_uint 16 (TurnVerifier.hp p)
  /\ TurnVerifier.is_uint 16 (TurnVerifier.maxHp p)
  /\ TurnVerifier.is_uint 16 (TurnVerifier.shield p).

Definition encodableEnemy (e : TurnVerifier.Enemy) : Prop :=
  TurnVerifier.is_uint 8 (TurnVerifier.enemy_id e)
  /\ TurnVerifier.is_uint 16 (TurnVerifier.enemy_hp e)
  /\ TurnVerifier.is_uint 16 (TurnVerifier.enemy_maxHp e)
  /\ TurnVerifier.is_uint 8 (TurnVerifier.damage e).

Definition encodableState (player : TurnVerifier.Player)
    (enemies : list TurnVerifier.Enemy) (turn score : Z) : Prop :=
  encodablePlayer player /\ Forall encodableEnemy enemies
  /\ TurnVerifier.is_uint 8 turn /\ TurnVerifier.is_uint 32 score.


(** The hex rendering of a byte string, in either case, with or without
    the [0x] prefix. *)
Definition renderHex (upper prefixed : bool) (bs : list Z) : string :=
  String.append (if prefixed then "0x" else EmptyString) (fold_right (hexByte upper) EmptyString bs).

(** The characters [hexToBytes] reads the digits from. *)
Definition hexBody (hex : string) : list Ascii.ascii :=
  String.list_ascii_of_string
    (match hex with
     | String "0" (String "x" rest) => rest
     | _ => hex
     end).


(** What [mapByteToPacket] promises of a packet built from byte [b] at
    position [i] of the hand. *)
Definition packetFrom (b i : Z) (p : Client.Packet) : Prop :=
  Client.packet_id p = String.append "packet-" (decimal i)
  /\ Client.byteValue p = b
  /\ Client.mapByteToPacketType b = Ok (Client.packet_type p)
  /\ Client.packet_value p = Client.PACKET_VALUES (Client.packet_type p)
  /\ Client.hexToBytes (Client.hexValue p) = Ok [b].


Definition wellFormedPacket (p : Client.Packet) : Prop :=
  isByte (Client.byteValue p)
  /\ Client.mapByteToPacketType (Client.byteValue p) = Ok (Client.packet_type p)
  /\ Client.packet_value p = Client.PACKET_VALUES (Client.packet_type p)
  /\ Client.hexToBytes (Client.hexValue p) = Ok [Client.byteValue p].


(** The 6 x 6 grid of the level generator. *)
Definition inGrid (p : Client.Position) : Prop :=
  0 <= Client.pos_x p < 6 /\ 0 <= Client.pos_y p < 6.

Definition manhattan (a b : Client.Position) : Z :=
  Z.abs (Client.pos_x a - Client.pos_x b) + Z.abs (Client.pos_y a - Client.pos_y b).

Definition cells : list (Z * Z) :=
  flat_map (fun y => map (fun x => (x, y)) [0; 1; 2; 3; 4; 5]) [0; 1; 2; 3; 4; 5].

Definition cellKey (c : Z * Z) : string := LevelGenerator.key c.1 c.2.

(** One step of the linear probe. *)
Definition probeStep (c : Z * Z) : Z * Z :=
  let x' := Z.rem (c.1 + 1) 6 in
  (x', if x' =? 0 then Z.rem (c.2 + 1) 6 else c.2).

(** The cells the cache loop tries that are 3 or more steps from the
    player's start. *)
Definition farCells : list (Z * Z) := [(1, 4); (2, 5); (3, 0); (4, 1); (5, 2)].

(** The enemies the generator draws from the seed: named enemy-i, of
    one of the three kinds, at full hp. *)
Definition drawnEnemy (i : Z) (e : Client.Enemy) : Prop :=
  Client.enemy_id e = String.append "enemy-" (decimal i)
  /\ Client.enemy_type e <> "CACHE_GOLD"%string
  /\ Client.enemy_maxHp e = Client.enemy_hp e
  /\ 15 <= Client.enemy_hp e <= 30
  /\ 3 <= Client.damage e <= 8.

(** The state of the enemy loop after [n] iterations. *)
Definition spawnInv (n : nat) (st : LevelGenerator.Spawn) : Prop :=
  LevelGenerator.bytePtr st = 1 + 3 * Z.of_nat n
  /\ Forall2 drawnEnemy (map Z.of_nat (seq 0 n)) (LevelGenerator.spawned st)
  /\ Forall (fun e => inGrid (Client.enemy_position e)
                      /\ LevelGenerator.key (Client.pos_x (Client.enemy_position e))
                           (Client.pos_y (Client.enemy_position e))
                         ∈ LevelGenerator.usedPositions st)
       (LevelGenerator.spawned st)
  /\ LevelGenerator.key 0 2 ∈ LevelGenerator.usedPositions st
  /\ (size (LevelGenerator.usedPositions st) <= 1 + n)%nat
  /\ NoDup (Client.position LevelGenerator.defaultPlayer
                   :: map Client.enemy_position (LevelGenerator.spawned st)).


(** What [generateLevelFromSeed] returns for the bytes of a seed: the
    drawn enemies [es] followed by the cache at [(cx, cy)]. *)
Definition generated (bytes : list Z) (es : list Client.Enemy) (cx cy : Z) : Prop :=
  LevelGenerator.generateLevelFromSeed bytes
  = Some {| LevelGenerator.enemies := es ++ [LevelGenerator.cache cx cy];
            LevelGenerator.player := LevelGenerator.defaultPlayer |}.


(** The pending assignments of a store and its hand fit together: the
    packet queue is the hand of the game state, no packet is assigned
    twice, and every pending assignment names a packet of the queue and
    a target the resolver knows. *)
Definition storeInv (s : GameStore.Store) : Prop :=
  exists g,
    GameStore.gameState s = Some g
    /\ GameStore.packetQueue s = Client.dataStream g
    /\ NoDup (map Client.packetId (GameStore.pendingAssignments s))
    /\ forall a, In a (GameStore.pendingAssignments s) ->
         In (Client.packetId a) (map Client.packet_id (GameStore.packetQueue s))
         /\ knownTarget g (Client.targetId a).

(** The planning actions of the player. *)
Inductive Action :=
| Assign (packetId targetId : string)
| Unassign (packetId : string).

Definition act (s : GameStore.Store) (a : Action) : GameStore.Store :=
  match a with
  | Assign packetId targetId => (GameStore.assignPacket packetId targetId s).1
  | Unassign packetId => GameStore.unassignPacket packetId s
  end.


(** A store on the fixture state, its hand queued, nothing assigned. *)
Definition testStore : GameStore.Store :=
  {| GameStore.gameState := Some testState;
     GameStore.currentLevelSeed := Some "0x1234"%string;
     GameStore.gameResult := None;
     GameStore.packetQueue := [testPacket];
     GameStore.selectedPacketIds := [];
     GameStore.isAnimating := false;
     GameStore.isExecuting := false;
     GameStore.pendingAssignments := [];
     GameStore.moveHistory := [] |}.


(** The fixture store after its one packet is assigned to the drone and
    the turn is started, and what the scheduled resolution has captured. *)
Definition plannedActions : list Action := [Assign "packet-0" "enemy-0"].

Definition plannedStore : GameStore.Store :=
  GameStore.set_isExecuting (fold_left act plannedActions testStore) true.

Definition plannedScheduled : GameStore.Scheduled :=
  {| GameStore.sch_gameState := testState;
     GameStore.sch_pendingAssignments :=
       [ {| Client.packetId := "packet-0"; Client.targetId := "enemy-0" |} ];
     GameStore.sch_moveHistory := [];
     GameStore.sch_totalDamage := 5 |}.


(** A store a turn can be planned on: its assignments fit its hand, it
    remembers a seed, the turn counter is 1 or more, the state is within
    the data model's ranges and every enemy of it is alive. *)
Definition playable (s : GameStore.Store) : Prop :=
  storeInv s
  /\ exists g seed,
       GameStore.gameState s = Some g
       /\ GameStore.currentLevelSeed s = Some seed
       /\ seed <> EmptyString
       /\ 1 <= Client.turnCounter g
       /\ inRanges g
       /\ Forall (fun e => Client.enemy_hp e > 0) (Client.enemies g).

(** The bytes every seed string has in the witnesses. *)
Definition zeroBytes (seed : string) : list Z := zeroSeed.


Definition resolvedStore : GameStore.Store :=
  (GameStore.resolveScheduled plannedScheduled plannedStore).1.


(** The storage states of the contract: what a sequence of transactions
    leaves, from the deployment on. *)
Definition reachable (st : FateboundCore.State) : Prop :=
  exists calls, st = fold_left FateboundCore.after calls FateboundCore.deployed.

(** A game that is neither finished nor absent. *)
Definition openGame (g : FateboundCore.Game) : Prop :=
  FateboundCore.status g = FateboundCore.WAITING_FOR_VRF
  \/ FateboundCore.status g = FateboundCore.ACTIVE.

(** The order of the life of a game. *)
Definition rank (s : FateboundCore.GameStatus) : Z :=
  match s with
  | FateboundCore.NONE => 0
  | FateboundCore.WAITING_FOR_VRF => 1
  | FateboundCore.ACTIVE => 2
  | FateboundCore.COMPLETED => 3
  end.

(** What every reachable storage satisfies. *)
Definition coreInv (st : FateboundCore.State) : Prop :=
  0 <= FateboundCore.gameCounter st
  /\ (forall gameId, gameId <= 0 \/ FateboundCore.gameCounter st < gameId ->
        FateboundCore.games st !! gameId = None)
  /\ (forall gameId, openGame (FateboundCore.game st gameId) ->
        default 0 (FateboundCore.activeGameId st
                     !! FateboundCore.player (FateboundCore.game st gameId))
        = gameId)
  /\ (forall p gameId, FateboundCore.activeGameId st !! p = Some gameId ->
        gameId <> 0 /\ FateboundCore.player (FateboundCore.game st gameId) = p
        /\ FateboundCore.status (FateboundCore.game st gameId) <> FateboundCore.NONE)
  /\ (forall gameId,
        FateboundCore.status (FateboundCore.game st gameId) <> FateboundCore.COMPLETED ->
        FateboundCore.score (FateboundCore.game st gameId) = 0).


(** The game [startGame] stores for its sender. *)
Definition requestedGame (sender : Z) : FateboundCore.Game :=
  {| FateboundCore.player := sender; FateboundCore.seed := repeat 0 32;
     FateboundCore.stateHash := repeat 0 32; FateboundCore.currentTurn := 0;
     FateboundCore.score := 0; FateboundCore.status := FateboundCore.WAITING_FOR_VRF;
     FateboundCore.result := CONTINUE |}.

(** The four ways a transaction of [sender] changes the record of a
    game: it is requested, activated by the Entropy contract, forfeited
    while waiting, or played on by its player. *)
Definition gameStep (sender : Z) (g g' : FateboundCore.Game) : Prop :=
  (FateboundCore.status g = FateboundCore.NONE /\ g' = requestedGame sender)
  \/ (FateboundCore.status g = FateboundCore.WAITING_FOR_VRF
      /\ sender = FateboundCore.ENTROPY
      /\ FateboundCore.status g' = FateboundCore.ACTIVE
      /\ FateboundCore.player g' = FateboundCore.player g
      /\ FateboundCore.score g' = FateboundCore.score g
      /\ FateboundCore.currentTurn g' = 1)
  \/ (FateboundCore.status g = FateboundCore.WAITING_FOR_VRF
      /\ sender = FateboundCore.player g
      /\ FateboundCore.status g' = FateboundCore.COMPLETED
      /\ FateboundCore.player g' = FateboundCore.player g
      /\ FateboundCore.score g' = FateboundCore.score g)
  \/ (FateboundCore.status g = FateboundCore.ACTIVE
      /\ sender = FateboundCore.player g
      /\ (FateboundCore.status g' = FateboundCore.ACTIVE
          \/ FateboundCore.status g' = FateboundCore.COMPLETED)
      /\ FateboundCore.player g' = FateboundCore.player g
      /\ FateboundCore.seed g' = FateboundCore.seed g
      /\ (FateboundCore.status g' = FateboundCore.ACTIVE ->
          FateboundCore.score g' = FateboundCore.score g
          /\ FateboundCore.currentTurn g' = FateboundCore.currentTurn g + 1)).


(** How the record of a game can differ after any number of
    transactions: its status does not go back, its player stays once it
    exists, its seed stays once it is active. *)
Definition laterGame (g g' : FateboundCore.Game) : Prop :=
  rank (FateboundCore.status g) <= rank (FateboundCore.status g')
  /\ (FateboundCore.status g <> FateboundCore.NONE ->
      FateboundCore.player g' = FateboundCore.player g)
  /\ (2 <= rank (FateboundCore.status g) ->
      FateboundCore.seed g' = FateboundCore.seed g).

(** A request, its activation and an immediate claim of victory. *)
Definition claimAtOnce (sender value fee sequenceNumber provider : Z)
    (refundAccepted : bool) (randomNumber : list Z) (gameId claimedScore : Z)
    : list FateboundCore.Call :=
  [ FateboundCore.StartGame sender value fee (Some sequenceNumber) refundAccepted;
    FateboundCore.EntropyCallback FateboundCore.ENTROPY sequenceNumber provider
      randomNumber;
    FateboundCore.ClaimVictory sender gameId claimedScore ].


(** The storage after account 7 requests a game and forfeits it. *)
Definition forfeitedCalls : list FateboundCore.Call :=
  [ FateboundCore.StartGame 7 0 0 (Some 1) true; FateboundCore.ForfeitGame 7 1 ].

Definition forfeited : FateboundCore.State :=
  fold_left FateboundCore.after forfeitedCalls FateboundCore.deployed.


(** The storage after account 7 requests a game and the Entropy
    contract activates it with the zero seed, and assignments that
    discard the six packets of its first hand. *)
Definition activatedCalls : list FateboundCore.Call :=
  [ FateboundCore.StartGame 7 0 0 (Some 1) true;
    FateboundCore.EntropyCallback FateboundCore.ENTROPY 1 0 zeroSeed ].

Definition activated : FateboundCore.State :=
  fold_left FateboundCore.after activatedCalls FateboundCore.deployed.

Definition trashAll : list TurnVerifier.Assignment :=
  map (fun i => TurnVerifier.mkAssignment i 0) [0; 1; 2; 3; 4; 5].

Definition firstTurn : FateboundCore.Call :=
  FateboundCore.SubmitTurn 7 1 FateboundCore.initialPlayer
    FateboundCore._getDefaultEnemies trashAll.

(** What [submitTurn] can leave in the record of the game. *)
Definition submittedGame (g : FateboundCore.Game) : Prop :=
  (FateboundCore.status g = FateboundCore.ACTIVE /\ FateboundCore.score g = 0)
  \/ (FateboundCore.status g = FateboundCore.COMPLETED
      /\ FateboundCore.result g = DEFEAT /\ FateboundCore.score g = 0)
  \/ (FateboundCore.status g = FateboundCore.COMPLETED
      /\ FateboundCore.result g = VICTORY
      /\ (FateboundCore.score g = 500 \/ FateboundCore.score g = 700)).


(** The level of the zero seed, and the verifier's view of its enemies. *)
Definition droneAt (id : string) (x y : Z) : Client.Enemy :=
  {| Client.enemy_id := id; Client.enemy_name := "DRONE_B";
     Client.enemy_hp := 15; Client.enemy_maxHp := 15; Client.enemy_type := "drone";
     Client.enemy_position := {| Client.pos_x := x; Client.pos_y := y |};
     Client.intent := Client.IntentATTACK; Client.damage := 3 |}.

Definition zeroLevel : LevelGenerator.Level :=
  {| LevelGenerator.enemies :=
       [droneAt "enemy-0" 0 0; droneAt "enemy-1" 1 0; LevelGenerator.cache 1 4];
     LevelGenerator.player := LevelGenerator.defaultPlayer |}.

Definition zeroLevelMirror : list TurnVerifier.Enemy :=
  [ {| TurnVerifier.enemy_id := 0; TurnVerifier.enemy_hp := 15;
       TurnVerifier.enemy_maxHp := 15; TurnVerifier.damage := 3;
       TurnVerifier.isAttacking := true; TurnVerifier.isCache := false |};
    {| TurnVerifier.enemy_id := 1; TurnVerifier.enemy_hp := 15;
       TurnVerifier.enemy_maxHp := 15; TurnVerifier.damage := 3;
       TurnVerifier.isAttacking := true; TurnVerifier.isCache := false |};
    {| TurnVerifier.enemy_id := 2; TurnVerifier.enemy_hp := 1;
       TurnVerifier.enemy_maxHp := 1; TurnVerifier.damage := 0;
       TurnVerifier.isAttacking := false; TurnVerifier.isCache := true |} ].


(** JavaScript's arithmetic on integers is exact while the values stay
    within the safe-integer range; the statements about exact sums and
    differences of the client are made there. *)
Definition safeInteger (n : Z) : Prop := - 2 ^ 53 < n < 2 ^ 53.

(** The most a resolution can add to the score: the jackpot, 1100 for
    each enemy, the two victory bonuses. *)
Definition scoreHeadroom (s : Client.GameState) : Z :=
  5000 + 1100 * Z.of_nat (length (Client.enemies s)) + 700.

Definition exactScore (s : Client.GameState) : Prop :=
  0 <= Client.score s /\ Client.score s + scoreHeadroom s < 2 ^ 53.

(** The effective magnitude as the specification words it: the base
    magnitude times the rarity multiplier (COMMON 1, RARE 1.5 rounded
    down, LEGENDARY 2), plus the 5 the OVERCLOCK anomaly adds to ATTACK
    packets. *)
Definition effectiveMagnitude (anomaly : AnomalyType) (packet : Client.Packet) : Z :=
  let base := Client.packet_value packet in
  let scaled :=
    match Client.packet_rarity packet with
    | COMMON => base
    | RARE => base + base / 2
    | LEGENDARY => base + base
    end in
  match anomaly, Client.packet_type packet with
  | OVERCLOCK, ATTACK => scaled + 5
  | _, _ => scaled
  end.

(** Two enemies that differ at most in their hp, field by field. *)
Definition hpApart (e e' : Client.Enemy) : Prop :=
  Client.enemy_id e' = Client.enemy_id e
  /\ Client.enemy_name e' = Client.enemy_name e
  /\ Client.enemy_maxHp e' = Client.enemy_maxHp e
  /\ Client.enemy_type e' = Client.enemy_type e
  /\ Client.enemy_position e' = Client.enemy_position e
  /\ Client.intent e' = Client.intent e
  /\ Client.damage e' = Client.damage e.

Definition verifierHpApart (e e' : TurnVerifier.Enemy) : Prop :=
  TurnVerifier.enemy_id e' = TurnVerifier.enemy_id e
  /\ TurnVerifier.enemy_maxHp e' = TurnVerifier.enemy_maxHp e
  /\ TurnVerifier.damage e' = TurnVerifier.damage e
  /\ TurnVerifier.isAttacking e' = TurnVerifier.isAttacking e
  /\ TurnVerifier.isCache e' = TurnVerifier.isCache e.

(** The hp a damage packet of the given magnitude leaves, and the hp any
    other packet leaves. *)
Definition hpAfter (kind : PacketType) (hp magnitude : Z) : Z :=
  match kind with
  | ATTACK | CRIT => Z.max 0 (hp - magnitude)
  | MISS | DEFEND | HEAL => hp
  end.

(** Two states that differ at most in the score and the jackpot flag,
    field by field. *)
Definition scoreAndFlagApart (s s' : Client.GameState) : Prop :=
  Client.status s' = Client.status s
  /\ Client.levelSeed s' = Client.levelSeed s
  /\ Client.turnCounter s' = Client.turnCounter s
  /\ Client.levelId s' = Client.levelId s
  /\ Client.grid s' = Client.grid s
  /\ Client.player s' = Client.player s
  /\ Client.enemies s' = Client.enemies s
  /\ Client.dataStream s' = Client.dataStream s
  /\ Client.assignments s' = Client.assignments s
  /\ Client.anomaly s' = Client.anomaly s.


(** The drone of the fixture at hp 2, alone in the fixture state. *)
Definition woundedEnemy : Client.Enemy :=
  {| Client.enemy_id := "enemy-0"; Client.enemy_name := "Drone";
     Client.enemy_hp := 2; Client.enemy_maxHp := 20;
     Client.enemy_type := "basic";
     Client.enemy_position := {| Client.pos_x := 3; Client.pos_y := 3 |};
     Client.intent := Client.IntentATTACK; Client.damage := 5 |}.

Definition woundedState : Client.GameState :=
  {| Client.status := Client.EXECUTING; Client.levelSeed := "0x1234";
     Client.turnCounter := 1; Client.levelId := 1;
     Client.grid := {| Client.width := 6; Client.height := 6 |};
     Client.player := testPlayer 100 0;
     Client.enemies := [woundedEnemy];
     Client.dataStream := [critPacket];
     Client.assignments := [];
     Client.score := 0; Client.anomaly := STABLE;
     Client.jackpotHit := false |}.


(** Whether an assignment of the client sends a CRIT packet of the hand
    to the target of that id, *)
Definition critOn (hand : list Client.Packet) (target : string)
    (a : Client.Assignment) : bool :=
  String.eqb (Client.targetId a) target
  && match find (fun p => String.eqb (Client.packet_id p) (Client.packetId a)) hand with
     | Some p => bool_decide (Client.packet_type p = CRIT)
     | None => false
     end.

(** and whether an assignment of the verifier sends a CRIT packet of the
    hand to the enemy at index [k] (target type [k + 2]). *)
Definition verifierCritOn (hand : list TurnVerifier.Packet) (k : nat)
    (a : TurnVerifier.Assignment) : bool :=
  (TurnVerifier.targetType a =? Z.of_nat k + 2)
  && match nth_error hand (Z.to_nat (TurnVerifier.packetIndex a)) with
     | Some p => bool_decide (TurnVerifier.packetType p = CRIT)
     | None => false
     end.

Definition uint8Assignment (a : TurnVerifier.Assignment) : Prop :=
  TurnVerifier.is_uint 8 (TurnVerifier.packetIndex a)
  /\ TurnVerifier.is_uint 8 (TurnVerifier.targetType a).

(** The wounded drone and the cache, with a CRIT packet in hand, *)
Definition cacheState : Client.GameState :=
  Client.set_enemies woundedState [woundedEnemy; cacheGold].

Definition critOnCache : list Client.Assignment :=
  [{| Client.packetId := "packet-0"; Client.targetId := "cache-gold" |}].

Definition critOnDrone : list Client.Assignment :=
  [{| Client.packetId := "packet-0"; Client.targetId := "enemy-0" |}].

(** and the same for the verifier: the cache is the enemy at index 1. *)
Definition verifierCache : TurnVerifier.Enemy :=
  {| TurnVerifier.enemy_id := 9; TurnVerifier.enemy_hp := 1;
     TurnVerifier.enemy_maxHp := 1; TurnVerifier.damage := 0;
     TurnVerifier.isAttacking := false; TurnVerifier.isCache := true |}.

Definition verifierCritOnCache : list TurnVerifier.Assignment :=
  [{| TurnVerifier.packetIndex := 0; TurnVerifier.targetType := 3 |}].

Definition verifierCritOnDrone : list TurnVerifier.Assignment :=
  [{| TurnVerifier.packetIndex := 0; TurnVerifier.targetType := 2 |}].

(** * Properties *)

(** ** Known answers of Keccak-256 *)

Example keccak256_empty :
  bytesToHex (Keccak.keccak256 [])
  = "0xc5d2460186f7233c927e7db2dcc703c0e500b653ca82273b7bfad8045d85a470"%string.
Proof. vm_compute. reflexivity. Qed.

Example keccak256_abc :
  bytesToHex (Keccak.keccak256 (encodeText "abc"))
  = "0x4e03657aea45a94fc7d47ba826c8d667c0d1e6e33a64a036ec44f58fa12d6c45"%string.
Proof. vm_compute. reflexivity. Qed.

(** Two blocks: 200 zero bytes. *)
Example keccak256_two_blocks :
  bytesToHex (Keccak.keccak256 (repeat 0 200))
  = "0xe1bb54e1bc3af48d01e5dbfc81015c98152a574f6428c6948aa4837c9c0baad9"%string.
Proof. vm_compute. reflexivity. Qed.

(** ** The byte-to-kind table *)

Lemma client_mapByteToPacketType_range (b : Z) (k : PacketType) :
  0 <= b <= 255 ->
  (Client.mapByteToPacketType b = Ok k <-> kindRange k b).
Proof.
  intros Hb. unfold Client.mapByteToPacketType, Client.PACKET_THRESHOLDS_max.
  split_byte_tests; simpl; try lia;
    destruct k; simpl; split; intros Hk; try lia; try congruence.
Qed.

Lemma verifier_mapByteToPacketType_range (b : Z) (k : PacketType) :
  0 <= b <= 255 ->
  (TurnVerifier.mapByteToPacketType b = k <-> kindRange k b).
Proof.
  intros Hb. unfold TurnVerifier.mapByteToPacketType,
    TurnVerifier.THRESHOLD_MISS, TurnVerifier.THRESHOLD_ATTACK,
    TurnVerifier.THRESHOLD_DEFEND, TurnVerifier.THRESHOLD_CRIT.
  split_byte_tests; destruct k; simpl; split; intros Hk; try lia; try congruence.
Qed.

Lemma kindRange_partition (b : Z) :
  0 <= b <= 255 -> exists k, kindRange k b /\ forall k', kindRange k' b -> k' = k.
Proof.
  intros Hb.
  destruct (Z.le_gt_cases b 19); [exists MISS|].
  2: destruct (Z.le_gt_cases b 150); [exists ATTACK|].
  3: destruct (Z.le_gt_cases b 200); [exists DEFEND|].
  4: destruct (Z.le_gt_cases b 240); [exists CRIT|exists HEAL].
  all: split; [simpl; lia | intros [] Hk; simpl in Hk; (reflexivity || lia)].
Qed.

Lemma mapByteToPacketType_agree (b : Z) :
  0 <= b <= 255 ->
  Client.mapByteToPacketType b = Ok (TurnVerifier.mapByteToPacketType b).
Proof.
  intros Hb. apply client_mapByteToPacketType_range; [exact Hb|].
  apply verifier_mapByteToPacketType_range; [exact Hb|reflexivity].
Qed.

(** C2: for a byte in [0,255] exactly one of the five ranges holds, the
    client's and the verifier's [mapByteToPacketType] both return the kind
    of that range, and so they agree. *)
Theorem byte_to_kind_partition (b : Z) :
  0 <= b <= 255 ->
  (exists k, kindRange k b /\ forall k', kindRange k' b -> k' = k)
  /\ (forall k, Client.mapByteToPacketType b = Ok k <-> kindRange k b)
  /\ (forall k, TurnVerifier.mapByteToPacketType b = k <-> kindRange k b)
  /\ Client.mapByteToPacketType b = Ok (TurnVerifier.mapByteToPacketType b).
Proof.
  intros Hb. repeat split.
  - apply kindRange_partition, Hb.
  - apply client_mapByteToPacketType_range, Hb.
  - apply client_mapByteToPacketType_range, Hb.
  - apply verifier_mapByteToPacketType_range, Hb.
  - apply verifier_mapByteToPacketType_range, Hb.
  - apply mapByteToPacketType_agree, Hb.
Qed.

Lemma byte_to_kind_partition_witness :
  0 <= 150 <= 255
  /\ Client.mapByteToPacketType 150 = Ok (TurnVerifier.mapByteToPacketType 150).
Proof.
  split; [lia|]. apply (byte_to_kind_partition 150). lia.
Defined.

(** ** Hand size *)

Lemma client_calculatePacketCount_valid (turn : Z) :
  1 <= turn -> Client.calculatePacketCount turn = Ok (5 + turn mod 3).
Proof.
  intros Ht. unfold Client.calculatePacketCount.
  destruct (Z.ltb_spec turn 1); [lia|].
  rewrite Z.rem_mod_nonneg by lia. reflexivity.
Qed.

Lemma client_calculatePacketCount_invalid (turn : Z) :
  turn < 1 -> Client.calculatePacketCount turn = Throw (InvalidTurn turn).
Proof.
  intros Ht. unfold Client.calculatePacketCount.
  destruct (Z.ltb_spec turn 1); [reflexivity|lia].
Qed.

Lemma calculatePacketCount_agree (turn : Z) :
  1 <= turn ->
  Client.calculatePacketCount turn = Ok (TurnVerifier.calculatePacketCount turn).
Proof. apply client_calculatePacketCount_valid. Qed.

Lemma calculatePacketCount_cycle :
  map TurnVerifier.calculatePacketCount [1; 2; 3; 4] = [6; 7; 5; 6]
  /\ map Client.calculatePacketCount [1; 2; 3; 4] = [Ok 6; Ok 7; Ok 5; Ok 6].
Proof. split; reflexivity. Qed.

(** C5: at turn 0 the client's [calculatePacketCount] throws, and the
    verifier's returns 5: it has no check of the turn, and [deriveHand]
    builds a hand of five packets. *)
Theorem verifier_accepts_turn_zero :
  Client.calculatePacketCount 0 = Throw (InvalidTurn 0)
  /\ TurnVerifier.calculatePacketCount 0 = 5
  /\ length (TurnVerifier.deriveHand (repeat 0 32) 0) = 5%nat.
Proof. repeat split. Qed.

(** ** Shield first *)

Lemma client_applyDamageToPlayer_player (state : Client.GameState) (d : Z) :
  0 <= Client.shield (Client.player state) -> 0 <= d ->
  let s := Client.shield (Client.player state) in
  let h := Client.hp (Client.player state) in
  Client.player (Client.applyDamageToPlayer d state)
  = if d <=? s
    then Client.set_shield (Client.player state) (s - d)
    else Client.set_hp (Client.set_shield (Client.player state) 0)
                       (Z.max 0 (h - (d - s))).
Proof.
  intros Hs Hd. destruct state as [? ? ? ? ? [h mh s pos] ? ? ? ? ? ?].
  unfold Client.applyDamageToPlayer. simpl in *.
  destruct (Z.leb_spec d s).
  - destruct (Z.gtb_spec s 0); simpl.
    + rewrite Z.min_r by lia.
      replace (d - d) with 0 by lia. reflexivity.
    + replace d with 0 by lia. replace (s - 0) with s by lia.
      reflexivity.
  - destruct (Z.gtb_spec s 0); simpl.
    + rewrite Z.min_l by lia.
      destruct (Z.gtb_spec (d - s) 0); [|lia]. simpl.
      replace (s - s) with 0 by lia. reflexivity.
    + destruct (Z.gtb_spec d 0); [|lia]. simpl.
      replace s with 0 by lia. replace (d - 0) with d by lia. reflexivity.
Qed.

Lemma verifier_applyDamageToPlayer_spec (p : TurnVerifier.Player) (d : Z) :
  0 <= TurnVerifier.shield p -> 0 <= TurnVerifier.hp p -> 0 <= d ->
  let s := TurnVerifier.shield p in
  let h := TurnVerifier.hp p in
  TurnVerifier.applyDamageToPlayer p d
  = if d <=? s
    then {| TurnVerifier.hp := h; TurnVerifier.maxHp := TurnVerifier.maxHp p;
            TurnVerifier.shield := s - d |}
    else {| TurnVerifier.hp := Z.max 0 (h - (d - s));
            TurnVerifier.maxHp := TurnVerifier.maxHp p;
            TurnVerifier.shield := 0 |}.
Proof.
  intros Hs Hh Hd. destruct p as [h mh s]. simpl in *.
  unfold TurnVerifier.applyDamageToPlayer. simpl.
  destruct (Z.leb_spec d s).
  - destruct (Z.gtb_spec s 0).
    + destruct (Z.geb_spec s d); [reflexivity|lia].
    + replace d with 0 by lia. replace s with 0 by lia.
      destruct (Z.gtb_spec h 0); f_equal; lia.
  - destruct (Z.gtb_spec s 0).
    + destruct (Z.geb_spec s d); [lia|].
      destruct (Z.gtb_spec h (d - s)); f_equal; lia.
    + replace s with 0 by lia. replace (d - 0) with d by lia.
      destruct (Z.gtb_spec h d); f_equal; lia.
Qed.



(** ** Packets on enemies *)

Lemma findEnemy_lookup (targetId : string) (es : list Client.Enemy) i enemy :
  Client.findEnemy targetId es = Some (i, enemy) ->
  es !! i = Some enemy /\ Client.enemy_id enemy = targetId.
Proof.
  revert i. induction es as [|e es IH]; intros i; simpl; [discriminate|].
  destruct (String.eqb_spec (Client.enemy_id e) targetId) as [He|He].
  - intros [= <- <-]. split; [reflexivity|exact He].
  - destruct (Client.findEnemy targetId es) as [[j e']|]; simpl; [|discriminate].
    intros [= <- <-]. destruct (IH j eq_refl) as [Hl Hid]. split; assumption.
Qed.

Lemma client_enemy_target (packet : Client.Packet) (targetId : string)
    (state : Client.GameState) i enemy :
  targetId <> "trash"%string -> targetId <> "player"%string ->
  Client.findEnemy targetId (Client.enemies state) = Some (i, enemy) ->
  Client.enemy_type enemy <> "CACHE_GOLD"%string ->
  Client.applyPacketEffect packet targetId state
  = match Client.packet_type packet with
    | ATTACK | CRIT =>
        (Client.set_enemies state
           (<[i := Client.set_enemy_hp enemy
                     (Z.max 0 (Client.enemy_hp enemy
                               - Client.effectiveValue (Client.anomaly state) packet))]>
              (Client.enemies state)), Ok tt)
    | _ => (state, Ok tt)
    end.
Proof.
  intros Ht Hp Hf Hc. unfold Client.applyPacketEffect.
  apply String.eqb_neq in Ht, Hp, Hc. rewrite Ht, Hp, Hf, Hc.
  destruct (Client.packet_type packet); reflexivity.
Qed.

Lemma verifier_enemy_target (enemy : TurnVerifier.Enemy) (packet : TurnVerifier.Packet) :
  TurnVerifier.isCache enemy = false ->
  TurnVerifier.applyPacketToEnemy enemy packet
  = match TurnVerifier.packetType packet with
    | ATTACK | CRIT =>
        TurnVerifier.set_enemy_hp enemy
          (Z.max 0 (TurnVerifier.enemy_hp enemy - TurnVerifier.value packet))
    | _ => enemy
    end.
Proof.
  intros Hc. unfold TurnVerifier.applyPacketToEnemy. rewrite Hc.
  destruct (TurnVerifier.packetType packet); try reflexivity;
    destruct (Z.gtb_spec (TurnVerifier.enemy_hp enemy) (TurnVerifier.value packet));
    f_equal; lia.
Qed.

Lemma effectiveValue_magnitude (anomaly : AnomalyType) (packet : Client.Packet) :
  Client.effectiveValue anomaly packet = effectiveMagnitude anomaly packet.
Proof.
  unfold Client.effectiveValue, effectiveMagnitude. cbv zeta.
  assert (Hrare : 3 * Client.packet_value packet / 2
                  = Client.packet_value packet + Client.packet_value packet / 2).
  { replace (3 * Client.packet_value packet)
      with (Client.packet_value packet + Client.packet_value packet * 2) by lia.
    rewrite Z.div_add by lia. lia. }
  destruct (decide (anomaly = OVERCLOCK /\ Client.packet_type packet = ATTACK))
    as [[-> ->]|Hn].
  - destruct (Client.packet_rarity packet); lia.
  - destruct anomaly, (Client.packet_type packet);
      try (exfalso; apply Hn; split; reflexivity);
      destruct (Client.packet_rarity packet); lia.
Qed.

(** C9: on an enemy that is not immune-except-crit, found by the target
    id at place [i], the client's [applyPacketEffect] does not throw and
    leaves at place [i] an enemy with the same fields but the hp, whose
    hp is [max 0 (hp - effective magnitude)] after an ATTACK or CRIT
    packet and the hp before after a DEFEND, HEAL or MISS packet; the
    other enemies, the player and the score are as before.  The
    verifier's [applyPacketToEnemy] returns the same of an enemy that is
    not a cache, with the packet's value as magnitude.  So the hp is
    never negative after a damage packet, and is 0 from hp 2 with a
    magnitude of 2 or more.  The client's numbers are taken within the
    range where its arithmetic is exact. *)
Theorem enemy_damage_floor (state : Client.GameState) (packet : Client.Packet)
    (targetId : string) (i : nat) (enemy : Client.Enemy)
    (enemy2 : TurnVerifier.Enemy) (packet2 : TurnVerifier.Packet) :
  targetId <> "trash"%string -> targetId <> "player"%string ->
  Client.findEnemy targetId (Client.enemies state) = Some (i, enemy) ->
  Client.enemy_type enemy <> "CACHE_GOLD"%string ->
  TurnVerifier.isCache enemy2 = false ->
  0 <= Client.enemy_hp enemy < 2 ^ 53 ->
  0 <= Client.packet_value packet < 2 ^ 51 ->
  let magnitude := effectiveMagnitude (Client.anomaly state) packet in
  let magnitude2 := TurnVerifier.value packet2 in
  let next := (Client.applyPacketEffect packet targetId state).1 in
  let enemy2' := TurnVerifier.applyPacketToEnemy enemy2 packet2 in
  (Client.applyPacketEffect packet targetId state).2 = Ok tt
  /\ (exists enemy',
        Client.enemies next !! i = Some enemy'
        /\ hpApart enemy enemy'
        /\ Client.enemy_hp enemy'
           = hpAfter (Client.packet_type packet) (Client.enemy_hp enemy) magnitude
        /\ (isDamage (Client.packet_type packet) -> 0 <= Client.enemy_hp enemy')
        /\ (isDamage (Client.packet_type packet) -> Client.enemy_hp enemy = 2 ->
            2 <= magnitude -> Client.enemy_hp enemy' = 0))
  /\ (forall j, j <> i -> Client.enemies next !! j = Client.enemies state !! j)
  /\ Client.player next = Client.player state
  /\ Client.score next = Client.score state
  /\ verifierHpApart enemy2 enemy2'
  /\ TurnVerifier.enemy_hp enemy2'
     = hpAfter (TurnVerifier.packetType packet2) (TurnVerifier.enemy_hp enemy2) magnitude2
  /\ (isDamage (TurnVerifier.packetType packet2) -> 0 <= TurnVerifier.enemy_hp enemy2')
  /\ (isDamage (TurnVerifier.packetType packet2) -> TurnVerifier.enemy_hp enemy2 = 2 ->
      2 <= magnitude2 -> TurnVerifier.enemy_hp enemy2' = 0).
Proof.
  intros Ht Hp Hf Hc Hc2 _ _. cbv zeta.
  rewrite (client_enemy_target packet targetId state i enemy Ht Hp Hf Hc).
  rewrite (verifier_enemy_target enemy2 packet2 Hc2).
  rewrite effectiveValue_magnitude.
  destruct (findEnemy_lookup _ _ _ _ Hf) as [Hl _].
  pose proof (lookup_lt_Some _ _ _ Hl) as Hlt.
  unfold isDamage.
  split; [destruct (Client.packet_type packet); reflexivity|].
  split; [|split; [|split; [|split]]].
  - destruct (Client.packet_type packet) eqn:Hk; cbn [fst hpAfter];
      try (exists enemy; split; [exact Hl|]; split; [repeat split|];
           split; [reflexivity|]; split; intros [Hd|Hd]; discriminate Hd);
      (eexists; split; [apply list_lookup_insert_eq, Hlt|];
       split; [repeat split|]; cbn [Client.enemy_hp Client.set_enemy_hp];
       split; [reflexivity|]; split; intros; lia).
  - intros j Hj. destruct (Client.packet_type packet); cbn [fst]; try reflexivity;
      cbn [Client.enemies Client.set_enemies];
      apply list_lookup_insert_ne; congruence.
  - destruct (Client.packet_type packet); reflexivity.
  - destruct (Client.packet_type packet); reflexivity.
  - destruct (TurnVerifier.packetType packet2) eqn:Hk; cbn [hpAfter];
      try (split; [repeat split|]; split; [reflexivity|];
           split; intros [Hd|Hd]; discriminate Hd);
      (split; [repeat split|]; cbn [TurnVerifier.enemy_hp TurnVerifier.set_enemy_hp];
       split; [reflexivity|]; split; intros; lia).
Qed.

(** The overkill test of the resolver: a CRIT of 15 on an enemy at hp 2. *)
Lemma enemy_damage_floor_witness :
  (exists enemy',
     Client.enemies (Client.applyPacketEffect critPacket "enemy-0" woundedState).1 !! 0%nat
     = Some enemy'
     /\ Client.enemy_hp enemy' = 0)
  /\ TurnVerifier.enemy_hp
       (TurnVerifier.applyPacketToEnemy (verifierDrone 2) (verifierPacket 220)) = 0.
Proof.
  destruct (enemy_damage_floor woundedState critPacket "enemy-0" 0 woundedEnemy
              (verifierDrone 2) (verifierPacket 220))
    as (_ & (enemy' & Hl & _ & Hhp & _) & _ & _ & _ & _ & Hv & _).
  - discriminate.
  - discriminate.
  - reflexivity.
  - discriminate.
  - reflexivity.
  - simpl. lia.
  - simpl. lia.
  - split; [exists enemy'; split; [exact Hl|exact Hhp]|exact Hv].
Defined.

(** ** Damage packets on the player *)

(** The verifier returns the player as it was for every ATTACK or CRIT
    packet, whatever its value. *)
Lemma verifier_self_damage_ignored (player : TurnVerifier.Player)
    (packet2 : TurnVerifier.Packet) :
  isDamage (TurnVerifier.packetType packet2) ->
  TurnVerifier.applyPacketToPlayer player packet2 = TurnVerifier.Return player.
Proof.
  intros Hd. unfold TurnVerifier.applyPacketToPlayer.
  destruct Hd as [-> | ->]; reflexivity.
Qed.

(** C7: an ATTACK packet of value 5 (byte 100, COMMON, no anomaly)
    assigned to a player at hp 100 without shield.  The client's
    [applyPacketEffect] applies it by the shield-then-hp rule and leaves
    hp 95; the verifier's [applyPacketToPlayer] returns the player at hp
    100, where its own [applyDamageToPlayer] gives hp 95 for that
    damage. *)
Theorem self_damage_diverges :
  Client.packet_type testPacket = ATTACK
  /\ TurnVerifier.packetType (verifierPacket 100) = ATTACK
  /\ Client.packet_value testPacket = 5
  /\ TurnVerifier.value (verifierPacket 100) = 5
  /\ mirrorsPlayer (Client.player testState) (verifierPlayer 100 0)
  /\ (Client.applyPacketEffect testPacket "player" testState).2 = Ok tt
  /\ Client.hp (Client.player (Client.applyPacketEffect testPacket "player" testState).1)
     = 95
  /\ (exists player',
        TurnVerifier.applyPacketToPlayer (verifierPlayer 100 0) (verifierPacket 100)
        = TurnVerifier.Return player'
        /\ TurnVerifier.hp player' = 100)
  /\ TurnVerifier.hp
       (TurnVerifier.applyDamageToPlayer (verifierPlayer 100 0)
          (TurnVerifier.value (verifierPacket 100))) = 95.
Proof.
  split; [reflexivity|]. split; [reflexivity|]. split; [reflexivity|].
  split; [reflexivity|]. split; [repeat split|]. split; [reflexivity|].
  split; [reflexivity|]. split; [|reflexivity].
  exists (verifierPlayer 100 0). split; [|reflexivity].
  apply verifier_self_damage_ignored. left. reflexivity.
Qed.

(** ** Hand derivation, client against verifier *)

(** The two turn seeds of the zero seed at turn 1: the client hashes the
    seed with the five characters [Turn1], the verifier with [Turn] and
    the byte 1. *)
Lemma turn_seeds_zero_seed :
  Client.deriveTurnSeed zeroSeed 1
  = "0xb8c5ec1606c7ed97e5880505a916631f73513bfb657a0582dae55d488e31a713"%string
  /\ bytesToHex (TurnVerifier.deriveTurnSeed zeroSeed 1)
     = "0xb18647740a2821d03d843c2bbc3e7833e97c873ed63bbded2470b7e6e612d30e"%string.
Proof. split; vm_compute; reflexivity. Qed.

(** C1: with the all-zero seed at turn 1 both derivations give six
    packets, and the six differ: source byte, kind and magnitude. *)
Theorem hands_differ_zero_seed :
  mapR (fun h => map clientView (Client.packets h))
       (Client.derivePacketsFromSeed zeroSeed 1)
  = Ok [(184, DEFEND, 5); (236, CRIT, 15); (6, MISS, 0);
        (237, CRIT, 15); (229, CRIT, 15); (5, MISS, 0)]
  /\ map verifierView (TurnVerifier.deriveHand zeroSeed 1)
     = [(177, DEFEND, 5); (134, ATTACK, 5); (71, ATTACK, 5);
        (116, ATTACK, 5); (10, MISS, 0); (40, ATTACK, 5)]
  /\ mapR (fun h => map clientView (Client.packets h))
          (Client.derivePacketsFromSeed zeroSeed 1)
     <> Ok (map verifierView (TurnVerifier.deriveHand zeroSeed 1)).
Proof.
  split; [vm_compute; reflexivity|]. split; [vm_compute; reflexivity|].
  vm_compute. discriminate.
Qed.

(** What the two derivations share: the kind and the magnitude of a byte. *)
Lemma packet_of_byte_agree (b index rarityByte : Z) :
  0 <= b <= 255 ->
  mapR clientView (Client.mapByteToPacket b index rarityByte)
  = Ok (b, TurnVerifier.mapByteToPacketType b,
        TurnVerifier.getPacketValue (TurnVerifier.mapByteToPacketType b)).
Proof.
  intros Hb. unfold Client.mapByteToPacket.
  rewrite (mapByteToPacketType_agree b Hb). simpl.
  unfold clientView. simpl.
  destruct (TurnVerifier.mapByteToPacketType b); reflexivity.
Qed.

(** ** The digest and its hex form *)

Lemma round_length st rc : length (Keccak.round st rc) = 25%nat.
Proof.
  unfold Keccak.round, Keccak.iota.
  destruct (Keccak.chi _) as [|a rest] eqn:Hchi.
  - apply (f_equal length) in Hchi. unfold Keccak.chi in Hchi.
    rewrite length_map in Hchi. discriminate Hchi.
  - apply (f_equal length) in Hchi. unfold Keccak.chi in Hchi.
    rewrite length_map in Hchi. simpl in *. lia.
Qed.

Lemma rounds_length rcs st :
  length st = 25%nat -> length (fold_left Keccak.round rcs st) = 25%nat.
Proof.
  revert st. induction rcs as [|rc rcs IH]; intros st Hst; simpl; [exact Hst|].
  apply IH, round_length.
Qed.

Lemma keccak_f_length st : length (Keccak.keccak_f st) = 25%nat.
Proof.
  unfold Keccak.keccak_f, Keccak.round_constants.
  match goal with
  | |- context [fold_left _ (?rc :: ?rcs) ?s] =>
      change (fold_left Keccak.round (rc :: rcs) s)
        with (fold_left Keccak.round rcs (Keccak.round s rc))
  end.
  apply rounds_length, round_length.
Qed.

Lemma absorb_length n bs st :
  length st = 25%nat -> length (Keccak.absorb n bs st) = 25%nat.
Proof.
  revert bs st. induction n as [|n IH]; intros bs st Hst; simpl; [exact Hst|].
  apply IH, keccak_f_length.
Qed.

Lemma bytes_of_lane_bytes n l : Forall isByte (Keccak.bytes_of_lane n l).
Proof.
  revert l. induction n as [|n IH]; intros l; simpl; constructor; [|apply IH].
  unfold isByte. change (Z.land l 255) with (Z.land l (Z.ones 8)).
  rewrite Z.land_ones by lia. change (2 ^ 8) with 256.
  pose proof (Z.mod_pos_bound l 256). lia.
Qed.

Lemma bytes_of_lane_length n l : length (Keccak.bytes_of_lane n l) = n.
Proof. revert l. induction n as [|n IH]; intros l; simpl; [|rewrite IH]; reflexivity. Qed.

(** A digest is 32 bytes. *)
Lemma keccak256_shape msg :
  length (Keccak.keccak256 msg) = 32%nat /\ Forall isByte (Keccak.keccak256 msg).
Proof.
  unfold Keccak.keccak256.
  set (st := Keccak.absorb _ _ _).
  assert (Hst : length st = 25%nat).
  { apply absorb_length. reflexivity. }
  destruct st as [|a [|b [|c [|d st]]]]; simpl in Hst; try lia.
  cbn [firstn flat_map]. split.
  - rewrite !length_app, !bytes_of_lane_length. reflexivity.
  - repeat (apply Forall_app; split);
      first [apply bytes_of_lane_bytes | constructor].
Qed.

Lemma hexDigit_roundtrip d :
  0 <= d <= 15 ->
  Client.isHexDigit (hexDigit false d) = true
  /\ Client.hexDigitValue (hexDigit false d) = d.
Proof.
  intros Hd.
  assert (H : d = 0 \/ d = 1 \/ d = 2 \/ d = 3 \/ d = 4 \/ d = 5 \/ d = 6 \/ d = 7
              \/ d = 8 \/ d = 9 \/ d = 10 \/ d = 11 \/ d = 12 \/ d = 13
              \/ d = 14 \/ d = 15) by lia.
  repeat (destruct H as [-> | H]; [split; reflexivity|]).
  subst d. split; reflexivity.
Qed.

Lemma hexChars_facts bs :
  Forall isByte bs ->
  forallb Client.isHexDigit (hexChars bs) = true
  /\ Nat.even (length (hexChars bs)) = true
  /\ Client.parsePairs (hexChars bs) = bs.
Proof.
  induction 1 as [|b bs Hb _ (IH1 & IH2 & IH3)]; [repeat split|].
  unfold isByte in Hb.
  destruct (hexDigit_roundtrip (b / 16)) as [Hhi1 Hhi2].
  { split; [apply Z.div_pos; lia | apply Z.lt_succ_r, Z.div_lt_upper_bound; lia]. }
  destruct (hexDigit_roundtrip (b mod 16)) as [Hlo1 Hlo2].
  { pose proof (Z.mod_pos_bound b 16). lia. }
  change (hexChars (b :: bs))
    with (hexDigit false (b / 16) :: hexDigit false (b mod 16) :: hexChars bs).
  split; [|split].
  - simpl. rewrite Hhi1, Hlo1. exact IH1.
  - simpl. exact IH2.
  - simpl. rewrite Hhi2, Hlo2, IH3. f_equal.
    rewrite (Z.div_mod b 16) at 3 by lia. reflexivity.
Qed.

(** Reading back the hex string of a byte string gives the bytes. *)
Lemma hexToBytes_bytesToHex bs :
  Forall isByte bs -> Client.hexToBytes (bytesToHex bs) = Ok bs.
Proof.
  intros Hbs. destruct (hexChars_facts bs Hbs) as (H1 & H2 & H3).
  change (bytesToHex bs)
    with (String "0" (String "x" (fold_right (hexByte false) EmptyString bs))).
  unfold Client.hexToBytes. cbv beta iota zeta.
  change (String.list_ascii_of_string (fold_right (hexByte false) EmptyString bs))
    with (hexChars bs).
  rewrite H1, H2. simpl. rewrite H3. reflexivity.
Qed.

Lemma hexToBytes_deriveTurnSeed levelSeed turn :
  exists seedBytes,
    Client.hexToBytes (Client.deriveTurnSeed levelSeed turn) = Ok seedBytes
    /\ seedBytes = Keccak.keccak256
                     (levelSeed ++ encodeText (String.append "Turn" (decimal turn)))
    /\ length seedBytes = 32%nat /\ Forall isByte seedBytes.
Proof.
  eexists. split; [|split; [reflexivity|apply keccak256_shape]].
  unfold Client.deriveTurnSeed. apply hexToBytes_bytesToHex, keccak256_shape.
Qed.

Lemma mapM_R_map {A B} (f : A -> Result B) (g : A -> B) (l : list A) :
  (forall a, In a l -> f a = Ok (g a)) -> mapM_R f l = Ok (map g l).
Proof.
  induction l as [|a l IH]; intros Hf; simpl; [reflexivity|].
  rewrite (Hf a) by (left; reflexivity). simpl.
  rewrite IH by (intros a' Ha'; apply Hf; right; exact Ha'). reflexivity.
Qed.

Lemma nth_isByte (bs : list Z) (i : nat) : Forall isByte bs -> isByte (nth i bs 0).
Proof.
  intros Hbs. destruct (Nat.lt_ge_cases i (length bs)) as [Hlt|Hge].
  - rewrite Forall_forall in Hbs. apply Hbs, list_elem_of_In, nth_In, Hlt.
  - rewrite nth_overflow by exact Hge. unfold isByte. lia.
Qed.

(** The client's hand, for every seed and turn from 1: it exists, and
    packet [i] comes from byte [2 * i mod 32] of the digest of the seed
    followed by [Turn] and the decimal digits of the turn. *)
Lemma client_hand (levelSeed : list Z) (turn : Z) :
  1 <= turn ->
  exists hand,
    Client.derivePacketsFromSeed levelSeed turn = Ok hand
    /\ map clientView (Client.packets hand)
       = map (fun i =>
                packetOfByte
                  (nth (Z.to_nat ((2 * i) mod 32))
                       (Keccak.keccak256
                          (levelSeed ++ encodeText (String.append "Turn" (decimal turn))))
                       0))
             (indices (5 + turn mod 3)).
Proof.
  intros Hturn. unfold Client.derivePacketsFromSeed.
  rewrite client_calculatePacketCount_valid by exact Hturn. simpl bindR.
  destruct (hexToBytes_deriveTurnSeed levelSeed turn)
    as (seedBytes & -> & Hseed & Hlen & Hbytes).
  simpl bindR. rewrite <- Hseed. rewrite Hlen.
  set (mk := fun i : Z =>
               {| Client.packet_id := String.append "packet-" (decimal i);
                  Client.hexValue :=
                    String.append "0x"
                      (hexByte true (Client.at_index seedBytes (Z.rem (i * 2) 32))
                         EmptyString);
                  Client.byteValue := Client.at_index seedBytes (Z.rem (i * 2) 32);
                  Client.packet_type :=
                    TurnVerifier.mapByteToPacketType
                      (Client.at_index seedBytes (Z.rem (i * 2) 32));
                  Client.packet_rarity :=
                    if Client.at_index seedBytes (Z.rem (i * 2 + 1) 32) >? 240
                    then LEGENDARY
                    else if Client.at_index seedBytes (Z.rem (i * 2 + 1) 32) >? 200
                         then RARE else COMMON;
                  Client.packet_value :=
                    Client.PACKET_VALUES
                      (TurnVerifier.mapByteToPacketType
                         (Client.at_index seedBytes (Z.rem (i * 2) 32))) |}).
  rewrite (mapM_R_map _ mk).
  - eexists. split; [reflexivity|]. simpl Client.packets.
    rewrite map_map. apply map_ext_in. intros i Hi.
    unfold indices in Hi. apply in_map_iff in Hi as (n & <- & _).
    unfold mk, clientView, packetOfByte, Client.at_index. simpl.
    rewrite Z.rem_mod_nonneg by lia.
    replace (Z.of_nat n * 2) with (2 * Z.of_nat n) by lia.
    destruct (TurnVerifier.mapByteToPacketType _); reflexivity.
  - intros i _. cbv beta zeta. unfold Client.mapByteToPacket.
    change (Z.of_nat 32) with 32.
    rewrite mapByteToPacketType_agree by (apply nth_isByte, Hbytes).
    reflexivity.
Qed.

(** The verifier's hand: packet [i] comes from byte [i mod 32] of the
    digest of the seed followed by [Turn] and the turn as one byte. *)
Lemma verifier_hand (levelSeed : list Z) (turn : Z) :
  map verifierView (TurnVerifier.deriveHand levelSeed turn)
  = map (fun i =>
           packetOfByte
             (nth (Z.to_nat (i mod 32))
                  (Keccak.keccak256 (levelSeed ++ encodeText "Turn" ++ [turn])) 0))
        (indices (5 + turn mod 3)).
Proof.
  unfold TurnVerifier.deriveHand, TurnVerifier.calculatePacketCount, indices.
  rewrite map_map. reflexivity.
Qed.

(** Hand size, for every seed and turn from 1: both hands have
    [5 + turn mod 3] packets. *)
Lemma hand_sizes (levelSeed : list Z) (turn : Z) :
  1 <= turn ->
  exists hand,
    Client.derivePacketsFromSeed levelSeed turn = Ok hand
    /\ Z.of_nat (length (Client.packets hand)) = 5 + turn mod 3
    /\ Z.of_nat (length (TurnVerifier.deriveHand levelSeed turn)) = 5 + turn mod 3.
Proof.
  intros Hturn. destruct (client_hand levelSeed turn Hturn) as (hand & Hhand & Hview).
  exists hand. split; [exact Hhand|].
  apply (f_equal length) in Hview. pose proof (verifier_hand levelSeed turn) as Hv.
  apply (f_equal length) in Hv. unfold indices in *.
  rewrite !length_map, length_seq in Hview, Hv.
  pose proof (Z.mod_pos_bound turn 3). lia.
Qed.

(** ** Enemy phase after a decided turn *)

(** C6: in the client, after the packets and the removal of dead enemies
    the player of [lostState] is at hp 0 with shield 5 and the result is
    DEFEAT; [resolveTurn] still runs the enemy phase, and the returned
    state has shield 0. *)
Theorem client_enemy_phase_after_defeat :
  exists mid final,
    Client.playerPhase lostState lostAssignments (Client.cloneState lostState)
    = (mid, Ok tt)
    /\ Client.checkTurnResult mid = DEFEAT
    /\ Client.player mid = testPlayer 0 5
    /\ Client.resolveTurn lostState lostAssignments = Ok final
    /\ Client.player final = testPlayer 0 0.
Proof.
  eexists _, _. split; [vm_compute; reflexivity|].
  split; [reflexivity|]. split; [reflexivity|].
  split; [vm_compute; reflexivity|]. reflexivity.
Qed.

(** ** The enemy phase on a decided turn: where nothing is applied *)

(** Client, VICTORY: no enemy is alive, so the enemy phase changes nothing. *)
Lemma client_enemy_phase_victory (s : Client.GameState) :
  Client.checkTurnResult s = VICTORY -> Client.executeEnemyPhase s = s.
Proof.
  unfold Client.checkTurnResult, Client.executeEnemyPhase.
  destruct (Client.hp (Client.player s) <=? 0); [discriminate|].
  destruct ((length (Client.enemies s) =? 0)%nat
            || forallb (fun e => Client.enemy_hp e <=? 0) (Client.enemies s))
    eqn:Hdead; [|discriminate].
  intros _.
  assert (Hnone : filter (fun e => Client.enemy_hp e > 0) (Client.enemies s) = []).
  { apply orb_true_iff in Hdead as [Hlen|Hall].
    - destruct (Client.enemies s); [reflexivity|discriminate].
    - induction (Client.enemies s) as [|e es IH]; [reflexivity|].
      simpl in Hall. apply andb_true_iff in Hall as [He Hes].
      rewrite filter_cons. apply Z.leb_le in He.
      destruct (decide (Client.enemy_hp e > 0)); [lia|]. apply IH, Hes. }
  rewrite Hnone. reflexivity.
Qed.

(** Verifier: when the result after the assignments is not CONTINUE, the
    player returned is the player after the assignments. *)
Lemma verifier_enemy_phase_gated (levelSeed : list Z)
    (initialPlayer : TurnVerifier.Player) (initialEnemies : list TurnVerifier.Enemy)
    (turn : Z) (assignments : list TurnVerifier.Assignment) (initialScore : Z)
    (player1 : TurnVerifier.Player) (enemies1 : list TurnVerifier.Enemy)
    (result1 : TurnResult) out :
  TurnVerifier.applyAssignments (TurnVerifier.deriveHand levelSeed turn)
    (initialPlayer, initialEnemies) assignments
  = TurnVerifier.Return (player1, enemies1) ->
  TurnVerifier.checkTurnResult player1 enemies1 = TurnVerifier.Return result1 ->
  result1 <> CONTINUE ->
  TurnVerifier.resolveTurn levelSeed initialPlayer initialEnemies turn assignments
    initialScore = TurnVerifier.Return out ->
  exists newScore, out = (player1, enemies1, result1, newScore).
Proof.
  intros Happly Hcheck Hne. unfold TurnVerifier.resolveTurn.
  destruct (negb _); [discriminate|].
  destruct (negb _); [discriminate|].
  rewrite Happly. simpl.
  destruct (TurnVerifier.awardKills enemies1 enemies1 initialScore) as [sc|];
    simpl; [|discriminate].
  rewrite Hcheck. simpl.
  destruct (decide (result1 = CONTINUE)); [contradiction|]. simpl.
  destruct (decide (result1 = VICTORY)); simpl.
  - destruct (TurnVerifier.add_checked 32 sc 500) as [sc'|]; simpl; [|discriminate].
    destruct (TurnVerifier.hp player1 =? TurnVerifier.maxHp player1).
    + destruct (TurnVerifier.add_checked 32 sc' 200) as [sc''|]; simpl;
        [|discriminate].
      intros [= <-]. eexists. reflexivity.
    + simpl. intros [= <-]. eexists. reflexivity.
  - intros [= <-]. eexists. reflexivity.
Qed.

(** ** Validation of the assignments *)

Lemma validTarget_known (state : Client.GameState) (t : string) :
  String.eqb t "player" || String.eqb t "trash"
  || existsb (fun e => String.eqb (Client.enemy_id e) t) (Client.enemies state) = true
  -> knownTarget state t.
Proof.
  unfold knownTarget. rewrite !orb_true_iff, existsb_exists.
  intros [[H|H]|[e [He H]]].
  - left. apply String.eqb_eq, H.
  - right; left. apply String.eqb_eq, H.
  - right; right. exists e. split; [exact He | apply String.eqb_eq, H].
Qed.

(** What a successful run of the validation loop establishes. *)
Lemma validateLoop_Ok (state : Client.GameState) (packetIds acc acc' : gset string)
    (assignments : list Client.Assignment) :
  Client.validateLoop packetIds (Client.enemies state) acc assignments = Ok acc' ->
  acc' = acc ∪ list_to_set (map Client.packetId assignments)
  /\ (forall a, In a assignments ->
        Client.packetId a ∈ packetIds /\ (Client.packetId a ∉ acc)
        /\ knownTarget state (Client.targetId a))
  /\ NoDup (map Client.packetId assignments).
Proof.
  revert acc. induction assignments as [|a rest IH]; intros acc; simpl.
  - intros [= <-]. split; [set_solver|]. split; [intros ? []|constructor].
  - destruct (bool_decide (Client.packetId a ∈ packetIds)) eqn:Hin;
      simpl; [|discriminate].
    destruct (bool_decide (Client.packetId a ∈ acc)) eqn:Hacc; [discriminate|].
    match goal with
    | |- context [negb ?b] => destruct b eqn:Hvalid; simpl; [|discriminate]
    end.
    apply bool_decide_eq_true in Hin. apply bool_decide_eq_false in Hacc.
    intros Hrest. destruct (IH _ Hrest) as (-> & Hall & Hnd).
    split; [set_solver|]. split.
    + intros a' [<-|Ha'].
      * split; [exact Hin|]. split; [exact Hacc|].
        apply validTarget_known, Hvalid.
      * destruct (Hall a' Ha') as (H1 & H2 & H3).
        split; [exact H1|]. split; [set_solver|exact H3].
    + constructor; [|exact Hnd].
      intros Hdup. apply list_elem_of_In, in_map_iff in Hdup as (a' & Heq & Ha').
      destruct (Hall a' Ha') as (_ & H2 & _). rewrite Heq in H2. set_solver.
Qed.

Lemma validateAssignments_Ok (state : Client.GameState)
    (assignments : list Client.Assignment) :
  Client.validateAssignments state assignments = Ok tt ->
  ~ invalidAssignments state assignments.
Proof.
  unfold Client.validateAssignments.
  destruct (Client.validateLoop _ _ ∅ assignments) as [assigned|] eqn:Hloop;
    simpl; [|discriminate].
  destruct (Nat.eqb_spec (size assigned)
              (size (list_to_set (map Client.packet_id (Client.dataStream state))
                     : gset string))) as [Hsize|]; simpl; [|discriminate].
  intros _. apply validateLoop_Ok in Hloop as (-> & Hall & Hnd).
  assert (Hsub : (∅ ∪ list_to_set (map Client.packetId assignments) : gset string)
                 ⊆ list_to_set (map Client.packet_id (Client.dataStream state))).
  { intros x Hx. apply elem_of_union in Hx as [Hx|Hx]; [set_solver|].
    apply elem_of_list_to_set, list_elem_of_In, in_map_iff in Hx
      as (a & <- & Ha). apply Hall, Ha. }
  apply set_subseteq_size_eq in Hsub; [|lia].
  intros [(p & Hp & Hnot) | [Htwice | (a & Ha & Hunknown)]].
  - apply Hnot. apply list_elem_of_In.
    apply (elem_of_list_to_set (C:=gset string)).
    assert (Hin : Client.packet_id p
                  ∈ (list_to_set (map Client.packet_id (Client.dataStream state))
                     : gset string)).
    { apply elem_of_list_to_set, list_elem_of_In, in_map, Hp. }
    rewrite <- Hsub in Hin. set_solver.
  - apply Htwice, Hnd.
  - apply Hunknown, Hall, Ha.
Qed.

Lemma validateAssignments_invalid (state : Client.GameState)
    (assignments : list Client.Assignment) :
  invalidAssignments state assignments ->
  exists e, Client.validateAssignments state assignments = Throw e.
Proof.
  intros Hinv.
  destruct (Client.validateAssignments state assignments) as [[]|e] eqn:Hv.
  - exfalso. exact (validateAssignments_Ok _ _ Hv Hinv).
  - exists e. reflexivity.
Qed.

(** The start-of-turn effects leave the hand and the enemies as they are,
    so validating the clone after them is validating the input. *)
Lemma validateAssignments_after_start (state : Client.GameState)
    (assignments : list Client.Assignment) :
  Client.validateAssignments
    (Client.startOfTurnAnomaly (Client.startOfTurnJackpot state)) assignments
  = Client.validateAssignments state assignments.
Proof.
  unfold Client.startOfTurnAnomaly, Client.startOfTurnJackpot.
  destruct (Client.jackpotHit state); simpl;
    match goal with |- context [decide ?P] => destruct (decide P) end;
    reflexivity.
Qed.

Lemma resolveTurnOn_invalid (current state : Client.GameState)
    (assignments : list Client.Assignment) (e : Error) :
  Client.validateAssignments state assignments = Throw e ->
  Client.resolveTurnOn current assignments state
  = (Client.startOfTurnAnomaly (Client.startOfTurnJackpot state), Throw e).
Proof.
  intros Hv. rewrite <- validateAssignments_after_start in Hv.
  unfold Client.resolveTurnOn, Client.playerPhase, mbind, Client.M_bind,
    Client.bind, Client.mutate, Client.liftR.
  rewrite Hv. reflexivity.
Qed.

(** The call leaves every object that was in the store as it was: the
    writes go to the fresh clone. *)
Lemma resolveTurnRef_frame (store store' : gmap nat Client.GameState) (r : nat)
    (assignments : list Client.Assignment) (res : Result nat) :
  Client.resolveTurnRef r assignments store = Some (store', res) ->
  forall r', r' ∈ dom store -> store' !! r' = store !! r'.
Proof.
  unfold Client.resolveTurnRef. destruct (store !! r) as [current|]; [|discriminate].
  destruct (Client.resolveTurnOn current assignments (Client.cloneState current))
    as [final res0].
  intros [= <- _] r' Hr'. apply lookup_insert_ne.
  intros Heq. rewrite <- Heq in Hr'. exact (is_fresh (dom store) Hr').
Qed.

(** C4: when the assignments leave a hand packet out, assign a packet
    twice or name a target that is not the player, the trash or an enemy
    of the state, [resolveTurn] throws the error of [validateAssignments]
    and returns no state; on a store of objects the call returns that
    error, and every object already in the store, the input state among
    them, is as before. *)
Theorem invalid_assignments_rejected (store : gmap nat Client.GameState) (r : nat)
    (state : Client.GameState) (assignments : list Client.Assignment) :
  store !! r = Some state ->
  invalidAssignments state assignments ->
  exists e store',
    Client.validateAssignments state assignments = Throw e
    /\ Client.resolveTurn state assignments = Throw e
    /\ Client.resolveTurnRef r assignments store = Some (store', Throw e)
    /\ store' !! r = Some state
    /\ forall r', r' ∈ dom store -> store' !! r' = store !! r'.
Proof.
  intros Hr Hinv.
  destruct (validateAssignments_invalid _ _ Hinv) as [e He].
  pose proof (resolveTurnOn_invalid state (Client.cloneState state) assignments e He)
    as Hon.
  assert (Href : Client.resolveTurnRef r assignments store
                 = Some (<[fresh (dom store) :=
                             Client.startOfTurnAnomaly
                               (Client.startOfTurnJackpot (Client.cloneState state))]>
                           store, Throw e)).
  { unfold Client.resolveTurnRef. rewrite Hr, Hon. reflexivity. }
  exists e. eexists. split; [exact He|]. split; [|split; [exact Href|]].
  - unfold Client.resolveTurn. rewrite Hon. reflexivity.
  - split.
    + rewrite <- Hr. apply (resolveTurnRef_frame _ _ _ _ _ Href).
      apply elem_of_dom. rewrite Hr. eauto.
    + apply (resolveTurnRef_frame _ _ _ _ _ Href).
Qed.

(** No assignment at all for the one packet of the fixture. *)
Lemma invalid_assignments_rejected_witness :
  exists e store',
    Client.validateAssignments testState [] = Throw e
    /\ Client.resolveTurn testState [] = Throw e
    /\ Client.resolveTurnRef 0 [] {[ 0%nat := testState ]} = Some (store', Throw e)
    /\ store' !! 0%nat = Some testState
    /\ forall r', r' ∈ dom ({[ 0%nat := testState ]} : gmap nat Client.GameState) ->
                  store' !! r' = ({[ 0%nat := testState ]} : gmap nat _) !! r'.
Proof.
  apply (invalid_assignments_rejected {[ 0%nat := testState ]} 0%nat testState []).
  - reflexivity.
  - left. exists testPacket. split; [left; reflexivity | simpl; tauto].
Defined.

(** ** After a successful validation nothing throws *)

Lemma applyDamageToPlayer_frame d s : sameHandAndIds s (Client.applyDamageToPlayer d s).
Proof.
  unfold Client.applyDamageToPlayer.
  destruct (Client.shield (Client.player s) >? 0); simpl;
    match goal with |- context [if ?b then _ else _] => destruct b end;
    split; reflexivity.
Qed.

Lemma map_id_insert (es : list Client.Enemy) i enemy h :
  es !! i = Some enemy ->
  map Client.enemy_id (<[i := Client.set_enemy_hp enemy h]> es)
  = map Client.enemy_id es.
Proof.
  intros Hl. change (map Client.enemy_id) with (fmap (M:=list) Client.enemy_id).
  rewrite list_fmap_insert. apply list_insert_id.
  rewrite list_lookup_fmap, Hl. reflexivity.
Qed.

Lemma applyPacketEffect_frame packet targetId s :
  sameHandAndIds s (Client.applyPacketEffect packet targetId s).1.
Proof.
  unfold Client.applyPacketEffect.
  destruct (String.eqb targetId "trash"); [split; reflexivity|].
  destruct (String.eqb targetId "player").
  - destruct (Client.packet_type packet); simpl;
      first [apply applyDamageToPlayer_frame | split; reflexivity].
  - destruct (Client.findEnemy targetId (Client.enemies s)) as [[i enemy]|] eqn:Hf;
      [|split; reflexivity].
    apply findEnemy_lookup in Hf as [Hl _].
    destruct (String.eqb (Client.enemy_type enemy) "CACHE_GOLD");
      destruct (Client.packet_type packet); simpl;
      first [split; reflexivity
            | split; [reflexivity | apply map_id_insert, Hl]].
Qed.

Lemma findEnemy_None targetId es :
  Client.findEnemy targetId es = None -> ~ In targetId (map Client.enemy_id es).
Proof.
  induction es as [|e es IH]; simpl; [tauto|].
  destruct (String.eqb_spec (Client.enemy_id e) targetId) as [|Hne]; [discriminate|].
  destruct (Client.findEnemy targetId es) as [[j e']|]; simpl; [discriminate|].
  intros _ [Heq|Hin]; [exact (Hne Heq) | exact (IH eq_refl Hin)].
Qed.

Lemma knownTarget_byId s t : knownTarget s t <-> targetById s t.
Proof.
  unfold knownTarget, targetById. rewrite in_map_iff.
  split; (intros [H|[H|(e & H1 & H2)]]; [left; exact H | right; left; exact H |]);
    right; right; exists e; tauto.
Qed.

Lemma applyPacketEffect_ok packet targetId s :
  targetById s targetId ->
  (Client.applyPacketEffect packet targetId s).2 = Ok tt.
Proof.
  intros Ht. unfold Client.applyPacketEffect.
  destruct (String.eqb_spec targetId "trash") as [|Hnt]; [reflexivity|].
  destruct (String.eqb_spec targetId "player") as [|Hnp].
  - destruct (Client.packet_type packet); reflexivity.
  - destruct (Client.findEnemy targetId (Client.enemies s)) as [[i enemy]|] eqn:Hf.
    + destruct (String.eqb (Client.enemy_type enemy) "CACHE_GOLD");
        destruct (Client.packet_type packet); reflexivity.
    + exfalso. destruct Ht as [Ht|[Ht|Ht]]; [exact (Hnp Ht) | exact (Hnt Ht) |].
      exact (findEnemy_None _ _ Hf Ht).
Qed.

Lemma find_packet (ds : list Client.Packet) (pid : string) :
  In pid (map Client.packet_id ds) ->
  exists p, find (fun p => String.eqb (Client.packet_id p) pid) ds = Some p.
Proof.
  intros Hin. apply in_map_iff in Hin as (p & Hid & Hp).
  destruct (find _ ds) as [q|] eqn:Hfind; [exists q; reflexivity|].
  exfalso. apply (find_none _ _ Hfind) in Hp. simpl in Hp.
  apply String.eqb_neq in Hp. exact (Hp Hid).
Qed.

Lemma forEach_applyAssignment_ok (assignments : list Client.Assignment) s :
  (forall a, In a assignments ->
     In (Client.packetId a) (map Client.packet_id (Client.dataStream s))
     /\ targetById s (Client.targetId a)) ->
  (Client.forEach Client.applyAssignment assignments s).2 = Ok tt.
Proof.
  revert s. induction assignments as [|a rest IH]; intros s Hall; [reflexivity|].
  simpl. unfold mbind, Client.M_bind, Client.bind.
  destruct (Hall a (or_introl eq_refl)) as [Hp Ht].
  destruct (find_packet _ _ Hp) as [packet Hfind].
  unfold Client.applyAssignment at 1. rewrite Hfind.
  pose proof (applyPacketEffect_ok packet _ s Ht) as Hok.
  pose proof (applyPacketEffect_frame packet (Client.targetId a) s) as [Hds Hids].
  destruct (Client.applyPacketEffect packet (Client.targetId a) s) as [s' r].
  simpl in *. subst r. apply IH. intros a' Ha'.
  destruct (Hall a' (or_intror Ha')) as [Hp' Ht'].
  unfold targetById. rewrite Hds, Hids. split; assumption.
Qed.

(** [resolveTurn] throws exactly when [validateAssignments] does, and
    then that error: once the validation has passed, the resolution runs
    to its end. *)
Lemma resolveTurn_all_or_nothing (state : Client.GameState)
    (assignments : list Client.Assignment) :
  match Client.validateAssignments state assignments with
  | Ok _ => exists next, Client.resolveTurn state assignments = Ok next
  | Throw e => Client.resolveTurn state assignments = Throw e
  end.
Proof.
  destruct (Client.validateAssignments state assignments) as [[]|e] eqn:Hv.
  - pose proof Hv as Hv'. rewrite <- validateAssignments_after_start in Hv'.
    set (s1 := Client.startOfTurnAnomaly (Client.startOfTurnJackpot state)) in *.
    assert (Hok : (Client.forEach Client.applyAssignment assignments s1).2 = Ok tt).
    { apply forEach_applyAssignment_ok. intros a Ha.
      unfold Client.validateAssignments in Hv'.
      destruct (Client.validateLoop _ _ ∅ assignments) as [assigned|] eqn:Hloop;
        [|discriminate].
      apply validateLoop_Ok in Hloop as (_ & Hall & _).
      destruct (Hall a Ha) as (Hin & _ & Hknown). split.
      - apply elem_of_list_to_set, list_elem_of_In in Hin. exact Hin.
      - apply knownTarget_byId, Hknown. }
    unfold Client.resolveTurn, Client.cloneState, Client.resolveTurnOn,
      Client.playerPhase, mbind, Client.M_bind, Client.bind, Client.mutate,
      Client.liftR.
    fold s1. rewrite Hv'.
    destruct (Client.forEach Client.applyAssignment assignments s1) as [s2 r].
    simpl in Hok. subst r. eexists. reflexivity.
  - unfold Client.resolveTurn.
    rewrite (resolveTurnOn_invalid state (Client.cloneState state) assignments e Hv).
    reflexivity.
Qed.

(** ** The jackpot bonus *)

Lemma equivariant_mutate f : commutes f -> equivariant (Client.mutate f).
Proof. intros Hf k flag s. unfold Client.mutate. simpl. rewrite Hf. reflexivity. Qed.

Lemma equivariant_liftR {A} (r : Client.GameState -> Result A) :
  (forall k flag s, r (adjust k flag s) = r s) -> equivariant (Client.liftR r).
Proof. intros Hr k flag s. unfold Client.liftR. simpl. rewrite Hr. reflexivity. Qed.

Lemma equivariant_bind {A B} (m : Client.M A) (f : A -> Client.M B) :
  equivariant m -> (forall a, equivariant (f a)) -> equivariant (m ≫= f).
Proof.
  intros Hm Hf k flag s. unfold mbind, Client.M_bind, Client.bind.
  rewrite Hm. destruct (m s) as [s' [a|e]]; simpl; [apply Hf|reflexivity].
Qed.

Lemma equivariant_forEach {A} (f : A -> Client.M unit) (l : list A) :
  (forall a, equivariant (f a)) -> equivariant (Client.forEach f l).
Proof.
  intros Hf. induction l as [|a l IH]; simpl.
  - intros k flag s. reflexivity.
  - apply equivariant_bind; [apply Hf | intros _; exact IH].
Qed.

Lemma commutes_applyDamageToPlayer d : commutes (Client.applyDamageToPlayer d).
Proof.
  intros k flag [? ? ? ? ? [h mh sh pos] ? ? ? ? ? ?].
  unfold Client.applyDamageToPlayer, adjust, shiftScore. simpl.
  destruct (sh >? 0); simpl;
    match goal with |- context [if ?b then _ else _] => destruct b end;
    reflexivity.
Qed.

Lemma commutes_startOfTurnAnomaly : commutes Client.startOfTurnAnomaly.
Proof.
  intros k flag s. unfold Client.startOfTurnAnomaly. simpl.
  destruct (decide (Client.anomaly s = DATA_LEAK)); reflexivity.
Qed.

Lemma commutes_removeDeadEnemies : commutes Client.removeDeadEnemies.
Proof. intros k flag s. reflexivity. Qed.

Lemma commutes_executeEnemyPhase : commutes Client.executeEnemyPhase.
Proof.
  intros k flag s. unfold Client.executeEnemyPhase.
  change (Client.enemies (adjust k flag s)) with (Client.enemies s).
  generalize (filter (fun e => Client.enemy_hp e > 0) (Client.enemies s)).
  intros l. revert s. induction l as [|e l IH]; intros s; simpl; [reflexivity|].
  destruct (Client.intent e); try apply IH.
  rewrite commutes_applyDamageToPlayer. apply IH.
Qed.

Lemma commutes_endOfTurnAnomaly : commutes Client.endOfTurnAnomaly.
Proof.
  intros k flag s. unfold Client.endOfTurnAnomaly.
  change (Client.anomaly (adjust k flag s)) with (Client.anomaly s).
  destruct (decide (Client.anomaly s = ION_STORM)); [|reflexivity].
  rewrite commutes_applyDamageToPlayer. reflexivity.
Qed.

Lemma commutes_finishTurn : commutes Client.finishTurn.
Proof.
  intros k flag s. unfold Client.finishTurn, Client.checkTurnResult. simpl.
  destruct (Client.hp (Client.player s) <=? 0); [reflexivity|].
  destruct ((length (Client.enemies s) =? 0)%nat
            || forallb (fun e => Client.enemy_hp e <=? 0) (Client.enemies s));
    [|reflexivity].
  simpl. destruct (Client.hp (Client.player s) =? Client.maxHp (Client.player s));
    unfold adjust, shiftScore, Client.set_jackpotHit, Client.set_score; simpl;
    f_equal; lia.
Qed.

Lemma commutes_scoreKills current :
  commutes (fun nextState =>
              fold_left (Client.scoreKill current) (Client.enemies nextState) nextState).
Proof.
  intros k flag s. change (Client.enemies (adjust k flag s)) with (Client.enemies s).
  generalize (Client.enemies s). intros l. revert s.
  induction l as [|e l IH]; intros s; simpl; [reflexivity|].
  rewrite <- IH. f_equal. unfold Client.scoreKill.
  destruct (Client.findEnemy (Client.enemy_id e) (Client.enemies current))
    as [[i original]|]; [|reflexivity].
  destruct ((Client.enemy_hp original >? 0) && (Client.enemy_hp e <=? 0));
    [|reflexivity].
  destruct (String.eqb (Client.enemy_type e) "CACHE_GOLD");
    unfold adjust, shiftScore, Client.set_jackpotHit, Client.set_score; simpl;
    f_equal; lia.
Qed.

Lemma equivariant_applyPacketEffect packet targetId :
  equivariant (Client.applyPacketEffect packet targetId).
Proof.
  intros k flag s. unfold Client.applyPacketEffect.
  change (Client.anomaly (adjust k flag s)) with (Client.anomaly s).
  change (Client.enemies (adjust k flag s)) with (Client.enemies s).
  destruct (String.eqb targetId "trash"); [reflexivity|].
  destruct (String.eqb targetId "player").
  - destruct (Client.packet_type packet); simpl; try reflexivity;
      rewrite commutes_applyDamageToPlayer; reflexivity.
  - destruct (Client.findEnemy targetId (Client.enemies s)) as [[i enemy]|];
      [|reflexivity].
    destruct (String.eqb (Client.enemy_type enemy) "CACHE_GOLD");
      destruct (Client.packet_type packet); reflexivity.
Qed.

Lemma equivariant_applyAssignment a : equivariant (Client.applyAssignment a).
Proof.
  intros k flag s. unfold Client.applyAssignment.
  change (Client.dataStream (adjust k flag s)) with (Client.dataStream s).
  destruct (find _ (Client.dataStream s)); [|reflexivity].
  apply equivariant_applyPacketEffect.
Qed.

Lemma validateAssignments_adjust k flag (s : Client.GameState)
    (assignments : list Client.Assignment) :
  Client.validateAssignments (adjust k flag s) assignments
  = Client.validateAssignments s assignments.
Proof. reflexivity. Qed.

Lemma resolveTurnOn_steps current assignments (s : Client.GameState) :
  Client.resolveTurnOn current assignments s
  = afterJackpot current assignments (Client.startOfTurnJackpot s).
Proof. reflexivity. Qed.

Lemma equivariant_afterJackpot current assignments :
  equivariant (afterJackpot current assignments).
Proof.
  unfold afterJackpot.
  repeat first
    [ apply equivariant_bind; [|intros _]
    | apply equivariant_mutate
    | apply equivariant_forEach; intros ?; apply equivariant_applyAssignment
    | apply equivariant_liftR; intros; apply validateAssignments_adjust
    | apply commutes_startOfTurnAnomaly
    | apply commutes_scoreKills
    | apply commutes_removeDeadEnemies
    | apply commutes_executeEnemyPhase
    | apply commutes_endOfTurnAnomaly
    | apply commutes_finishTurn ].
Qed.

Lemma startOfTurnJackpot_clears (s : Client.GameState) :
  Client.startOfTurnJackpot s = adjust 0 (Some false) (Client.startOfTurnJackpot s).
Proof.
  destruct s as [? ? ? ? ? ? ? ? ? sc ? []];
    unfold Client.startOfTurnJackpot, adjust, shiftScore, Client.set_jackpotHit,
      Client.set_score; simpl; f_equal; lia.
Qed.

Lemma resolveTurnOn_flag current assignments (s : Client.GameState) :
  Client.jackpotHit (Client.resolveTurnOn current assignments s).1 = false.
Proof.
  rewrite resolveTurnOn_steps, startOfTurnJackpot_clears,
    equivariant_afterJackpot. reflexivity.
Qed.

Lemma resolveTurnOn_jackpot current assignments (s : Client.GameState) :
  Client.resolveTurnOn current assignments (Client.set_jackpotHit s true)
  = (shiftScore 5000
       (Client.resolveTurnOn current assignments (Client.set_jackpotHit s false)).1,
     (Client.resolveTurnOn current assignments (Client.set_jackpotHit s false)).2).
Proof.
  rewrite !resolveTurnOn_steps.
  change (Client.startOfTurnJackpot (Client.set_jackpotHit s true))
    with (adjust 5000 None (Client.set_jackpotHit s false)).
  change (Client.startOfTurnJackpot (Client.set_jackpotHit s false))
    with (Client.set_jackpotHit s false).
  rewrite equivariant_afterJackpot. reflexivity.
Qed.

Lemma resolveTurn_jackpot_shift (state : Client.GameState)
    (assignments : list Client.Assignment) :
  Client.resolveTurn (Client.set_jackpotHit state true) assignments
  = mapR (shiftScore 5000)
         (Client.resolveTurn (Client.set_jackpotHit state false) assignments).
Proof.
  unfold Client.resolveTurn, Client.cloneState.
  change (Client.resolveTurnOn (Client.set_jackpotHit state true))
    with (Client.resolveTurnOn (Client.set_jackpotHit state false)).
  rewrite resolveTurnOn_jackpot.
  destruct (Client.resolveTurnOn (Client.set_jackpotHit state false) assignments
              (Client.set_jackpotHit state false)) as [s' [[]|e]]; reflexivity.
Qed.

Lemma resolveTurn_clears_flag (state next : Client.GameState)
    (assignments : list Client.Assignment) :
  Client.resolveTurn state assignments = Ok next -> Client.jackpotHit next = false.
Proof.
  unfold Client.resolveTurn.
  pose proof (resolveTurnOn_flag state assignments (Client.cloneState state)) as Hf.
  destruct (Client.resolveTurnOn state assignments (Client.cloneState state))
    as [s' [[]|e]]; [|discriminate].
  intros [= <-]. exact Hf.
Qed.

Lemma scoreAndFlagApart_eq (s s' : Client.GameState) :
  scoreAndFlagApart s s' -> Client.score s' = Client.score s ->
  s' = Client.set_jackpotHit s (Client.jackpotHit s').
Proof.
  intros (H1 & H2 & H3 & H4 & H5 & H6 & H7 & H8 & H9 & H10) Hsc.
  destruct s, s'. simpl in *. subst. reflexivity.
Qed.

(** C10: take a state with [jackpotHit] set, a score from which the
    awards of a resolution are exact, and the state that differs from
    it only in that the flag is cleared.  The first step of
    [resolveTurn] adds exactly 5000 to the score of the first, clears
    its flag and changes nothing else, and leaves the second as it is.
    [resolveTurn] throws on the one exactly when it throws on the other,
    with the same error; and what it returns for the first is what it
    returns for the second with exactly 5000 more points, both with the
    flag cleared. *)
Theorem jackpot_bonus_once (state plain : Client.GameState)
    (assignments : list Client.Assignment) :
  Client.jackpotHit state = true -> Client.jackpotHit plain = false ->
  scoreAndFlagApart plain state -> Client.score state = Client.score plain ->
  exactScore state ->
  (Client.score (Client.startOfTurnJackpot state) = Client.score state + 5000
   /\ Client.jackpotHit (Client.startOfTurnJackpot state) = false
   /\ scoreAndFlagApart state (Client.startOfTurnJackpot state)
   /\ Client.startOfTurnJackpot plain = plain)
  /\ (forall e, Client.resolveTurn state assignments = Throw e
                <-> Client.resolveTurn plain assignments = Throw e)
  /\ (forall next, Client.resolveTurn state assignments = Ok next ->
        exists next0,
          Client.resolveTurn plain assignments = Ok next0
          /\ Client.score next = Client.score next0 + 5000
          /\ scoreAndFlagApart next0 next
          /\ Client.jackpotHit next = false /\ Client.jackpotHit next0 = false)
  /\ (forall next0, Client.resolveTurn plain assignments = Ok next0 ->
        exists next,
          Client.resolveTurn state assignments = Ok next
          /\ Client.score next = Client.score next0 + 5000).
Proof.
  intros Hflag Hplain Hapart Hscore _.
  pose proof (scoreAndFlagApart_eq plain state Hapart Hscore) as Hstate.
  rewrite Hflag in Hstate.
  assert (Hp : plain = Client.set_jackpotHit plain false).
  { destruct plain. simpl in Hplain. subst. reflexivity. }
  pose proof (resolveTurn_jackpot_shift plain assignments) as Hshift.
  rewrite <- Hstate, <- Hp in Hshift.
  split; [|split; [|split]].
  - unfold Client.startOfTurnJackpot. rewrite Hflag, Hplain.
    split; [reflexivity|]. split; [reflexivity|]. split; [repeat split|reflexivity].
  - intros e. rewrite Hshift.
    destruct (Client.resolveTurn plain assignments); simpl;
      split; intros H; (discriminate H || exact H).
  - intros next. rewrite Hshift.
    destruct (Client.resolveTurn plain assignments) as [next0|e] eqn:Hr;
      simpl; [|discriminate].
    intros [= <-]. exists next0. split; [reflexivity|].
    pose proof (resolveTurn_clears_flag plain next0 assignments Hr) as Hc.
    split; [reflexivity|]. split; [repeat split|]. split; exact Hc.
  - intros next0 Hr. rewrite Hshift, Hr. simpl. eexists. split; reflexivity.
Qed.

Lemma jackpot_bonus_once_witness :
  exists next next0,
    Client.resolveTurn jackpotState attackDrone = Ok next
    /\ Client.resolveTurn testState attackDrone = Ok next0
    /\ Client.score next = Client.score next0 + 5000
    /\ Client.jackpotHit next = false.
Proof.
  destruct (jackpot_bonus_once jackpotState testState attackDrone)
    as (_ & _ & Hrun & _).
  - reflexivity.
  - reflexivity.
  - repeat split.
  - reflexivity.
  - unfold exactScore, scoreHeadroom. simpl. lia.
  - destruct (Client.resolveTurn jackpotState attackDrone) as [next|e] eqn:Hr;
      [|vm_compute in Hr; discriminate Hr].
    destruct (Hrun next eq_refl) as (next0 & H0 & Hsc & _ & Hf & _).
    exists next, next0. repeat split; assumption.
Defined.

(** ** The state commitment and the order of the enemies *)

Section SortById.

Variable localeCompare : string -> string -> Z.

(** A consistent comparison, as [Array.prototype.sort] requires. *)
Hypothesis localeCompare_sym :
  forall a b, localeCompare a b > 0 <-> localeCompare b a < 0.
Hypothesis localeCompare_trans :
  forall a b c, localeCompare a b <= 0 -> localeCompare b c <= 0 ->
                localeCompare a c <= 0.

Let before (x y : Client.NormalizedEnemy) : Prop :=
  localeCompare (Client.n_id x) (Client.n_id y) <= 0.

Lemma before_refl x : before x x.
Proof.
  unfold before. pose proof (localeCompare_sym (Client.n_id x) (Client.n_id x)). lia.
Qed.

Lemma before_both x y :
  before x y -> before y x -> localeCompare (Client.n_id x) (Client.n_id y) = 0.
Proof.
  unfold before.
  pose proof (localeCompare_sym (Client.n_id y) (Client.n_id x)). lia.
Qed.

Lemma insertSorted_perm a l :
  Permutation (Client.insertSorted localeCompare a l) (a :: l).
Proof.
  induction l as [|b l IH]; simpl; [reflexivity|].
  destruct (localeCompare (Client.n_id a) (Client.n_id b) >? 0).
  - rewrite IH. apply perm_swap.
  - reflexivity.
Qed.

Lemma insertSorted_sorted a l :
  StronglySorted before l ->
  StronglySorted before (Client.insertSorted localeCompare a l).
Proof.
  induction 1 as [|b l Hs IH Hb]; simpl.
  - constructor; constructor.
  - destruct (Z.gtb_spec (localeCompare (Client.n_id a) (Client.n_id b)) 0) as [Hgt|Hle].
    + constructor; [exact IH|].
      rewrite insertSorted_perm. constructor; [|exact Hb].
      unfold before.
      pose proof (localeCompare_sym (Client.n_id a) (Client.n_id b)). lia.
    + constructor; [constructor; assumption|].
      constructor; [exact Hle|].
      eapply Forall_impl; [exact Hb|].
      intros c Hc. exact (localeCompare_trans _ _ _ Hle Hc).
Qed.

Lemma sortById_perm l : Permutation (Client.sortById localeCompare l) l.
Proof.
  induction l as [|a l IH]; simpl; [reflexivity|].
  rewrite insertSorted_perm, IH. reflexivity.
Qed.

Lemma sortById_sorted l : StronglySorted before (Client.sortById localeCompare l).
Proof.
  induction l as [|a l IH]; simpl; [constructor|].
  apply insertSorted_sorted, IH.
Qed.

(** Two sorted arrangements of the same entries are equal when entries
    that compare equal are equal. *)
Lemma sorted_perm_eq l1 l2 :
  StronglySorted before l1 -> StronglySorted before l2 ->
  Permutation l1 l2 ->
  (forall x y, In x l1 -> In y l1 ->
     localeCompare (Client.n_id x) (Client.n_id y) = 0 -> x = y) ->
  l1 = l2.
Proof.
  intros Hs1. revert l2. induction Hs1 as [|x l1 Hs1 IH Hx]; intros l2 Hs2 Hp Hdist.
  - apply Permutation_nil in Hp. congruence.
  - destruct Hs2 as [|y l2 Hs2 Hy].
    { symmetry in Hp. apply Permutation_nil in Hp. discriminate. }
    assert (Hxy : x = y).
    { assert (Hyin : In y (x :: l1)).
      { apply list_elem_of_In. rewrite Hp. left. }
      assert (Hxin : In x (y :: l2)).
      { apply list_elem_of_In. rewrite <- Hp. left. }
      apply Hdist; [left; reflexivity | exact Hyin |].
      apply before_both.
      - destruct Hyin as [<-|Hyin]; [apply before_refl|].
        rewrite Forall_forall in Hx. apply Hx, list_elem_of_In, Hyin.
      - destruct Hxin as [<-|Hxin]; [apply before_refl|].
        rewrite Forall_forall in Hy. apply Hy, list_elem_of_In, Hxin. }
    subst y. f_equal. apply IH; [exact Hs2 | |].
    + eapply Permutation_cons_inv, Hp.
    + intros a b Ha Hb. apply Hdist; right; assumption.
Qed.

Lemma sortById_order_free l1 l2 :
  Permutation l1 l2 ->
  (forall x y, In x l1 -> In y l1 ->
     localeCompare (Client.n_id x) (Client.n_id y) = 0 -> x = y) ->
  Client.sortById localeCompare l1 = Client.sortById localeCompare l2.
Proof.
  intros Hp Hdist. apply sorted_perm_eq.
  - apply sortById_sorted.
  - apply sortById_sorted.
  - rewrite !sortById_perm. exact Hp.
  - intros x y Hx Hy. apply Hdist.
    + apply list_elem_of_In. rewrite <- (sortById_perm l1).
      apply list_elem_of_In, Hx.
    + apply list_elem_of_In. rewrite <- (sortById_perm l1).
      apply list_elem_of_In, Hy.
Qed.

End SortById.

Lemma statePreimage_array_order (player : TurnVerifier.Player)
    (enemies : list TurnVerifier.Enemy) (turn score : Z) :
  TurnVerifier.statePreimage player enemies turn score
  = TurnVerifier.encode_uint 2 (TurnVerifier.hp player)
      ++ TurnVerifier.encode_uint 2 (TurnVerifier.maxHp player)
      ++ TurnVerifier.encode_uint 2 (TurnVerifier.shield player)
      ++ TurnVerifier.encode_uint 1 turn
      ++ TurnVerifier.encode_uint 4 score
      ++ concat (map TurnVerifier.encodeEnemy enemies).
Proof.
  unfold TurnVerifier.statePreimage. do 5 f_equal.
  assert (H : forall acc, fold_left (fun d e => d ++ TurnVerifier.encodeEnemy e) enemies acc
                          = acc ++ concat (map TurnVerifier.encodeEnemy enemies)).
  { induction enemies as [|e es IH]; intros acc; simpl.
    - rewrite app_nil_r. reflexivity.
    - rewrite IH, <- app_assoc. reflexivity. }
  apply (H []).
Qed.


Lemma codeCompare_sym a b : codeCompare a b > 0 <-> codeCompare b a < 0.
Proof.
  unfold codeCompare. rewrite (String.compare_antisym b a).
  destruct (String.compare a b); simpl; lia.
Qed.

Lemma codeCompare_le a b : codeCompare a b <= 0 <-> String.le a b.
Proof.
  unfold codeCompare, String.le, String.leb.
  destruct (String.compare a b); simpl; split; intros H; try lia; try exact I;
    try contradiction.
Qed.

Lemma codeCompare_trans a b c :
  codeCompare a b <= 0 -> codeCompare b c <= 0 -> codeCompare a c <= 0.
Proof.
  rewrite !codeCompare_le. intros H1 H2. etrans; eassumption.
Qed.



(** ** Enemies whose ids tie *)

(** The sort is stable: two enemies with the same id stay in the order
    of the array, so for them the serialized order is the array order. *)
Lemma client_sort_keeps_ties (localeCompare : string -> string -> Z)
    (a b : Client.NormalizedEnemy) :
  localeCompare (Client.n_id a) (Client.n_id b) <= 0 ->
  localeCompare (Client.n_id b) (Client.n_id a) <= 0 ->
  Client.sortById localeCompare [a; b] = [a; b]
  /\ Client.sortById localeCompare [b; a] = [b; a].
Proof.
  intros Hab Hba. unfold Client.sortById. simpl.
  destruct (Z.gtb_spec (localeCompare (Client.n_id a) (Client.n_id b)) 0); [lia|].
  destruct (Z.gtb_spec (localeCompare (Client.n_id b) (Client.n_id a)) 0); [lia|].
  split; reflexivity.
Qed.

(** * Further properties of the code *)

(** ** What the validation accepts *)

Lemma knownTarget_validTarget (state : Client.GameState) (t : string) :
  knownTarget state t ->
  String.eqb t "player" || String.eqb t "trash"
  || existsb (fun e => String.eqb (Client.enemy_id e) t) (Client.enemies state) = true.
Proof.
  unfold knownTarget. rewrite !orb_true_iff, existsb_exists.
  intros [H|[H|(e & He & H)]].
  - left; left. apply String.eqb_eq, H.
  - left; right. apply String.eqb_eq, H.
  - right. exists e. split; [exact He | apply String.eqb_eq, H].
Qed.

Lemma validateLoop_complete (state : Client.GameState) (packetIds acc : gset string)
    (assignments : list Client.Assignment) :
  (forall a, In a assignments ->
     Client.packetId a ∈ packetIds /\ (Client.packetId a ∉ acc)
     /\ knownTarget state (Client.targetId a)) ->
  NoDup (map Client.packetId assignments) ->
  Client.validateLoop packetIds (Client.enemies state) acc assignments
  = Ok (acc ∪ list_to_set (map Client.packetId assignments)).
Proof.
  revert acc. induction assignments as [|a rest IH]; intros acc Hall Hnd; simpl.
  - f_equal. set_solver.
  - destruct (Hall a (or_introl eq_refl)) as (Hin & Hacc & Hknown).
    rewrite (bool_decide_eq_true_2 _ Hin). simpl.
    rewrite (bool_decide_eq_false_2 _ Hacc).
    rewrite (knownTarget_validTarget _ _ Hknown). simpl.
    apply NoDup_cons in Hnd as [Hnotin Hnd].
    rewrite IH.
    + f_equal. set_solver.
    + intros a' Ha'. destruct (Hall a' (or_intror Ha')) as (H1 & H2 & H3).
      split; [exact H1|]. split; [|exact H3].
      intros Hx. apply elem_of_union in Hx as [Hx|Hx]; [exact (H2 Hx)|].
      apply elem_of_singleton in Hx. apply Hnotin.
      rewrite <- Hx. apply list_elem_of_In, in_map, Ha'.
    + exact Hnd.
Qed.

Lemma validateAssignments_valid (state : Client.GameState)
    (assignments : list Client.Assignment) :
  Client.validateAssignments state assignments = Ok tt ->
  validAssignments state assignments.
Proof.
  intros Hv. pose proof (validateAssignments_Ok _ _ Hv) as Hnot.
  unfold Client.validateAssignments in Hv.
  destruct (Client.validateLoop _ _ ∅ assignments) as [assigned|] eqn:Hloop;
    [|discriminate].
  apply validateLoop_Ok in Hloop as (_ & Hall & Hnd).
  split; [|split; [exact Hnd|]].
  - intros a Ha. destruct (Hall a Ha) as (Hin & _ & Hknown). split; [|exact Hknown].
    apply elem_of_list_to_set, list_elem_of_In in Hin. exact Hin.
  - intros p Hp.
    destruct (in_dec String.string_dec (Client.packet_id p)
                (map Client.packetId assignments)) as [Hin|Hout]; [exact Hin|].
    exfalso. apply Hnot. left. exists p. split; assumption.
Qed.

Lemma validAssignments_accepted (state : Client.GameState)
    (assignments : list Client.Assignment) :
  validAssignments state assignments ->
  Client.validateAssignments state assignments = Ok tt.
Proof.
  intros (Hall & Hnd & Hcover). unfold Client.validateAssignments.
  rewrite (validateLoop_complete state _ ∅ assignments); [|
    intros a Ha; destruct (Hall a Ha) as [Hin Hknown];
    split; [apply elem_of_list_to_set, list_elem_of_In, Hin|];
    split; [set_solver|exact Hknown] | exact Hnd].
  simpl.
  assert (Heq : (∅ ∪ list_to_set (map Client.packetId assignments) : gset string)
                = list_to_set (map Client.packet_id (Client.dataStream state))).
  { apply set_eq. intros x. rewrite elem_of_union, !elem_of_list_to_set.
    rewrite !list_elem_of_In. split.
    - intros [Hx|Hx]; [set_solver|].
      apply in_map_iff in Hx as (a & <- & Ha). apply Hall, Ha.
    - intros Hx. right. apply in_map_iff in Hx as (p & <- & Hp). apply Hcover, Hp. }
  rewrite Heq, Nat.eqb_refl. reflexivity.
Qed.

(** X1: [validateAssignments] returns without throwing exactly when the
    assignments name only packets of the hand and known targets, name no
    packet twice, and name every packet of the hand. *)
Theorem validateAssignments_accepts_iff (state : Client.GameState)
    (assignments : list Client.Assignment) :
  Client.validateAssignments state assignments = Ok tt
  <-> validAssignments state assignments.
Proof.
  split; [apply validateAssignments_valid | apply validAssignments_accepted].
Qed.

(** X2: [resolveTurn] returns a state exactly when the assignments are
    valid; otherwise it throws the error of [validateAssignments], so
    nothing after the validation can throw. *)
Theorem resolveTurn_returns_iff_valid (state : Client.GameState)
    (assignments : list Client.Assignment) :
  ((exists next, Client.resolveTurn state assignments = Ok next)
   <-> validAssignments state assignments)
  /\ (forall e, Client.resolveTurn state assignments = Throw e
                <-> Client.validateAssignments state assignments = Throw e).
Proof.
  pose proof (resolveTurn_all_or_nothing state assignments) as Hall.
  assert (Hiff : Client.validateAssignments state assignments = Ok tt
                 <-> validAssignments state assignments)
    by (split; [apply validateAssignments_valid | apply validAssignments_accepted]).
  destruct (Client.validateAssignments state assignments) as [[]|e0] eqn:Hv.
  - destruct Hall as [next Hnext]. split.
    + split; [intros _; apply Hiff; reflexivity | intros _; exists next; exact Hnext].
    + intros e. rewrite Hnext. split; discriminate.
  - split.
    + split.
      * intros [next Hnext]. rewrite Hall in Hnext. discriminate.
      * intros Hvalid. apply Hiff in Hvalid. discriminate.
    + intros e. rewrite Hall. split; intros [= ->]; reflexivity.
Qed.

(** ** What a resolution keeps *)

Lemma sameButHp_refl e : sameButHp e e.
Proof. destruct e; reflexivity. Qed.

Lemma sameButHp_trans e1 e2 e3 : sameButHp e1 e2 -> sameButHp e2 e3 -> sameButHp e1 e3.
Proof.
  unfold sameButHp. intros H1 H2. rewrite H2 at 1. rewrite H1. reflexivity.
Qed.

Lemma Shrunk_refl R l : (forall e, R e e) -> Shrunk R l l.
Proof. intros HR. induction l; [apply Shrunk_nil | apply Shrunk_keep; auto]. Qed.

Lemma Shrunk_refl_in R l : (forall e, In e l -> R e e) -> Shrunk R l l.
Proof.
  induction l as [|a l IH]; intros HR; [apply Shrunk_nil|].
  apply Shrunk_keep; [apply HR; left; reflexivity|].
  apply IH. intros; apply HR; right; assumption.
Qed.

Lemma Shrunk_trans R l1 l2 l3 :
  (forall a b c, R a b -> R b c -> R a c) ->
  Shrunk R l1 l2 -> Shrunk R l2 l3 -> Shrunk R l1 l3.
Proof.
  intros HR H12. revert l3.
  induction H12 as [|e l l' _ IH|e e' l l' Hw _ IH]; intros l3 H23.
  - exact H23.
  - constructor. apply IH, H23.
  - inversion H23 as [|? ? ? H23'|? e'' ? l3' Hw' H23']; subst.
    + constructor. apply IH, H23'.
    + constructor; [eapply HR; eassumption | apply IH, H23'].
Qed.

Lemma Shrunk_filter R (P : Client.Enemy -> Prop) `{forall e, Decision (P e)} l :
  (forall e, In e l -> R e e) -> Shrunk R l (filter P l).
Proof.
  induction l as [|e l IH]; intros HR; [apply Shrunk_nil|].
  rewrite filter_cons. destruct (decide (P e)).
  - apply Shrunk_keep;
      [apply HR; left; reflexivity | apply IH; intros; apply HR; right; assumption].
  - apply Shrunk_drop. apply IH; intros; apply HR; right; assumption.
Qed.

Lemma Shrunk_map R (f : Client.Enemy -> Client.Enemy) l :
  (forall e, In e l -> R e (f e)) -> Shrunk R l (map f l).
Proof.
  induction l as [|e l IH]; intros Hf; simpl; [apply Shrunk_nil|apply Shrunk_keep].
  - apply Hf. left; reflexivity.
  - apply IH. intros; apply Hf; right; assumption.
Qed.

Lemma Shrunk_insert R l i e e' :
  (forall a, In a l -> R a a) ->
  l !! i = Some e -> R e e' -> Shrunk R l (<[i := e']> l).
Proof.
  revert i. induction l as [|a l IH]; intros [|i] HR Hl Hh; simpl in *; try discriminate.
  - injection Hl as ->. apply Shrunk_keep; [exact Hh|].
    apply Shrunk_refl_in. intros; apply HR; right; assumption.
  - apply Shrunk_keep; [apply HR; left; reflexivity|].
    apply IH; [intros; apply HR; right; assumption | assumption | assumption].
Qed.

Lemma Shrunk_same_refl l : Shrunk sameButHp l l.
Proof. apply Shrunk_refl, sameButHp_refl. Qed.

Lemma evolves_refl s : evolves s s.
Proof. unfold evolves. repeat split; try reflexivity; try lia. apply Shrunk_same_refl. Qed.

Lemma evolves_trans s1 s2 s3 : evolves s1 s2 -> evolves s2 s3 -> evolves s1 s3.
Proof.
  intros (A & A0 & A1 & A2 & A3 & A4 & A5 & A6 & A7 & A8 & A9)
         (B & B0 & B1 & B2 & B3 & B4 & B5 & B6 & B7 & B8 & B9).
  unfold evolves. repeat split; try congruence; try lia.
  eapply Shrunk_trans; [apply sameButHp_trans | eassumption | eassumption].
Qed.

Ltac evolves_fields :=
  unfold evolves; simpl; repeat split;
  try reflexivity; try lia; try apply Shrunk_same_refl.

Lemma evolves_applyDamageToPlayer d s : evolves s (Client.applyDamageToPlayer d s).
Proof.
  destruct s as [? ? ? ? ? [h mh sh pos] es ? ? ? ? ?].
  unfold Client.applyDamageToPlayer. simpl.
  destruct (sh >? 0); simpl;
    match goal with
    | |- context [if ?a >? ?b then _ else _] => destruct (Z.gtb_spec a b)
    end;
    evolves_fields.
Qed.

Lemma evolves_startOfTurnJackpot s : evolves s (Client.startOfTurnJackpot s).
Proof.
  unfold Client.startOfTurnJackpot. destruct (Client.jackpotHit s);
    [evolves_fields | apply evolves_refl].
Qed.

Lemma evolves_startOfTurnAnomaly s : evolves s (Client.startOfTurnAnomaly s).
Proof.
  unfold Client.startOfTurnAnomaly.
  destruct (decide (Client.anomaly s = DATA_LEAK)); [evolves_fields | apply evolves_refl].
Qed.

Lemma evolves_set_enemies s es :
  Shrunk sameButHp (Client.enemies s) es -> evolves s (Client.set_enemies s es).
Proof.
  intros H. unfold evolves; simpl; repeat split; try reflexivity; try lia. exact H.
Qed.

Lemma evolves_applyPacketEffect packet targetId s :
  evolves s (Client.applyPacketEffect packet targetId s).1.
Proof.
  unfold Client.applyPacketEffect.
  destruct (String.eqb targetId "trash"); [apply evolves_refl|].
  destruct (String.eqb targetId "player").
  - destruct (Client.packet_type packet); simpl;
      first [apply evolves_applyDamageToPlayer | evolves_fields].
  - destruct (Client.findEnemy targetId (Client.enemies s)) as [[i enemy]|] eqn:Hf;
      [|apply evolves_refl].
    apply findEnemy_lookup in Hf as [Hl _].
    destruct (String.eqb (Client.enemy_type enemy) "CACHE_GOLD");
      destruct (Client.packet_type packet); simpl; try apply evolves_refl;
      apply evolves_set_enemies;
      (eapply Shrunk_insert; [intros; apply sameButHp_refl | exact Hl | reflexivity]).
Qed.

Lemma evolves_forEach (assignments : list Client.Assignment) s :
  evolves s (Client.forEach Client.applyAssignment assignments s).1.
Proof.
  revert s. induction assignments as [|a rest IH]; intros s; [apply evolves_refl|].
  simpl. unfold mbind, Client.M_bind, Client.bind.
  assert (Hstep : evolves s (Client.applyAssignment a s).1).
  { unfold Client.applyAssignment. destruct (find _ _); [|apply evolves_refl].
    apply evolves_applyPacketEffect. }
  destruct (Client.applyAssignment a s) as [s' [[]|e]]; simpl in *; [|exact Hstep].
  eapply evolves_trans; [exact Hstep | apply IH].
Qed.

Lemma scoreKill_fields current s e :
  Client.scoreKill current s e = Client.set_score s (Client.score (Client.scoreKill current s e))
  /\ Client.score s <= Client.score (Client.scoreKill current s e)
     <= Client.score s + 1100.
Proof.
  unfold Client.scoreKill.
  destruct (Client.findEnemy _ _) as [[i o]|]; [|destruct s; simpl; split; [reflexivity|lia]].
  destruct (_ && _); [|destruct s; simpl; split; [reflexivity|lia]].
  destruct (String.eqb _ _); simpl; split; first [reflexivity | lia].
Qed.

Lemma scoreKills_fields current l s :
  fold_left (Client.scoreKill current) l s
  = Client.set_score s (Client.score (fold_left (Client.scoreKill current) l s))
  /\ Client.score s <= Client.score (fold_left (Client.scoreKill current) l s)
     <= Client.score s + 1100 * Z.of_nat (length l).
Proof.
  revert s. induction l as [|e l IH]; intros s.
  - simpl. destruct s; simpl; split; [reflexivity|lia].
  - cbn [fold_left]. destruct (IH (Client.scoreKill current s e)) as [Heq Hb].
    destruct (scoreKill_fields current s e) as [Heq1 Hb1].
    split.
    + rewrite Heq at 1. rewrite Heq1 at 1. reflexivity.
    + rewrite length_cons, Nat2Z.inj_succ. lia.
Qed.

Lemma evolves_scoreKills current s :
  evolves s (fold_left (Client.scoreKill current) (Client.enemies s) s).
Proof.
  destruct (scoreKills_fields current (Client.enemies s) s) as [Heq Hb].
  rewrite Heq. unfold evolves. simpl. repeat split; try reflexivity; try lia.
  apply Shrunk_same_refl.
Qed.

Lemma evolves_removeDeadEnemies s : evolves s (Client.removeDeadEnemies s).
Proof.
  apply evolves_set_enemies, Shrunk_filter. intros; apply sameButHp_refl.
Qed.

Lemma evolves_executeEnemyPhase s : evolves s (Client.executeEnemyPhase s).
Proof.
  unfold Client.executeEnemyPhase.
  generalize (filter (fun e => Client.enemy_hp e > 0) (Client.enemies s)).
  intros l. revert s. induction l as [|e l IH]; intros s; simpl; [apply evolves_refl|].
  destruct (Client.intent e); try apply IH.
  eapply evolves_trans; [apply evolves_applyDamageToPlayer | apply IH].
Qed.

Lemma evolves_endOfTurnAnomaly s : evolves s (Client.endOfTurnAnomaly s).
Proof.
  unfold Client.endOfTurnAnomaly.
  destruct (decide (Client.anomaly s = ION_STORM)); [|apply evolves_refl].
  eapply evolves_trans; [apply evolves_applyDamageToPlayer|].
  eapply evolves_trans; [|apply evolves_removeDeadEnemies].
  apply evolves_set_enemies, Shrunk_map. intros e0 _.
  destruct (Client.enemy_hp e0 >? 0); [reflexivity | apply sameButHp_refl].
Qed.

Lemma finishTurn_fields s :
  let next := Client.finishTurn s in
  Client.dataStream next = [] /\ Client.assignments next = []
  /\ Client.turnCounter next = Client.turnCounter s + 1
  /\ Client.player next = Client.player s
  /\ Client.enemies next = Client.enemies s
  /\ Client.jackpotHit next = Client.jackpotHit s
  /\ Client.levelSeed next = Client.levelSeed s
  /\ Client.levelId next = Client.levelId s
  /\ Client.grid next = Client.grid s
  /\ Client.anomaly next = Client.anomaly s
  /\ Client.checkTurnResult next = Client.checkTurnResult s
  /\ Client.status next
     = (if decide (Client.checkTurnResult s = CONTINUE)
        then Client.WAITING_FOR_VRF else Client.RESOLVED)
  /\ Client.score next
     = Client.score s
       + (if decide (Client.checkTurnResult s = VICTORY)
          then 500 + (if Client.hp (Client.player s) =? Client.maxHp (Client.player s)
                      then 200 else 0)
          else 0).
Proof.
  unfold Client.finishTurn, Client.checkTurnResult. simpl.
  destruct (Client.hp (Client.player s) <=? 0) eqn:Hhp; simpl;
    [rewrite ?Hhp; repeat split; first [reflexivity | lia]|].
  destruct (_ || _) eqn:Hdead; simpl;
    [|rewrite ?Hhp, ?Hdead; repeat split; first [reflexivity | lia]].
  destruct (Client.hp (Client.player s) =? Client.maxHp (Client.player s)) eqn:Hfull;
    simpl; rewrite ?Hhp, ?Hdead; repeat split; first [reflexivity | lia].
Qed.

Lemma applyDamageToPlayer_only_player d s :
  Client.applyDamageToPlayer d s
  = Client.set_player s (Client.player (Client.applyDamageToPlayer d s)).
Proof.
  destruct s as [? ? ? ? ? [h mh sh pos] es ? ? ? ? ?].
  unfold Client.applyDamageToPlayer. simpl.
  destruct (sh >? 0); simpl;
    match goal with |- context [if ?b then _ else _] => destruct b end;
    reflexivity.
Qed.

Lemma executeEnemyPhase_only_player s :
  Client.executeEnemyPhase s
  = Client.set_player s (Client.player (Client.executeEnemyPhase s)).
Proof.
  unfold Client.executeEnemyPhase.
  generalize (filter (fun e => Client.enemy_hp e > 0) (Client.enemies s)).
  intros l.
  assert (H : forall s0, s0 = Client.set_player s (Client.player s0) ->
            fold_left
              (fun state enemy =>
                 match Client.intent enemy with
                 | Client.IntentATTACK => Client.applyDamageToPlayer (Client.damage enemy) state
                 | _ => state
                 end) l s0
            = Client.set_player s
                (Client.player
                   (fold_left
                      (fun state enemy =>
                         match Client.intent enemy with
                         | Client.IntentATTACK =>
                             Client.applyDamageToPlayer (Client.damage enemy) state
                         | _ => state
                         end) l s0))).
  { induction l as [|e l IH]; intros s0 Hs0; simpl; [exact Hs0|].
    apply IH. destruct (Client.intent e); try exact Hs0.
    rewrite applyDamageToPlayer_only_player. rewrite Hs0 at 1. reflexivity. }
  apply H. destruct s; reflexivity.
Qed.

Lemma applyPacketEffect_score packet targetId s :
  Client.score (Client.applyPacketEffect packet targetId s).1 = Client.score s.
Proof.
  unfold Client.applyPacketEffect.
  destruct (String.eqb targetId "trash"); [reflexivity|].
  destruct (String.eqb targetId "player").
  - destruct (Client.packet_type packet); simpl; try reflexivity;
      rewrite applyDamageToPlayer_only_player; reflexivity.
  - destruct (Client.findEnemy targetId (Client.enemies s)) as [[i enemy]|];
      [|reflexivity].
    destruct (String.eqb (Client.enemy_type enemy) "CACHE_GOLD");
      destruct (Client.packet_type packet); reflexivity.
Qed.

Lemma forEach_score_and_ids (assignments : list Client.Assignment) s :
  Client.score (Client.forEach Client.applyAssignment assignments s).1 = Client.score s
  /\ sameHandAndIds s (Client.forEach Client.applyAssignment assignments s).1.
Proof.
  revert s. induction assignments as [|a rest IH]; intros s;
    [split; [reflexivity|split; reflexivity]|].
  simpl. unfold mbind, Client.M_bind, Client.bind.
  assert (Hstep : Client.score (Client.applyAssignment a s).1 = Client.score s
                  /\ sameHandAndIds s (Client.applyAssignment a s).1).
  { unfold Client.applyAssignment. destruct (find _ _);
      [|split; [reflexivity|split; reflexivity]].
    split; [apply applyPacketEffect_score | apply applyPacketEffect_frame]. }
  destruct (Client.applyAssignment a s) as [s' [[]|e]]; simpl in *; [|exact Hstep].
  destruct Hstep as [Hsc [Hds Hids]]. destruct (IH s') as [Hsc' [Hds' Hids']].
  split; [congruence|]. split; congruence.
Qed.

Lemma endOfTurnAnomaly_score s :
  Client.score (Client.endOfTurnAnomaly s) = Client.score s.
Proof.
  unfold Client.endOfTurnAnomaly.
  destruct (decide (Client.anomaly s = ION_STORM)); [|reflexivity].
  simpl. rewrite applyDamageToPlayer_only_player. reflexivity.
Qed.

Lemma endOfTurnAnomaly_alive s :
  Forall (fun e => Client.enemy_hp e > 0) (Client.enemies s) ->
  Forall (fun e => Client.enemy_hp e > 0) (Client.enemies (Client.endOfTurnAnomaly s)).
Proof.
  intros Halive. unfold Client.endOfTurnAnomaly.
  destruct (decide (Client.anomaly s = ION_STORM)) as [Hion|]; [|exact Halive].
  simpl. apply Forall_forall. intros e He.
  apply list_elem_of_filter in He as [He _]. exact He.
Qed.

(** The steps a successful resolution went through. *)
Lemma resolveTurn_trace (state next : Client.GameState)
    (assignments : list Client.Assignment) :
  Client.resolveTurn state assignments = Ok next ->
  exists s2,
    Client.forEach Client.applyAssignment assignments
      (Client.startOfTurnAnomaly (Client.startOfTurnJackpot state)) = (s2, Ok tt)
    /\ next = Client.finishTurn
                (Client.endOfTurnAnomaly
                   (Client.executeEnemyPhase
                      (Client.removeDeadEnemies
                         (fold_left (Client.scoreKill state) (Client.enemies s2) s2)))).
Proof.
  unfold Client.resolveTurn, Client.cloneState, Client.resolveTurnOn,
    Client.playerPhase, mbind, Client.M_bind, Client.bind, Client.mutate,
    Client.liftR.
  destruct (Client.validateAssignments _ assignments) as [[]|e]; [|discriminate].
  destruct (Client.forEach Client.applyAssignment assignments _) as [s2 [[]|e]];
    [|discriminate].
  intros [= <-]. exists s2. split; reflexivity.
Qed.

Lemma jackpot_flag_cleared (state : Client.GameState)
    (assignments : list Client.Assignment) :
  Client.jackpotHit
    (Client.resolveTurnOn state assignments (Client.cloneState state)).1 = false.
Proof. apply resolveTurnOn_flag. Qed.

Lemma resolveTurn_before_finish (state next : Client.GameState)
    (assignments : list Client.Assignment) :
  Client.resolveTurn state assignments = Ok next ->
  exists last,
    next = Client.finishTurn last
    /\ evolves state last
    /\ Forall (fun e => Client.enemy_hp e > 0) (Client.enemies last)
    /\ Client.score last
       <= Client.score state + (if Client.jackpotHit state then 5000 else 0)
          + 1100 * Z.of_nat (length (Client.enemies state))
    /\ Client.jackpotHit last = false.
Proof.
  intros Hr. pose proof Hr as Hflag.
  apply resolveTurn_trace in Hr as (s2 & Hs2 & ->).
  set (s1 := Client.startOfTurnAnomaly (Client.startOfTurnJackpot state)) in *.
  pose proof (evolves_forEach assignments s1) as Hf.
  destruct (forEach_score_and_ids assignments s1) as [Hsc [_ Hids]].
  rewrite Hs2 in Hf, Hsc, Hids. simpl in Hf, Hsc, Hids.
  eexists. split; [reflexivity|]. split; [|split; [|split]].
  - eapply evolves_trans; [apply evolves_startOfTurnJackpot|].
    eapply evolves_trans; [apply evolves_startOfTurnAnomaly|].
    eapply evolves_trans; [exact Hf|].
    eapply evolves_trans; [apply (evolves_scoreKills state)|].
    eapply evolves_trans; [apply evolves_removeDeadEnemies|].
    eapply evolves_trans; [apply evolves_executeEnemyPhase|].
    apply evolves_endOfTurnAnomaly.
  - apply endOfTurnAnomaly_alive. rewrite executeEnemyPhase_only_player. simpl.
    apply Forall_forall. intros e He.
    apply list_elem_of_filter in He as [He _]. exact He.
  - rewrite endOfTurnAnomaly_score, executeEnemyPhase_only_player. simpl.
    destruct (scoreKills_fields state (Client.enemies s2) s2) as [_ Hb].
    apply (f_equal length) in Hids. rewrite !length_map in Hids.
    assert (Hs1 : Client.score s1
                  = Client.score state + (if Client.jackpotHit state then 5000 else 0)).
    { unfold s1, Client.startOfTurnAnomaly, Client.startOfTurnJackpot.
      destruct (Client.jackpotHit state); simpl;
        match goal with |- context [decide ?P] => destruct (decide P) end;
        simpl; lia. }
    assert (Hlen : length (Client.enemies s1) = length (Client.enemies state)).
    { unfold s1, Client.startOfTurnAnomaly, Client.startOfTurnJackpot.
      destruct (Client.jackpotHit state); simpl;
        match goal with |- context [decide ?P] => destruct (decide P) end;
        reflexivity. }
    lia.
  - pose proof (jackpot_flag_cleared state assignments) as Hc.
    unfold Client.resolveTurn in Hflag.
    destruct (Client.resolveTurnOn state assignments (Client.cloneState state))
      as [s' [[]|e]]; [|discriminate].
    injection Hflag as Hnext. simpl in Hc. rewrite Hnext in Hc.
    destruct (finishTurn_fields
                (Client.endOfTurnAnomaly
                   (Client.executeEnemyPhase
                      (Client.removeDeadEnemies
                         (fold_left (Client.scoreKill state) (Client.enemies s2) s2)))))
      as (_ & _ & _ & _ & _ & Hj & _).
    rewrite <- Hj. exact Hc.
Qed.


(** X3: a state returned by [resolveTurn] has an empty hand and no
    assignments, the turn counter one higher (for a turn counter within
    the safe-integer range, where the increment is exact), the jackpot
    flag cleared, the seed, level, grid, anomaly and the player's maxHp
    and position of the input, and the status WAITING_FOR_VRF when
    [checkTurnResult] of it is CONTINUE, RESOLVED otherwise. *)
Theorem resolveTurn_bookkeeping (state next : Client.GameState)
    (assignments : list Client.Assignment) :
  safeInteger (Client.turnCounter state) ->
  Client.resolveTurn state assignments = Ok next ->
  Client.dataStream next = [] /\ Client.assignments next = []
  /\ Client.turnCounter next = Client.turnCounter state + 1
  /\ Client.jackpotHit next = false
  /\ Client.levelSeed next = Client.levelSeed state
  /\ Client.levelId next = Client.levelId state
  /\ Client.grid next = Client.grid state
  /\ Client.anomaly next = Client.anomaly state
  /\ Client.maxHp (Client.player next) = Client.maxHp (Client.player state)
  /\ Client.position (Client.player next) = Client.position (Client.player state)
  /\ Client.status next
     = (if decide (Client.checkTurnResult next = CONTINUE)
        then Client.WAITING_FOR_VRF else Client.RESOLVED).
Proof.
  intros _ Hr. apply resolveTurn_before_finish in Hr
    as (last & -> & Hev & _ & _ & Hflag).
  destruct Hev as (_ & Ht & H1 & H2 & H3 & H4 & H5 & H6 & _).
  destruct (finishTurn_fields last)
    as (F1 & F2 & F3 & F4 & _ & F6 & F7 & F8 & F9 & F10 & F11 & F12 & _).
  rewrite F1, F2, F3, F4, F6, F7, F8, F9, F10, F11, F12.
  repeat split; congruence.
Qed.

Lemma resolveTurn_bookkeeping_witness :
  exists next,
    Client.resolveTurn testState attackDrone = Ok next
    /\ Client.turnCounter next = 2 /\ Client.dataStream next = []
    /\ Client.status next = Client.WAITING_FOR_VRF.
Proof.
  destruct (Client.resolveTurn testState attackDrone) as [next|e] eqn:Hr;
    [|vm_compute in Hr; discriminate Hr].
  exists next. split; [reflexivity|].
  destruct (resolveTurn_bookkeeping testState next attackDrone)
    as (H1 & _ & H3 & _ & _ & _ & _ & _ & _ & _ & H11).
  - unfold safeInteger. simpl. lia.
  - exact Hr.
  - split; [exact H3|]. split; [exact H1|].
    vm_compute in Hr. injection Hr as <-. reflexivity.
Defined.

(** X4: the enemies of a state returned by [resolveTurn] are enemies of
    the input, in the same order, each the same but for its hp, and each
    with an hp above 0: none is added, reordered or left dead. *)
Theorem resolveTurn_survivors (state next : Client.GameState)
    (assignments : list Client.Assignment) :
  Client.resolveTurn state assignments = Ok next ->
  Shrunk sameButHp (Client.enemies state) (Client.enemies next)
  /\ Forall (fun e => Client.enemy_hp e > 0) (Client.enemies next).
Proof.
  intros Hr. apply resolveTurn_before_finish in Hr
    as (last & -> & Hev & Halive & _).
  destruct (finishTurn_fields last) as (_ & _ & _ & _ & -> & _).
  split; [apply Hev | exact Halive].
Qed.

Lemma resolveTurn_survivors_witness :
  exists next,
    Client.resolveTurn testState attackDrone = Ok next
    /\ Shrunk sameButHp [testEnemy] (Client.enemies next)
    /\ Forall (fun e => Client.enemy_hp e > 0) (Client.enemies next).
Proof.
  eexists. split; [vm_compute; reflexivity|].
  apply (resolveTurn_survivors testState _ attackDrone). vm_compute. reflexivity.
Defined.

(** X5: from a score from which the awards of a resolution are exact
    (not negative, and below 2^53 with every award added), [resolveTurn]
    never lowers the score, and adds at most 5000 for a pending jackpot,
    1100 for each enemy of the input and, on a VICTORY, 700. *)
Theorem resolveTurn_score_bounds (state next : Client.GameState)
    (assignments : list Client.Assignment) :
  exactScore state ->
  Client.resolveTurn state assignments = Ok next ->
  Client.score state <= Client.score next
  /\ Client.score next
     <= Client.score state + (if Client.jackpotHit state then 5000 else 0)
        + 1100 * Z.of_nat (length (Client.enemies state))
        + (if decide (Client.checkTurnResult next = VICTORY) then 700 else 0).
Proof.
  intros _ Hr. apply resolveTurn_before_finish in Hr
    as (last & -> & Hev & _ & Hsc & _).
  destruct Hev as (_ & _ & _ & _ & _ & _ & _ & _ & Hup & _).
  destruct (finishTurn_fields last)
    as (_ & _ & _ & _ & _ & _ & _ & _ & _ & _ & -> & _ & ->).
  destruct (decide (Client.checkTurnResult last = VICTORY));
    [destruct (_ =? _)|]; lia.
Qed.

Lemma resolveTurn_score_bounds_witness :
  exists next,
    Client.resolveTurn jackpotState attackDrone = Ok next
    /\ 0 <= Client.score next <= 0 + 5000 + 1100 * 1 + 0.
Proof.
  destruct (Client.resolveTurn jackpotState attackDrone) as [next|e] eqn:Hr;
    [|vm_compute in Hr; discriminate Hr].
  exists next. split; [reflexivity|].
  destruct (resolveTurn_score_bounds jackpotState next attackDrone) as [Hlo Hhi].
  - unfold exactScore, scoreHeadroom. simpl. lia.
  - exact Hr.
  - assert (Hv : Client.checkTurnResult next <> VICTORY)
      by (vm_compute in Hr; injection Hr as <-; vm_compute; discriminate).
    destruct (decide (Client.checkTurnResult next = VICTORY)); [contradiction|].
    split; [exact Hlo | exact Hhi].
Defined.


(** ** The ranges of the data model *)

Lemma weakened_trans e1 e2 e3 : weakened e1 e2 -> weakened e2 e3 -> weakened e1 e3.
Proof.
  intros [H1 L1] [H2 L2]. split; [eapply sameButHp_trans; eassumption | lia].
Qed.

Lemma Shrunk_weakened_refl l :
  Forall (fun e => 0 <= Client.enemy_hp e) l -> Shrunk weakened l l.
Proof.
  intros Hl. apply Shrunk_refl_in. intros e He.
  rewrite Forall_forall in Hl. split; [apply sameButHp_refl|].
  specialize (Hl e (proj2 (list_elem_of_In _ _) He)). lia.
Qed.

Lemma Shrunk_weakened_ranges l l' :
  Shrunk weakened l l' -> Forall (fun e => 0 <= Client.enemy_hp e) l'.
Proof.
  induction 1 as [| |e e' l l' [_ Hw] _ IH]; [constructor | assumption |].
  constructor; [lia | exact IH].
Qed.

Lemma descends_refl s : inRanges s -> descends s s.
Proof.
  intros Hs. split; [exact Hs|]. split; [reflexivity|].
  apply Shrunk_weakened_refl, Hs.
Qed.

Lemma descends_trans s1 s2 s3 : descends s1 s2 -> descends s2 s3 -> descends s1 s3.
Proof.
  intros (_ & D1 & S1) (R2 & D2 & S2). split; [exact R2|].
  split; [congruence|]. eapply Shrunk_trans; [apply weakened_trans | eassumption..].
Qed.

Lemma descends_player s p :
  inRanges s ->
  0 <= Client.hp p <= Client.maxHp p -> 0 <= Client.shield p ->
  descends s (Client.set_player s p).
Proof.
  intros (_ & _ & He & Hd) Hhp Hsh. split; [|split].
  - repeat split; simpl; (lia || assumption).
  - reflexivity.
  - apply Shrunk_weakened_refl, He.
Qed.

Lemma descends_enemies s es :
  inRanges s -> Shrunk weakened (Client.enemies s) es ->
  descends s (Client.set_enemies s es).
Proof.
  intros (Hhp & Hsh & He & Hd) Hes. split; [|split; [reflexivity|exact Hes]].
  repeat split; simpl; try lia; try assumption.
  eapply Shrunk_weakened_ranges, Hes.
Qed.

Lemma descends_applyDamageToPlayer d s :
  inRanges s -> descends s (Client.applyDamageToPlayer d s).
Proof.
  intros Hs. rewrite applyDamageToPlayer_only_player.
  destruct Hs as (Hhp & Hsh & He & Hd).
  assert (Hp : 0 <= Client.hp (Client.player (Client.applyDamageToPlayer d s))
               <= Client.maxHp (Client.player (Client.applyDamageToPlayer d s))
               /\ 0 <= Client.shield (Client.player (Client.applyDamageToPlayer d s))).
  { destruct s as [? ? ? ? ? [h mh sh pos] es ? ? ? ? ?].
    unfold Client.applyDamageToPlayer. simpl in *.
    destruct (Z.gtb_spec sh 0); simpl;
      match goal with
      | |- context [if ?a >? ?b then _ else _] => destruct (Z.gtb_spec a b)
      end; simpl; lia. }
  apply descends_player; [exact (conj Hhp (conj Hsh (conj He Hd))) | apply Hp | apply Hp].
Qed.

Lemma effectiveValue_nonneg anomaly packet :
  0 <= Client.packet_value packet -> 0 <= Client.effectiveValue anomaly packet.
Proof.
  intros Hv. unfold Client.effectiveValue.
  assert (0 <= 3 * Client.packet_value packet / 2) by (apply Z.div_pos; lia).
  destruct (Client.packet_rarity packet); destruct (decide _); lia.
Qed.

Lemma descends_applyPacketEffect packet targetId s :
  inRanges s -> 0 <= Client.packet_value packet ->
  descends s (Client.applyPacketEffect packet targetId s).1.
Proof.
  intros Hs Hv. pose proof (effectiveValue_nonneg (Client.anomaly s) packet Hv) as Heff.
  unfold Client.applyPacketEffect.
  destruct (String.eqb targetId "trash"); [apply descends_refl, Hs|].
  destruct (String.eqb targetId "player").
  - destruct (Client.packet_type packet); simpl;
      try apply descends_applyDamageToPlayer; try apply descends_refl; try exact Hs;
      destruct Hs as (Hhp & Hsh & He & Hd);
      (apply descends_player; [exact (conj Hhp (conj Hsh (conj He Hd))) | simpl; lia | simpl; lia]).
  - destruct (Client.findEnemy targetId (Client.enemies s)) as [[i enemy]|] eqn:Hf;
      [|apply descends_refl, Hs].
    apply findEnemy_lookup in Hf as [Hl _].
    assert (Hhp : 0 <= Client.enemy_hp enemy).
    { destruct Hs as (_ & _ & He & _). rewrite Forall_forall in He.
      apply He. eapply list_elem_of_lookup_2, Hl. }
    assert (Hin : forall a, In a (Client.enemies s) -> weakened a a).
    { intros a Ha. destruct Hs as (_ & _ & He & _). rewrite Forall_forall in He.
      split; [apply sameButHp_refl|].
      specialize (He a (proj2 (list_elem_of_In _ _) Ha)). lia. }
    destruct (String.eqb (Client.enemy_type enemy) "CACHE_GOLD");
      destruct (Client.packet_type packet); simpl; try apply descends_refl;
      try exact Hs;
      (apply descends_enemies; [exact Hs|];
       eapply Shrunk_insert; [exact Hin | exact Hl |];
       split; [reflexivity | simpl; lia]).
Qed.

Lemma descends_forEach (assignments : list Client.Assignment) s :
  inRanges s -> descends s (Client.forEach Client.applyAssignment assignments s).1.
Proof.
  revert s. induction assignments as [|a rest IH]; intros s Hs;
    [apply descends_refl, Hs|].
  simpl. unfold mbind, Client.M_bind, Client.bind.
  assert (Hstep : descends s (Client.applyAssignment a s).1).
  { unfold Client.applyAssignment.
    destruct (find _ _) as [packet|] eqn:Hfind; [|apply descends_refl, Hs].
    apply descends_applyPacketEffect; [exact Hs|].
    apply find_some in Hfind as [Hin _].
    destruct Hs as (_ & _ & _ & Hd). rewrite Forall_forall in Hd.
    apply Hd, list_elem_of_In, Hin. }
  destruct (Client.applyAssignment a s) as [s' [[]|e]]; simpl in *; [|exact Hstep].
  eapply descends_trans; [exact Hstep | apply IH, Hstep].
Qed.

Lemma descends_score s sc : inRanges s -> descends s (Client.set_score s sc).
Proof.
  intros Hs. split; [exact Hs|]. split; [reflexivity|].
  apply Shrunk_weakened_refl, Hs.
Qed.

Lemma descends_removeDeadEnemies s : inRanges s -> descends s (Client.removeDeadEnemies s).
Proof.
  intros Hs. apply descends_enemies; [exact Hs|].
  apply Shrunk_filter. intros e He. destruct Hs as (_ & _ & Hes & _).
  rewrite Forall_forall in Hes. split; [apply sameButHp_refl|].
  specialize (Hes e (proj2 (list_elem_of_In _ _) He)). lia.
Qed.

Lemma descends_executeEnemyPhase s : inRanges s -> descends s (Client.executeEnemyPhase s).
Proof.
  unfold Client.executeEnemyPhase.
  generalize (filter (fun e => Client.enemy_hp e > 0) (Client.enemies s)).
  intros l. revert s. induction l as [|e l IH]; intros s Hs; simpl;
    [apply descends_refl, Hs|].
  destruct (Client.intent e); try apply IH; try exact Hs.
  eapply descends_trans; [apply descends_applyDamageToPlayer, Hs|].
  apply IH. apply descends_applyDamageToPlayer, Hs.
Qed.

Lemma descends_endOfTurnAnomaly s : inRanges s -> descends s (Client.endOfTurnAnomaly s).
Proof.
  intros Hs. unfold Client.endOfTurnAnomaly.
  destruct (decide (Client.anomaly s = ION_STORM)) as [Hion|]; [|apply descends_refl, Hs].
  pose proof (descends_applyDamageToPlayer 5 s Hs) as H1.
  eapply descends_trans; [exact H1|].
  set (s1 := Client.applyDamageToPlayer 5 s) in *.
  assert (H2 : descends s1
                 (Client.set_enemies s1
                    (map (fun e => if Client.enemy_hp e >? 0
                                   then Client.set_enemy_hp e (Z.max 0 (Client.enemy_hp e - 5))
                                   else e) (Client.enemies s1)))).
  { apply descends_enemies; [apply H1|]. apply Shrunk_map. intros e He.
    destruct H1 as ((_ & _ & Hes & _) & _). rewrite Forall_forall in Hes.
    specialize (Hes e (proj2 (list_elem_of_In _ _) He)).
    destruct (Z.gtb_spec (Client.enemy_hp e) 0).
    - split; [reflexivity | simpl; lia].
    - split; [apply sameButHp_refl | lia]. }
  eapply descends_trans; [exact H2|].
  apply descends_removeDeadEnemies, H2.
Qed.

Lemma inRanges_start s :
  inRanges s -> descends s (Client.startOfTurnAnomaly (Client.startOfTurnJackpot s)).
Proof.
  intros Hs.
  assert (H1 : descends s (Client.startOfTurnJackpot s)).
  { unfold Client.startOfTurnJackpot. destruct (Client.jackpotHit s);
      [|apply descends_refl, Hs].
    destruct Hs as (Hhp & Hsh & He & Hd).
    split; [repeat split; simpl; (lia || assumption)|].
    split; [reflexivity | apply Shrunk_weakened_refl, He]. }
  eapply descends_trans; [exact H1|].
  unfold Client.startOfTurnAnomaly.
  destruct (decide _); [|apply descends_refl, H1].
  destruct H1 as ((Hhp & Hsh & He & Hd) & _).
  apply descends_player; [exact (conj Hhp (conj Hsh (conj He Hd))) | simpl; lia | simpl; lia].
Qed.


Lemma resolveTurn_ranges (state next : Client.GameState)
    (assignments : list Client.Assignment) :
  inRanges state ->
  Client.resolveTurn state assignments = Ok next ->
  0 <= Client.hp (Client.player next) <= Client.maxHp (Client.player next)
  /\ 0 <= Client.shield (Client.player next)
  /\ Shrunk weakened (Client.enemies state) (Client.enemies next).
Proof.
  intros Hs Hr. apply resolveTurn_trace in Hr as (s2 & Hs2 & ->).
  pose proof (inRanges_start state Hs) as H1.
  set (s1 := Client.startOfTurnAnomaly (Client.startOfTurnJackpot state)) in *.
  pose proof (descends_forEach assignments s1 (proj1 H1)) as H2.
  rewrite Hs2 in H2. simpl in H2.
  destruct (scoreKills_fields state (Client.enemies s2) s2) as [Heq _].
  set (s3 := fold_left (Client.scoreKill state) (Client.enemies s2) s2) in *.
  assert (H3 : descends s2 s3).
  { rewrite Heq. apply descends_score, H2. }
  pose proof (descends_removeDeadEnemies s3 (proj1 H3)) as H4.
  pose proof (descends_executeEnemyPhase _ (proj1 H4)) as H5.
  pose proof (descends_endOfTurnAnomaly _ (proj1 H5)) as H6.
  pose proof (descends_trans _ _ _ H1
                (descends_trans _ _ _ H2
                   (descends_trans _ _ _ H3
                      (descends_trans _ _ _ H4 (descends_trans _ _ _ H5 H6)))))
    as ((Hhp & Hsh & _) & _ & Hes).
  destruct (finishTurn_fields
              (Client.endOfTurnAnomaly
                 (Client.executeEnemyPhase (Client.removeDeadEnemies s3))))
    as (_ & _ & _ & -> & -> & _).
  split; [exact Hhp|]. split; [exact Hsh | exact Hes].
Qed.

(** X6: from a state within the data model's ranges (player hp between 0
    and maxHp, no negative shield, enemy hp or packet value) [resolveTurn]
    returns a state whose player is within the same ranges, and in which
    every surviving enemy has a non-negative hp not above its hp before:
    the resolution heals no enemy. *)
Theorem resolveTurn_keeps_ranges (state next : Client.GameState)
    (assignments : list Client.Assignment) :
  inRanges state ->
  Client.resolveTurn state assignments = Ok next ->
  0 <= Client.hp (Client.player next) <= Client.maxHp (Client.player next)
  /\ 0 <= Client.shield (Client.player next)
  /\ Shrunk weakened (Client.enemies state) (Client.enemies next).
Proof. apply resolveTurn_ranges. Qed.

Lemma resolveTurn_keeps_ranges_witness :
  exists next,
    Client.resolveTurn lostState lostAssignments = Ok next
    /\ 0 <= Client.hp (Client.player next) <= Client.maxHp (Client.player next)
    /\ 0 <= Client.shield (Client.player next)
    /\ Shrunk weakened [testEnemy] (Client.enemies next).
Proof.
  eexists. split; [vm_compute; reflexivity|].
  apply (resolveTurn_keeps_ranges lostState _ lostAssignments).
  - repeat split; simpl; try lia; repeat constructor; simpl; lia.
  - vm_compute. reflexivity.
Defined.


(** ** The immune enemy, and the packets that help the player *)

Lemma hpApart_refl e : hpApart e e.
Proof. repeat split. Qed.

Lemma hpApart_trans e1 e2 e3 : hpApart e1 e2 -> hpApart e2 e3 -> hpApart e1 e3.
Proof.
  intros (A1 & A2 & A3 & A4 & A5 & A6 & A7) (B1 & B2 & B3 & B4 & B5 & B6 & B7).
  repeat split; congruence.
Qed.

Lemma verifierHpApart_trans e1 e2 e3 :
  verifierHpApart e1 e2 -> verifierHpApart e2 e3 -> verifierHpApart e1 e3.
Proof.
  intros (A1 & A2 & A3 & A4 & A5) (B1 & B2 & B3 & B4 & B5).
  repeat split; congruence.
Qed.

(** A write at the index of an enemy that keeps its id moves no first
    match of [find]. *)
Lemma findEnemy_insert (target : string) (es : list Client.Enemy) j e2 e2' i e :
  es !! j = Some e2 -> Client.enemy_id e2' = Client.enemy_id e2 ->
  Client.findEnemy target es = Some (i, e) ->
  Client.findEnemy target (<[j := e2']> es)
  = Some (i, if decide (i = j) then e2' else e).
Proof.
  revert j i. induction es as [|e0 es IH]; intros j i Hl Hid; [discriminate|].
  destruct j as [|j]; simpl in Hl |- *.
  - injection Hl as ->. rewrite Hid.
    destruct (String.eqb (Client.enemy_id e2) target).
    + intros [= <- <-]. reflexivity.
    + destruct (Client.findEnemy target es) as [[i' e']|]; simpl; [|discriminate].
      intros [= <- <-]. reflexivity.
  - destruct (String.eqb (Client.enemy_id e0) target).
    + intros [= <- <-]. reflexivity.
    + destruct (Client.findEnemy target es) as [[i' e']|] eqn:Hf; simpl; [|discriminate].
      intros [= <- <-]. rewrite (IH j i' Hl Hid eq_refl). simpl.
      destruct (decide (i' = j)) as [->|Hn].
      * rewrite decide_True by reflexivity. reflexivity.
      * rewrite decide_False by congruence. reflexivity.
Qed.

(** One assignment of the client, seen from the cache. *)
Lemma applyAssignment_cache (a : Client.Assignment) (s s' : Client.GameState)
    (target : string) i enemy :
  target <> "trash"%string -> target <> "player"%string ->
  Client.findEnemy target (Client.enemies s) = Some (i, enemy) ->
  Client.enemy_type enemy = "CACHE_GOLD"%string ->
  Client.applyAssignment a s = (s', Ok tt) ->
  Client.dataStream s' = Client.dataStream s
  /\ exists enemy',
       Client.findEnemy target (Client.enemies s') = Some (i, enemy')
       /\ hpApart enemy enemy'
       /\ Client.enemy_hp enemy'
          = if critOn (Client.dataStream s) target a then 0 else Client.enemy_hp enemy.
Proof.
  intros Ht Hp Hf Hc. revert s'. unfold Client.applyAssignment, critOn.
  destruct (find _ _) as [packet|]; [|discriminate].
  assert (Hkeep : exists enemy',
             Client.findEnemy target (Client.enemies s) = Some (i, enemy')
             /\ hpApart enemy enemy' /\ Client.enemy_hp enemy' = Client.enemy_hp enemy).
  { exists enemy. split; [exact Hf|]. split; [apply hpApart_refl | reflexivity]. }
  assert (Hsame : forall s0,
             Client.dataStream s0 = Client.dataStream s
             -> Client.enemies s0 = Client.enemies s
             -> (String.eqb (Client.targetId a) target
                 && bool_decide (Client.packet_type packet = CRIT)) = false
             -> Client.dataStream s0 = Client.dataStream s
                /\ exists enemy',
                     Client.findEnemy target (Client.enemies s0) = Some (i, enemy')
                     /\ hpApart enemy enemy'
                     /\ Client.enemy_hp enemy'
                        = if String.eqb (Client.targetId a) target
                             && bool_decide (Client.packet_type packet = CRIT)
                          then 0 else Client.enemy_hp enemy).
  { intros s0 Hds Hes ->. rewrite Hes. split; assumption. }
  unfold Client.applyPacketEffect.
  destruct (String.eqb_spec (Client.targetId a) "trash") as [Ha|Ha].
  { intros s' [= <-]. apply Hsame; [reflexivity | reflexivity|].
    apply andb_false_intro1, String.eqb_neq. congruence. }
  destruct (String.eqb_spec (Client.targetId a) "player") as [Ha'|Ha'].
  { assert (Hn : (String.eqb (Client.targetId a) target
                  && bool_decide (Client.packet_type packet = CRIT)) = false)
      by (apply andb_false_intro1, String.eqb_neq; congruence).
    revert Hsame Hn.
    destruct (Client.packet_type packet); intros Hsame Hn s' [= <-];
      (apply Hsame; [| | exact Hn]);
      try reflexivity;
      rewrite applyDamageToPlayer_only_player; reflexivity. }
  destruct (Client.findEnemy (Client.targetId a) (Client.enemies s))
    as [[j e2]|] eqn:Hf2; [|discriminate].
  destruct (findEnemy_lookup _ _ _ _ Hf2) as [Hl2 Hid2].
  destruct (findEnemy_lookup _ _ _ _ Hf) as [Hl Hid].
  destruct (String.eqb_spec (Client.targetId a) target) as [Heq|Hne].
  - rewrite Heq in Hf2. rewrite Hf in Hf2. injection Hf2 as <- <-.
    apply String.eqb_eq in Hc. rewrite Hc. simpl andb.
    destruct (Client.packet_type packet) eqn:Hk; intros s' [= <-];
      try (rewrite bool_decide_eq_false_2 by discriminate;
           split; [reflexivity|exact Hkeep]).
    rewrite bool_decide_eq_true_2 by reflexivity.
    split; [reflexivity|]. simpl.
    rewrite (findEnemy_insert target _ i enemy (Client.set_enemy_hp enemy 0) i enemy
               Hl eq_refl Hf).
    rewrite decide_True by reflexivity.
    eexists. split; [reflexivity|]. split; [repeat split | reflexivity].
  - simpl andb.
    assert (Hij : i <> j).
    { intros <-. rewrite Hl in Hl2. injection Hl2 as <-. congruence. }
    assert (Hwrite : forall h,
               exists enemy',
                 Client.findEnemy target
                   (<[j := Client.set_enemy_hp e2 h]> (Client.enemies s))
                 = Some (i, enemy')
                 /\ hpApart enemy enemy' /\ Client.enemy_hp enemy' = Client.enemy_hp enemy).
    { intros h.
      rewrite (findEnemy_insert target _ j e2 (Client.set_enemy_hp e2 h) i enemy
                 Hl2 eq_refl Hf).
      rewrite decide_False by exact Hij.
      exists enemy. split; [reflexivity|]. split; [apply hpApart_refl | reflexivity]. }
    destruct (String.eqb (Client.enemy_type e2) "CACHE_GOLD");
      destruct (Client.packet_type packet); intros s' [= <-];
      first [split; [reflexivity|exact Hkeep]
            | split; [reflexivity | apply Hwrite]].
Qed.

(** The whole packet phase of the client, seen from the cache. *)
Lemma forEach_cache (assignments : list Client.Assignment) (s s' : Client.GameState)
    (target : string) i enemy :
  target <> "trash"%string -> target <> "player"%string ->
  Client.findEnemy target (Client.enemies s) = Some (i, enemy) ->
  Client.enemy_type enemy = "CACHE_GOLD"%string ->
  Client.forEach Client.applyAssignment assignments s = (s', Ok tt) ->
  exists enemy',
    Client.findEnemy target (Client.enemies s') = Some (i, enemy')
    /\ hpApart enemy enemy'
    /\ Client.enemy_hp enemy'
       = if existsb (critOn (Client.dataStream s) target) assignments
         then 0 else Client.enemy_hp enemy.
Proof.
  intros Ht Hp. revert s enemy.
  induction assignments as [|a rest IH]; intros s enemy Hf Hc.
  - intros [= <-]. exists enemy.
    split; [exact Hf|]. split; [apply hpApart_refl | reflexivity].
  - simpl. unfold mbind, Client.M_bind, Client.bind.
    destruct (Client.applyAssignment a s) as [s1 [[]|e]] eqn:Hstep; [|discriminate].
    intros Hrest.
    destruct (applyAssignment_cache a s s1 target i enemy Ht Hp Hf Hc Hstep)
      as (Hds & e1 & Hf1 & Ha1 & Hh1).
    assert (Hc1 : Client.enemy_type e1 = "CACHE_GOLD"%string).
    { destruct Ha1 as (_ & _ & _ & -> & _). exact Hc. }
    destruct (IH s1 e1 Hf1 Hc1 Hrest) as (e2 & Hf2 & Ha2 & Hh2).
    exists e2. split; [exact Hf2|]. split; [eapply hpApart_trans; eassumption|].
    rewrite Hh2, Hds, Hh1. clear. cbn [existsb].
    destruct (critOn (Client.dataStream s) target a),
      (existsb (critOn (Client.dataStream s) target) rest); reflexivity.
Qed.

Lemma nth_error_is_lookup {A} (l : list A) (n : nat) : nth_error l n = l !! n.
Proof.
  revert n. induction l as [|x l IH]; intros [|n]; simpl; try reflexivity. apply IH.
Qed.

(** One assignment of the verifier, seen from a cache. *)
Lemma verifier_applyAssignment_cache hand p es a p' es' k enemy :
  es !! k = Some enemy -> TurnVerifier.isCache enemy = true ->
  uint8Assignment a ->
  TurnVerifier.applyAssignment hand (p, es) a = TurnVerifier.Return (p', es') ->
  exists enemy',
    es' !! k = Some enemy' /\ verifierHpApart enemy enemy'
    /\ TurnVerifier.enemy_hp enemy'
       = if verifierCritOn hand k a then 0 else TurnVerifier.enemy_hp enemy.
Proof.
  intros Hl Hc [_ [Hlo Hhi]]. unfold TurnVerifier.applyAssignment, verifierCritOn.
  destruct (nth_error hand _) as [packet|]; [|discriminate].
  assert (Hkeep : (TurnVerifier.targetType a =? Z.of_nat k + 2) = false ->
            exists enemy',
              es !! k = Some enemy' /\ verifierHpApart enemy enemy'
              /\ TurnVerifier.enemy_hp enemy'
                 = if (TurnVerifier.targetType a =? Z.of_nat k + 2)
                      && bool_decide (TurnVerifier.packetType packet = CRIT)
                   then 0 else TurnVerifier.enemy_hp enemy).
  { intros ->. exists enemy. split; [exact Hl|]. split; [repeat split | reflexivity]. }
  destruct (Z.eqb_spec (TurnVerifier.targetType a) 0) as [H0|H0].
  { intros [= <- <-]. apply Hkeep, Z.eqb_neq. lia. }
  destruct (Z.eqb_spec (TurnVerifier.targetType a) 1) as [H1|H1].
  { destruct (TurnVerifier.applyPacketToPlayer p packet); simpl; [|discriminate].
    intros [= <- <-]. apply Hkeep, Z.eqb_neq. lia. }
  destruct (nth_error es _) as [e2|] eqn:Hn; [|discriminate].
  intros [= <- <-].
  destruct (Z.eqb_spec (TurnVerifier.targetType a) (Z.of_nat k + 2)) as [Hk|Hk].
  - replace (Z.to_nat (TurnVerifier.targetType a - 2)) with k in * by lia.
    assert (He2 : e2 = enemy).
    { rewrite nth_error_is_lookup, Hl in Hn. congruence. }
    subst e2. simpl andb.
    exists (TurnVerifier.applyPacketToEnemy enemy packet).
    split; [apply list_lookup_insert_eq; eapply lookup_lt_Some; exact Hl|].
    unfold TurnVerifier.applyPacketToEnemy. rewrite Hc.
    destruct (TurnVerifier.packetType packet); simpl;
      (split; [repeat split | reflexivity]).
  - simpl andb. exists enemy.
    split; [|split; [repeat split | reflexivity]].
    rewrite list_lookup_insert_ne by lia. exact Hl.
Qed.

(** The whole packet phase of the verifier, seen from a cache. *)
Lemma verifier_applyAssignments_cache hand assignments p es p' es' k enemy :
  es !! k = Some enemy -> TurnVerifier.isCache enemy = true ->
  Forall uint8Assignment assignments ->
  TurnVerifier.applyAssignments hand (p, es) assignments = TurnVerifier.Return (p', es') ->
  exists enemy',
    es' !! k = Some enemy' /\ verifierHpApart enemy enemy'
    /\ TurnVerifier.enemy_hp enemy'
       = if existsb (verifierCritOn hand k) assignments
         then 0 else TurnVerifier.enemy_hp enemy.
Proof.
  intros Hl Hc Hu. revert p es enemy Hl Hc.
  induction Hu as [|a rest Ha _ IH]; intros p es enemy Hl Hc.
  - intros [= <- <-]. exists enemy. split; [exact Hl|].
    split; [repeat split | reflexivity].
  - cbn [TurnVerifier.applyAssignments].
    destruct (TurnVerifier.applyAssignment hand (p, es) a) as [[p1 es1]|] eqn:Hstep;
      cbn [TurnVerifier.bindO]; [|discriminate].
    intros Hrest.
    destruct (verifier_applyAssignment_cache _ _ _ _ _ _ _ _ Hl Hc Ha Hstep)
      as (e1 & Hl1 & Ha1 & Hh1).
    assert (Hc1 : TurnVerifier.isCache e1 = true).
    { destruct Ha1 as (_ & _ & _ & _ & ->). exact Hc. }
    destruct (IH p1 es1 e1 Hl1 Hc1 Hrest) as (e2 & Hl2 & Ha2 & Hh2).
    exists e2. split; [exact Hl2|].
    split; [eapply verifierHpApart_trans; eassumption|].
    rewrite Hh2, Hh1. clear. cbn [existsb].
    destruct (verifierCritOn hand k a), (existsb (verifierCritOn hand k) rest);
      reflexivity.
Qed.

(** X7: through the whole packet phase, the immune-except-crit enemy
    (type CACHE_GOLD in the client, found by its id; [isCache] in the
    verifier, found by its index) keeps its place and every field but
    its hp, and its hp afterwards is 0 if one of the assignments sent it
    a CRIT packet of the hand, its hp before otherwise: no other packet,
    whatever its magnitude, and no packet sent elsewhere changes it. *)
Theorem cache_only_crit (state state' : Client.GameState)
    (assignments : list Client.Assignment) (target : string) (i : nat)
    (enemy : Client.Enemy)
    (hand : list TurnVerifier.Packet) (player2 player2' : TurnVerifier.Player)
    (enemies2 enemies2' : list TurnVerifier.Enemy)
    (assignments2 : list TurnVerifier.Assignment) (k : nat)
    (enemy2 : TurnVerifier.Enemy) :
  target <> "trash"%string -> target <> "player"%string ->
  Client.findEnemy target (Client.enemies state) = Some (i, enemy) ->
  Client.enemy_type enemy = "CACHE_GOLD"%string ->
  Client.forEach Client.applyAssignment assignments state = (state', Ok tt) ->
  enemies2 !! k = Some enemy2 ->
  TurnVerifier.isCache enemy2 = true ->
  Forall uint8Assignment assignments2 ->
  TurnVerifier.applyAssignments hand (player2, enemies2) assignments2
  = TurnVerifier.Return (player2', enemies2') ->
  (exists enemy',
     Client.enemies state' !! i = Some enemy'
     /\ hpApart enemy enemy'
     /\ Client.enemy_hp enemy'
        = if existsb (critOn (Client.dataStream state) target) assignments
          then 0 else Client.enemy_hp enemy)
  /\ (exists enemy2',
        enemies2' !! k = Some enemy2'
        /\ verifierHpApart enemy2 enemy2'
        /\ TurnVerifier.enemy_hp enemy2'
           = if existsb (verifierCritOn hand k) assignments2
             then 0 else TurnVerifier.enemy_hp enemy2).
Proof.
  intros Ht Hp Hf Hc Hrun Hl2 Hc2 Hu Hrun2. split.
  - destruct (forEach_cache assignments state state' target i enemy Ht Hp Hf Hc Hrun)
      as (enemy' & Hf' & Ha & Hh).
    exists enemy'. split; [apply (findEnemy_lookup _ _ _ _ Hf')|].
    split; assumption.
  - eapply verifier_applyAssignments_cache; eassumption.
Qed.

(** A CRIT packet on the cache empties it, in both implementations; the
    same packet on the drone beside it leaves the cache as it was. *)
Lemma cache_only_crit_witness :
  (exists enemy' enemy2',
     Client.enemies (Client.forEach Client.applyAssignment critOnCache cacheState).1
       !! 1%nat = Some enemy'
     /\ Client.enemy_hp enemy' = 0
     /\ [verifierDrone 2; TurnVerifier.set_enemy_hp verifierCache 0] !! 1%nat
        = Some enemy2'
     /\ TurnVerifier.enemy_hp enemy2' = 0)
  /\ (exists enemy' enemy2',
        Client.enemies (Client.forEach Client.applyAssignment critOnDrone cacheState).1
          !! 1%nat = Some enemy'
        /\ Client.enemy_hp enemy' = 1
        /\ [verifierDrone 0; verifierCache] !! 1%nat = Some enemy2'
        /\ TurnVerifier.enemy_hp enemy2' = 1).
Proof.
  split.
  - destruct (cache_only_crit cacheState
                (Client.forEach Client.applyAssignment critOnCache cacheState).1
                critOnCache "cache-gold" 1%nat cacheGold
                [verifierPacket 220] (verifierPlayer 100 0) (verifierPlayer 100 0)
                [verifierDrone 2; verifierCache]
                [verifierDrone 2; TurnVerifier.set_enemy_hp verifierCache 0]
                verifierCritOnCache 1%nat verifierCache)
      as [(e & Hl & _ & Hh) (e2 & Hl2 & _ & Hh2)].
    + discriminate.
    + discriminate.
    + reflexivity.
    + reflexivity.
    + reflexivity.
    + reflexivity.
    + reflexivity.
    + repeat constructor; unfold TurnVerifier.is_uint; simpl; lia.
    + reflexivity.
    + exists e, e2. repeat split; assumption.
  - destruct (cache_only_crit cacheState
                (Client.forEach Client.applyAssignment critOnDrone cacheState).1
                critOnDrone "cache-gold" 1%nat cacheGold
                [verifierPacket 220] (verifierPlayer 100 0) (verifierPlayer 100 0)
                [verifierDrone 2; verifierCache]
                [verifierDrone 0; verifierCache]
                verifierCritOnDrone 1%nat verifierCache)
      as [(e & Hl & _ & Hh) (e2 & Hl2 & _ & Hh2)].
    + discriminate.
    + discriminate.
    + reflexivity.
    + reflexivity.
    + reflexivity.
    + reflexivity.
    + reflexivity.
    + repeat constructor; unfold TurnVerifier.is_uint; simpl; lia.
    + reflexivity.
    + exists e, e2. repeat split; assumption.
Defined.


(** ** Where the verifier mirrors the client *)

Lemma effectiveValue_mirrored anomaly c v :
  mirrorsPacket anomaly c v ->
  Client.effectiveValue anomaly c = TurnVerifier.value v.
Proof.
  intros (_ & Hv & Hr & Hn). unfold Client.effectiveValue. rewrite Hr, Hv.
  destruct (decide _) as [Hd|]; [contradiction|reflexivity].
Qed.

(** X8: for a packet of COMMON rarity (and no OVERCLOCK bonus) of kind
    HEAL, DEFEND or MISS assigned to the player, the verifier's
    [applyPacketToPlayer] returns the player the client's
    [applyPacketEffect] produces, as long as the hp or shield sum stays
    below 65536; beyond, the verifier reverts where the client goes on. *)
Theorem player_packets_mirrored (state : Client.GameState) (packet : Client.Packet)
    (player : TurnVerifier.Player) (packet2 : TurnVerifier.Packet) :
  mirrorsPlayer (Client.player state) player ->
  mirrorsPacket (Client.anomaly state) packet packet2 ->
  ~ isDamage (Client.packet_type packet) ->
  let overflow :=
    match Client.packet_type packet with
    | HEAL => 2 ^ 16 <=? Client.hp (Client.player state) + Client.packet_value packet
    | DEFEND => 2 ^ 16 <=? Client.shield (Client.player state) + Client.packet_value packet
    | _ => false
    end in
  (Client.applyPacketEffect packet "player" state).2 = Ok tt
  /\ if overflow
     then TurnVerifier.applyPacketToPlayer player packet2
          = TurnVerifier.Reverted TurnVerifier.PanicOverflow
     else exists player',
         TurnVerifier.applyPacketToPlayer player packet2 = TurnVerifier.Return player'
         /\ mirrorsPlayer
              (Client.player (Client.applyPacketEffect packet "player" state).1) player'.
Proof.
  intros (Hhp & Hmh & Hsh) Hm Hnd. pose proof (effectiveValue_mirrored _ _ _ Hm) as Heff.
  destruct Hm as (Ht & Hv & _ & _). cbv zeta.
  unfold Client.applyPacketEffect, TurnVerifier.applyPacketToPlayer,
    TurnVerifier.add_checked. simpl. rewrite Ht, Heff.
  destruct (Client.packet_type packet); simpl.
  - split; [reflexivity|]. eexists. split; [reflexivity|]. repeat split; assumption.
  - exfalso. apply Hnd. left; reflexivity.
  - split; [reflexivity|]. rewrite Hsh, Hv.
    destruct (Z.leb_spec (2 ^ 16) (Client.shield (Client.player state)
                                   + Client.packet_value packet));
      destruct (Z.ltb_spec (Client.shield (Client.player state)
                            + Client.packet_value packet) (2 ^ 16)); try lia.
    + reflexivity.
    + eexists. split; [reflexivity|]. repeat split; simpl; congruence.
  - exfalso. apply Hnd. right; reflexivity.
  - split; [reflexivity|]. rewrite Hhp, Hv.
    destruct (Z.leb_spec (2 ^ 16) (Client.hp (Client.player state)
                                   + Client.packet_value packet));
      destruct (Z.ltb_spec (Client.hp (Client.player state)
                            + Client.packet_value packet) (2 ^ 16)); try lia.
    + reflexivity.
    + eexists. split; [reflexivity|]. repeat split; simpl; try congruence.
      rewrite Hmh.
      destruct (Z.gtb_spec (Client.hp (Client.player state) + Client.packet_value packet)
                  (Client.maxHp (Client.player state))); lia.
Qed.

Lemma player_packets_mirrored_witness :
  exists player',
    TurnVerifier.applyPacketToPlayer (verifierPlayer 95 0) (verifierPacket 250)
    = TurnVerifier.Return player'
    /\ mirrorsPlayer
         (Client.player
            (Client.applyPacketEffect healPacket "player"
               (Client.set_player testState (testPlayer 95 0))).1) player'.
Proof.
  apply (player_packets_mirrored (Client.set_player testState (testPlayer 95 0))
           healPacket (verifierPlayer 95 0) (verifierPacket 250)).
  - repeat split.
  - repeat split. intros [H _]. discriminate H.
  - intros [H|H]; discriminate H.
Defined.


(** X9: for a packet of COMMON rarity (and no OVERCLOCK bonus) assigned
    to an enemy, the verifier's [applyPacketToEnemy] on the mirrored
    enemy gives the mirror of the enemy the client's [applyPacketEffect]
    leaves at that place, immune or not. *)
Theorem enemy_packets_mirrored (state : Client.GameState) (packet : Client.Packet)
    (targetId : string) (i : nat) (enemy : Client.Enemy)
    (enemy2 : TurnVerifier.Enemy) (packet2 : TurnVerifier.Packet) :
  targetId <> "trash"%string -> targetId <> "player"%string ->
  Client.findEnemy targetId (Client.enemies state) = Some (i, enemy) ->
  mirrorsEnemy enemy enemy2 ->
  mirrorsPacket (Client.anomaly state) packet packet2 ->
  (Client.applyPacketEffect packet targetId state).2 = Ok tt
  /\ exists enemy',
      Client.enemies (Client.applyPacketEffect packet targetId state).1 !! i
      = Some enemy'
      /\ mirrorsEnemy enemy' (TurnVerifier.applyPacketToEnemy enemy2 packet2).
Proof.
  intros Ht Hp Hf (Hhp & Hmh & Hd & Ha & Hc) Hm.
  pose proof (effectiveValue_mirrored _ _ _ Hm) as Heff.
  destruct Hm as (Hty & Hv & _ & _).
  destruct (findEnemy_lookup _ _ _ _ Hf) as [Hl _].
  pose proof (lookup_lt_Some _ _ _ Hl) as Hlt.
  unfold Client.applyPacketEffect, TurnVerifier.applyPacketToEnemy.
  apply String.eqb_neq in Ht, Hp. rewrite Ht, Hp, Hf, Hc, Hty, Heff.
  destruct (String.eqb (Client.enemy_type enemy) "CACHE_GOLD") eqn:Hcache;
    destruct (Client.packet_type packet); simpl;
    (split; [reflexivity|]);
    try (exists enemy; split; [exact Hl|]; repeat split; rewrite ?Hcache; assumption);
    try (rewrite list_lookup_insert_eq by exact Hlt; eexists; split; [reflexivity|]).
  - repeat split; simpl; rewrite ?Hcache; assumption.
  - destruct (Z.gtb_spec (TurnVerifier.enemy_hp enemy2) (TurnVerifier.value packet2));
      repeat split; simpl; rewrite ?Hcache; try assumption; lia.
  - destruct (Z.gtb_spec (TurnVerifier.enemy_hp enemy2) (TurnVerifier.value packet2));
      repeat split; simpl; rewrite ?Hcache; try assumption; lia.
Qed.

Lemma enemy_packets_mirrored_witness :
  exists enemy',
    Client.enemies (Client.applyPacketEffect testPacket "enemy-0" testState).1 !! 0%nat
    = Some enemy'
    /\ mirrorsEnemy enemy'
         (TurnVerifier.applyPacketToEnemy (verifierDrone 20) (verifierPacket 100)).
Proof.
  apply (enemy_packets_mirrored testState testPacket "enemy-0" 0 testEnemy
           (verifierDrone 20) (verifierPacket 100)).
  - discriminate.
  - discriminate.
  - reflexivity.
  - repeat split.
  - repeat split. intros [H _]. discriminate H.
Defined.

Lemma applyDamageToPlayer_mirrored (s : Client.GameState) (vp : TurnVerifier.Player) d :
  mirrorsPlayer (Client.player s) vp ->
  0 <= Client.hp (Client.player s) -> 0 <= Client.shield (Client.player s) -> 0 <= d ->
  mirrorsPlayer (Client.player (Client.applyDamageToPlayer d s))
    (TurnVerifier.applyDamageToPlayer vp d)
  /\ 0 <= Client.hp (Client.player (Client.applyDamageToPlayer d s))
  /\ 0 <= Client.shield (Client.player (Client.applyDamageToPlayer d s)).
Proof.
  intros (Hhp & Hmh & Hsh) Hh Hs Hd.
  rewrite client_applyDamageToPlayer_player by assumption.
  rewrite verifier_applyDamageToPlayer_spec by lia.
  rewrite Hhp, Hmh, Hsh.
  destruct (Z.leb_spec d (Client.shield (Client.player s))); simpl;
    repeat split; simpl; lia.
Qed.

Lemma enemy_phase_fold_mirrored (es : list Client.Enemy) (vs : list TurnVerifier.Enemy) :
  Forall2 mirrorsEnemy es vs ->
  Forall (fun e => 0 <= Client.damage e) es ->
  forall (state : Client.GameState) (player : TurnVerifier.Player),
  mirrorsPlayer (Client.player state) player ->
  0 <= Client.hp (Client.player state) -> 0 <= Client.shield (Client.player state) ->
  mirrorsPlayer
    (Client.player
       (fold_left
          (fun s e => match Client.intent e with
                      | Client.IntentATTACK => Client.applyDamageToPlayer (Client.damage e) s
                      | _ => s
                      end)
          (filter (fun e => Client.enemy_hp e > 0) es) state))
    (fold_left
       (fun p e => if (TurnVerifier.enemy_hp e >? 0) && TurnVerifier.isAttacking e
                   then TurnVerifier.applyDamageToPlayer p (TurnVerifier.damage e)
                   else p)
       vs player).
Proof.
  induction 1 as [|e v es vs Hev _ IH]; intros Hd state player Hp Hh Hs;
    [exact Hp|].
  apply Forall_cons in Hd as [Hde Hd].
  destruct Hev as (Hhp & _ & Hdm & Hat & _). rewrite filter_cons. simpl.
  rewrite Hhp, Hat, Hdm.
  destruct (decide (Client.enemy_hp e > 0)) as [Halive|Hdead].
  - destruct (Z.gtb_spec (Client.enemy_hp e) 0); [|lia]. simpl.
    destruct (Client.intent e); simpl; try (apply IH; assumption).
    destruct (applyDamageToPlayer_mirrored state player (Client.damage e) Hp Hh Hs Hde)
      as (Hp' & Hh' & Hs').
    apply IH; assumption.
  - destruct (Z.gtb_spec (Client.enemy_hp e) 0); [lia|]. simpl.
    apply IH; assumption.
Qed.

(** X10: on mirrored players and enemies with nothing negative and at
    most 255 enemies, the verifier's [executeEnemyPhase] returns the
    mirror of the player the client's [executeEnemyPhase] leaves. *)
Theorem enemy_phase_mirrored (state : Client.GameState)
    (player : TurnVerifier.Player) (enemies : list TurnVerifier.Enemy) :
  mirrorsPlayer (Client.player state) player ->
  Forall2 mirrorsEnemy (Client.enemies state) enemies ->
  0 <= Client.hp (Client.player state) -> 0 <= Client.shield (Client.player state) ->
  Forall (fun e => 0 <= Client.damage e) (Client.enemies state) ->
  Z.of_nat (length enemies) <= 255 ->
  exists player',
    TurnVerifier.executeEnemyPhase player enemies = TurnVerifier.Return player'
    /\ mirrorsPlayer (Client.player (Client.executeEnemyPhase state)) player'.
Proof.
  intros Hp Hes Hh Hs Hd Hlen.
  unfold TurnVerifier.executeEnemyPhase, TurnVerifier.uint8_loop, Client.executeEnemyPhase.
  destruct (Z.leb_spec (Z.of_nat (length enemies)) 255); [|lia].
  eexists. split; [reflexivity|].
  apply enemy_phase_fold_mirrored; assumption.
Qed.

Lemma enemy_phase_mirrored_witness :
  exists player',
    TurnVerifier.executeEnemyPhase (verifierPlayer 100 3) [verifierDrone 20]
    = TurnVerifier.Return player'
    /\ mirrorsPlayer
         (Client.player
            (Client.executeEnemyPhase (Client.set_player testState (testPlayer 100 3))))
         player'.
Proof.
  apply (enemy_phase_mirrored (Client.set_player testState (testPlayer 100 3))
           (verifierPlayer 100 3) [verifierDrone 20]).
  - repeat split.
  - repeat constructor.
  - simpl. lia.
  - simpl. lia.
  - repeat constructor. simpl. lia.
  - simpl. lia.
Defined.

(** X11: on mirrored players and enemies with a non-negative player hp
    and at most 255 enemies, the verifier's [checkTurnResult] returns the
    result of the client's. *)
Theorem checkTurnResult_mirrored (state : Client.GameState)
    (player : TurnVerifier.Player) (enemies : list TurnVerifier.Enemy) :
  mirrorsPlayer (Client.player state) player ->
  Forall2 mirrorsEnemy (Client.enemies state) enemies ->
  0 <= Client.hp (Client.player state) ->
  Z.of_nat (length enemies) <= 255 ->
  TurnVerifier.checkTurnResult player enemies
  = TurnVerifier.Return (Client.checkTurnResult state).
Proof.
  intros (Hhp & _) Hes Hh Hlen.
  unfold TurnVerifier.checkTurnResult, Client.checkTurnResult, TurnVerifier.uint8_loop.
  rewrite Hhp.
  destruct (Z.eqb_spec (Client.hp (Client.player state)) 0);
    destruct (Z.leb_spec (Client.hp (Client.player state)) 0); try lia; [reflexivity|].
  rewrite firstn_all2 by lia.
  destruct (Z.leb_spec (Z.of_nat (length enemies)) 255); [|lia].
  assert (Hex : existsb (fun e => TurnVerifier.enemy_hp e >? 0) enemies
                = negb (forallb (fun e => Client.enemy_hp e <=? 0) (Client.enemies state))).
  { clear -Hes. induction Hes as [|e v es vs (Hhp & _) _ IH]; [reflexivity|].
    simpl. rewrite IH, Hhp, negb_andb. f_equal.
    rewrite Z.gtb_ltb, Z.ltb_antisym. reflexivity. }
  rewrite Hex.
  destruct (Client.enemies state) as [|e es]; [reflexivity|].
  simpl. destruct (_ && _); reflexivity.
Qed.

Lemma checkTurnResult_mirrored_witness :
  TurnVerifier.checkTurnResult (verifierPlayer 100 0) [verifierDrone 20]
  = TurnVerifier.Return (Client.checkTurnResult testState).
Proof.
  apply (checkTurnResult_mirrored testState (verifierPlayer 100 0) [verifierDrone 20]).
  - repeat split.
  - repeat constructor.
  - simpl. lia.
  - simpl. lia.
Defined.


(** ** The verifier's turn as a whole *)

Lemma awardKills_same (es : list TurnVerifier.Enemy) (score : Z) :
  TurnVerifier.awardKills es es score = TurnVerifier.Return score.
Proof.
  induction es as [|e es IH]; [reflexivity|]. simpl.
  destruct (Z.gtb_spec (TurnVerifier.enemy_hp e) 0);
    destruct (Z.eqb_spec (TurnVerifier.enemy_hp e) 0); try lia; simpl; exact IH.
Qed.

(** X12: the score the verifier's [resolveTurn] returns is the initial
    score plus the victory bonus (500, and 200 more at full hp) and
    nothing else: the kill awards compare each enemy with itself, since
    the copy loop shares the structs, so no kill is ever counted. *)
Theorem verifier_score_without_kills (levelSeed : list Z)
    (initialPlayer : TurnVerifier.Player) (initialEnemies : list TurnVerifier.Enemy)
    (turn : Z) (assignments : list TurnVerifier.Assignment) (initialScore : Z)
    (newPlayer : TurnVerifier.Player) (newEnemies : list TurnVerifier.Enemy)
    (result : TurnResult) (newScore : Z) :
  TurnVerifier.resolveTurn levelSeed initialPlayer initialEnemies turn assignments
    initialScore = TurnVerifier.Return (newPlayer, newEnemies, result, newScore) ->
  newScore = initialScore + victoryBonus newPlayer result.
Proof.
  unfold TurnVerifier.resolveTurn.
  destruct (negb _); [discriminate|].
  destruct (negb _); [discriminate|].
  destruct (TurnVerifier.applyAssignments _ _ _) as [[p1 es1]|]; simpl; [|discriminate].
  rewrite awardKills_same. simpl.
  destruct (TurnVerifier.checkTurnResult p1 es1) as [r1|]; simpl; [|discriminate].
  assert (Hend : forall p r,
    TurnVerifier.bindO
      (if decide (r = VICTORY)
       then TurnVerifier.bindO (TurnVerifier.add_checked 32 initialScore 500)
              (fun sc => if TurnVerifier.hp p =? TurnVerifier.maxHp p
                         then TurnVerifier.add_checked 32 sc 200
                         else TurnVerifier.Return sc)
       else TurnVerifier.Return initialScore)
      (fun sc => TurnVerifier.Return (p, es1, r, sc))
    = TurnVerifier.Return (newPlayer, newEnemies, result, newScore) ->
    newScore = initialScore + victoryBonus newPlayer result).
  { intros p r. unfold victoryBonus, TurnVerifier.add_checked.
    destruct (decide (r = VICTORY)) as [->|Hr]; simpl.
    - destruct (initialScore + 500 <? 2 ^ 32); simpl; [|discriminate].
      destruct (TurnVerifier.hp p =? TurnVerifier.maxHp p) eqn:Hfull.
      + destruct (initialScore + 500 + 200 <? 2 ^ 32); simpl; [|discriminate].
        intros [= <- <- <- <-]. rewrite Hfull. lia.
      + simpl. intros [= <- <- <- <-]. rewrite Hfull. lia.
    - intros [= <- <- <- <-]. destruct r; try contradiction; lia. }
  destruct (decide (r1 = CONTINUE)); simpl.
  - destruct (TurnVerifier.executeEnemyPhase p1 es1) as [p2|]; simpl; [|discriminate].
    destruct (TurnVerifier.checkTurnResult p2 es1) as [r2|]; simpl; [|discriminate].
    apply Hend.
  - apply Hend.
Qed.

Lemma verifier_score_without_kills_witness :
  700 = 0 + victoryBonus (verifierPlayer 100 0) VICTORY.
Proof.
  apply (verifier_score_without_kills zeroSeed (verifierPlayer 100 0)
           [verifierDrone 20] 1 killAssignments 0 (verifierPlayer 100 0)
           [verifierDrone 0] VICTORY 700).
  vm_compute. reflexivity.
Defined.


Lemma verifierWeakened_refl e : 0 <= TurnVerifier.enemy_hp e -> verifierWeakened e e.
Proof. intros H. repeat split; try reflexivity; lia. Qed.

Lemma verifierWeakened_trans e1 e2 e3 :
  verifierWeakened e1 e2 -> verifierWeakened e2 e3 -> verifierWeakened e1 e3.
Proof.
  intros (? & ? & ? & ? & ? & ?) (? & ? & ? & ? & ? & ?).
  repeat split; try congruence; lia.
Qed.

Lemma deriveHand_values levelSeed turn packet :
  In packet (TurnVerifier.deriveHand levelSeed turn) ->
  0 <= TurnVerifier.value packet.
Proof.
  unfold TurnVerifier.deriveHand. cbv zeta. intros Hin.
  apply in_map_iff in Hin as (i & <- & _). simpl.
  destruct (TurnVerifier.mapByteToPacketType _); simpl;
    unfold TurnVerifier.VALUE_MISS, TurnVerifier.VALUE_ATTACK, TurnVerifier.VALUE_DEFEND,
      TurnVerifier.VALUE_CRIT, TurnVerifier.VALUE_HEAL; lia.
Qed.

Lemma applyPacketToEnemy_weakened e packet :
  0 <= TurnVerifier.enemy_hp e -> 0 <= TurnVerifier.value packet ->
  verifierWeakened e (TurnVerifier.applyPacketToEnemy e packet).
Proof.
  intros Hhp Hv. unfold TurnVerifier.applyPacketToEnemy.
  destruct (TurnVerifier.isCache e) eqn:Hc;
    destruct (TurnVerifier.packetType packet);
    try (apply verifierWeakened_refl; assumption);
    try destruct (Z.gtb_spec (TurnVerifier.enemy_hp e) (TurnVerifier.value packet));
    repeat split; simpl; try assumption; try reflexivity; lia.
Qed.

Lemma applyPacketToPlayer_maxHp p packet p' :
  TurnVerifier.applyPacketToPlayer p packet = TurnVerifier.Return p' ->
  TurnVerifier.maxHp p' = TurnVerifier.maxHp p.
Proof.
  unfold TurnVerifier.applyPacketToPlayer, TurnVerifier.add_checked.
  destruct (TurnVerifier.packetType packet); simpl;
    try (intros [= <-]; reflexivity);
    destruct (_ <? _); simpl; try discriminate; intros [= <-]; reflexivity.
Qed.

Lemma verifier_applyDamageToPlayer_maxHp p d :
  TurnVerifier.maxHp (TurnVerifier.applyDamageToPlayer p d) = TurnVerifier.maxHp p.
Proof.
  unfold TurnVerifier.applyDamageToPlayer. cbv zeta.
  repeat match goal with |- context [if ?c then _ else _] => destruct c end;
    reflexivity.
Qed.

Lemma verifier_executeEnemyPhase_maxHp p es p' :
  TurnVerifier.executeEnemyPhase p es = TurnVerifier.Return p' ->
  TurnVerifier.maxHp p' = TurnVerifier.maxHp p.
Proof.
  unfold TurnVerifier.executeEnemyPhase.
  destruct (TurnVerifier.uint8_loop es); [|discriminate]. intros [= <-].
  revert p. induction es as [|e es IH]; intros p; [reflexivity|]. simpl.
  rewrite IH. destruct (_ && _); [apply verifier_applyDamageToPlayer_maxHp|reflexivity].
Qed.

Lemma applyAssignments_weakened hand assignments :
  Forall (fun packet => 0 <= TurnVerifier.value packet) hand ->
  forall p es p' es',
  Forall (fun e => 0 <= TurnVerifier.enemy_hp e) es ->
  TurnVerifier.applyAssignments hand (p, es) assignments = TurnVerifier.Return (p', es') ->
  TurnVerifier.maxHp p' = TurnVerifier.maxHp p /\ Forall2 verifierWeakened es es'.
Proof.
  intros Hhand. induction assignments as [|a rest IH]; intros p es p' es' Hes; simpl.
  - intros [= <- <-]. split; [reflexivity|].
    induction Hes; constructor; [apply verifierWeakened_refl; assumption|assumption].
  - destruct (nth_error hand (Z.to_nat (TurnVerifier.packetIndex a)))
      as [packet|] eqn:Hpk; [|discriminate].
    assert (Hv : 0 <= TurnVerifier.value packet).
    { rewrite List.Forall_forall in Hhand. apply Hhand. eapply nth_error_In, Hpk. }
    destruct (TurnVerifier.targetType a =? 0); [apply IH, Hes|].
    destruct (TurnVerifier.targetType a =? 1).
    + destruct (TurnVerifier.applyPacketToPlayer p packet) as [p1|] eqn:Hp1;
        simpl; [|discriminate].
      intros Hrest. destruct (IH _ _ _ _ Hes Hrest) as [Hm Hw].
      split; [|exact Hw]. rewrite Hm. eapply applyPacketToPlayer_maxHp, Hp1.
    + destruct (nth_error es (Z.to_nat (TurnVerifier.targetType a - 2)))
        as [e|] eqn:He; [|discriminate]. simpl.
      set (n := Z.to_nat (TurnVerifier.targetType a - 2)) in *. clearbody n.
      assert (He0 : 0 <= TurnVerifier.enemy_hp e).
      { rewrite List.Forall_forall in Hes. apply Hes. eapply nth_error_In, He. }
      pose proof (applyPacketToEnemy_weakened e packet He0 Hv) as Hw1.
      intros Hrest.
      assert (Hes1 : Forall (fun e => 0 <= TurnVerifier.enemy_hp e)
                       (<[n := TurnVerifier.applyPacketToEnemy e packet]> es)).
      { apply Forall_insert; [exact Hes|]. destruct Hw1 as (_ & _ & _ & _ & _ & ?). lia. }
      destruct (IH _ _ _ _ Hes1 Hrest) as [Hm Hw]. split; [exact Hm|].
      assert (Hstep : Forall2 verifierWeakened es
                        (<[n := TurnVerifier.applyPacketToEnemy e packet]> es)).
      { clear -Hes He Hw1. revert n He.
        induction Hes as [|x l Hx Hl IHl]; intros [|n] He; simpl in *;
          try discriminate.
        - injection He as ->. constructor; [exact Hw1|].
          clear -Hl. induction Hl; constructor;
            [apply verifierWeakened_refl; assumption|assumption].
        - constructor; [apply verifierWeakened_refl; assumption|]. apply IHl, He. }
      clear -Hstep Hw. revert es' Hw.
      induction Hstep as [|x y l l' Hxy _ IHl]; intros es' Hw;
        inversion Hw; subst; constructor;
        [eapply verifierWeakened_trans; eassumption|apply IHl; assumption].
Qed.

(** X13: when no enemy hp is negative, the verifier's [resolveTurn]
    returns the enemies it was given, one for one and in place, each
    with every field but hp unchanged and with an hp between 0 and what
    it was (dead enemies stay in the array), and a player with the
    initial maxHp. *)
Theorem verifier_enemies_in_place (levelSeed : list Z)
    (initialPlayer : TurnVerifier.Player) (initialEnemies : list TurnVerifier.Enemy)
    (turn : Z) (assignments : list TurnVerifier.Assignment) (initialScore : Z)
    (newPlayer : TurnVerifier.Player) (newEnemies : list TurnVerifier.Enemy)
    (result : TurnResult) (newScore : Z) :
  Forall (fun e => 0 <= TurnVerifier.enemy_hp e) initialEnemies ->
  TurnVerifier.resolveTurn levelSeed initialPlayer initialEnemies turn assignments
    initialScore = TurnVerifier.Return (newPlayer, newEnemies, result, newScore) ->
  Forall2 verifierWeakened initialEnemies newEnemies
  /\ TurnVerifier.maxHp newPlayer = TurnVerifier.maxHp initialPlayer.
Proof.
  intros Hes. unfold TurnVerifier.resolveTurn.
  destruct (negb _); [discriminate|].
  destruct (negb _); [discriminate|].
  destruct (TurnVerifier.applyAssignments _ _ _) as [[p1 es1]|] eqn:Happly;
    simpl; [|discriminate].
  apply applyAssignments_weakened in Happly as [Hm Hw];
    [|apply List.Forall_forall; intros packet; apply deriveHand_values|exact Hes].
  rewrite awardKills_same. simpl.
  destruct (TurnVerifier.checkTurnResult p1 es1) as [r1|]; simpl; [|discriminate].
  assert (Hend : forall p r sc0,
    TurnVerifier.bindO sc0 (fun sc => TurnVerifier.Return (p, es1, r, sc))
    = TurnVerifier.Return (newPlayer, newEnemies, result, newScore) ->
    newEnemies = es1 /\ newPlayer = p).
  { intros p r [sc|]; simpl; [|discriminate]. intros [= <- <- <- <-]. split; reflexivity. }
  destruct (decide (r1 = CONTINUE)); simpl.
  - destruct (TurnVerifier.executeEnemyPhase p1 es1) as [p2|] eqn:Hphase;
      simpl; [|discriminate].
    destruct (TurnVerifier.checkTurnResult p2 es1) as [r2|]; simpl; [|discriminate].
    intros Hr. apply Hend in Hr as [-> ->]. split; [exact Hw|].
    rewrite <- Hm. eapply verifier_executeEnemyPhase_maxHp, Hphase.
  - intros Hr. apply Hend in Hr as [-> ->]. split; [exact Hw|exact Hm].
Qed.

Lemma verifier_enemies_in_place_witness :
  Forall2 verifierWeakened [verifierDrone 20] [verifierDrone 0]
  /\ TurnVerifier.maxHp (verifierPlayer 100 0) = TurnVerifier.maxHp (verifierPlayer 100 0).
Proof.
  apply (verifier_enemies_in_place zeroSeed (verifierPlayer 100 0)
           [verifierDrone 20] 1 killAssignments 0 (verifierPlayer 100 0)
           [verifierDrone 0] VICTORY 700).
  - repeat constructor. simpl. lia.
  - vm_compute. reflexivity.
Defined.


(** ** The preimage of the state hash *)

Lemma encode_uint_length n v : length (TurnVerifier.encode_uint n v) = n.
Proof. induction n as [|n IH]; simpl; [reflexivity|]. rewrite IH. reflexivity. Qed.

Lemma decode_encode_uint n v :
  decode_uint (TurnVerifier.encode_uint n v) = v mod 256 ^ Z.of_nat n.
Proof.
  unfold decode_uint.
  assert (H : forall acc,
    fold_left (fun acc b => acc * 256 + b) (TurnVerifier.encode_uint n v) acc
    = acc * 256 ^ Z.of_nat n + v mod 256 ^ Z.of_nat n).
  { induction n as [|n IH]; intros acc.
    - simpl. rewrite Z.mod_1_r. lia.
    - simpl TurnVerifier.encode_uint. simpl fold_left. rewrite IH.
      rewrite Nat2Z.inj_succ, Z.pow_succ_r by lia.
      rewrite (Z.mul_comm 256 (256 ^ Z.of_nat n)).
      rewrite (Z.rem_mul_r v (256 ^ Z.of_nat n) 256) by lia. lia. }
  rewrite H. lia.
Qed.

Lemma encode_uint_inj n v v' :
  0 <= v < 256 ^ Z.of_nat n -> 0 <= v' < 256 ^ Z.of_nat n ->
  TurnVerifier.encode_uint n v = TurnVerifier.encode_uint n v' -> v = v'.
Proof.
  intros Hv Hv' Heq. apply (f_equal decode_uint) in Heq.
  rewrite !decode_encode_uint, !Z.mod_small in Heq by assumption. exact Heq.
Qed.

Lemma encode_bool_inj b b' :
  TurnVerifier.encode_bool b = TurnVerifier.encode_bool b' -> b = b'.
Proof.
  unfold TurnVerifier.encode_bool. destruct b, b'; intros [=]; reflexivity.
Qed.

Ltac split_fields H :=
  repeat (apply app_inj_1 in H as [?Hf H];
          [|rewrite ?encode_uint_length; reflexivity]).

Lemma encodeEnemy_inj e e' :
  encodableEnemy e -> encodableEnemy e' ->
  TurnVerifier.encodeEnemy e = TurnVerifier.encodeEnemy e' -> e = e'.
Proof.
  intros (Hi & Hh & Hm & Hd) (Hi' & Hh' & Hm' & Hd') Heq.
  unfold TurnVerifier.encodeEnemy in Heq. split_fields Heq.
  apply encode_uint_inj in Hf, Hf0, Hf1, Hf2; try assumption.
  apply encode_bool_inj in Hf3, Heq.
  destruct e, e'. simpl in *. congruence.
Qed.

Lemma encodeEnemy_length e : length (TurnVerifier.encodeEnemy e) = 8%nat.
Proof.
  unfold TurnVerifier.encodeEnemy. rewrite !length_app, !encode_uint_length. reflexivity.
Qed.

Lemma encodeEnemies_inj es es' :
  Forall encodableEnemy es -> Forall encodableEnemy es' ->
  concat (map TurnVerifier.encodeEnemy es) = concat (map TurnVerifier.encodeEnemy es') ->
  es = es'.
Proof.
  intros Hes. revert es'.
  induction Hes as [|e es He _ IH]; intros [|e' es'] Hes' Heq;
    cbn [map concat] in Heq.
  - reflexivity.
  - apply (f_equal (@length Z)) in Heq.
    rewrite length_app, encodeEnemy_length in Heq. discriminate Heq.
  - apply (f_equal (@length Z)) in Heq.
    rewrite length_app, encodeEnemy_length in Heq. discriminate Heq.
  - apply Forall_cons in Hes' as [He' Hes'].
    apply app_inj_1 in Heq as [H1 H2]; [|rewrite !encodeEnemy_length; reflexivity].
    f_equal; [apply encodeEnemy_inj; assumption|apply IH; assumption].
Qed.

(** X14: the bytes [computeStateHash] hashes determine the state: two
    states whose values fit their Solidity types and whose packed
    encodings are equal have the same player, the same enemies in the
    same order, the same turn and the same score. *)
Theorem statePreimage_injective (player player' : TurnVerifier.Player)
    (enemies enemies' : list TurnVerifier.Enemy) (turn turn' score score' : Z) :
  encodableState player enemies turn score ->
  encodableState player' enemies' turn' score' ->
  TurnVerifier.statePreimage player enemies turn score
  = TurnVerifier.statePreimage player' enemies' turn' score' ->
  player = player' /\ enemies = enemies' /\ turn = turn' /\ score = score'.
Proof.
  intros ((Hh & Hm & Hs) & Hes & Ht & Hsc) ((Hh' & Hm' & Hs') & Hes' & Ht' & Hsc') Heq.
  rewrite !statePreimage_array_order in Heq. split_fields Heq.
  apply encode_uint_inj in Hf, Hf0, Hf1, Hf2, Hf3; try assumption.
  apply encodeEnemies_inj in Heq; try assumption.
  destruct player, player'. simpl in *. subst. repeat split.
Qed.

Lemma statePreimage_injective_witness :
  verifierPlayer 100 0 = verifierPlayer 100 0
  /\ [verifierDrone 20] = [verifierDrone 20] /\ 1 = 1 /\ 0 = 0.
Proof.
  apply (statePreimage_injective (verifierPlayer 100 0) (verifierPlayer 100 0)
           [verifierDrone 20] [verifierDrone 20] 1 1 0 0).
  - unfold encodableState, encodablePlayer, encodableEnemy, TurnVerifier.is_uint.
    simpl. repeat split; try lia. repeat constructor; simpl; lia.
  - unfold encodableState, encodablePlayer, encodableEnemy, TurnVerifier.is_uint.
    simpl. repeat split; try lia. repeat constructor; simpl; lia.
  - reflexivity.
Defined.


(** ** Hex strings *)

Lemma hexDigit_cases (upper : bool) d :
  0 <= d <= 15 ->
  Client.isHexDigit (hexDigit upper d) = true
  /\ Client.hexDigitValue (hexDigit upper d) = d
  /\ hexDigit upper d <> "x"%char.
Proof.
  intros Hd.
  assert (H : d = 0 \/ d = 1 \/ d = 2 \/ d = 3 \/ d = 4 \/ d = 5 \/ d = 6 \/ d = 7
              \/ d = 8 \/ d = 9 \/ d = 10 \/ d = 11 \/ d = 12 \/ d = 13
              \/ d = 14 \/ d = 15) by lia.
  destruct upper;
    repeat (destruct H as [-> | H]; [repeat split; discriminate|]);
    subst d; repeat split; discriminate.
Qed.

Lemma hexDigits_no_prefix (upper : bool) hi lo (rest s : string) :
  0 <= hi <= 15 -> 0 <= lo <= 15 ->
  s = String (hexDigit upper hi) (String (hexDigit upper lo) rest) ->
  match s with
  | String "0" (String "x" rest') => rest'
  | _ => s
  end = s.
Proof.
  intros Hhi Hlo ->.
  assert (H : hi = 0 \/ 1 <= hi <= 15) by lia.
  destruct H as [-> | H].
  - assert (H : lo = 0 \/ lo = 1 \/ lo = 2 \/ lo = 3 \/ lo = 4 \/ lo = 5 \/ lo = 6
                \/ lo = 7 \/ lo = 8 \/ lo = 9 \/ lo = 10 \/ lo = 11 \/ lo = 12
                \/ lo = 13 \/ lo = 14 \/ lo = 15) by lia.
    destruct upper;
      repeat (destruct H as [-> | H]; [reflexivity|]); subst lo; reflexivity.
  - assert (H' : hi = 1 \/ hi = 2 \/ hi = 3 \/ hi = 4 \/ hi = 5 \/ hi = 6
                 \/ hi = 7 \/ hi = 8 \/ hi = 9 \/ hi = 10 \/ hi = 11 \/ hi = 12
                 \/ hi = 13 \/ hi = 14 \/ hi = 15) by lia.
    clear H Hhi. generalize (hexDigit upper lo). intros c.
    destruct upper;
      repeat (destruct H' as [-> | H']; [reflexivity|]); subst hi; reflexivity.
Qed.

Lemma renderHex_digits (upper : bool) bs :
  Forall isByte bs ->
  let cs := String.list_ascii_of_string (fold_right (hexByte upper) EmptyString bs) in
  forallb Client.isHexDigit cs = true
  /\ Nat.even (length cs) = true
  /\ Client.parsePairs cs = bs.
Proof.
  induction 1 as [|b bs Hb _ (IH1 & IH2 & IH3)]; [repeat split|].
  unfold isByte in Hb.
  destruct (hexDigit_cases upper (b / 16)) as (Hhi1 & Hhi2 & _).
  { split; [apply Z.div_pos; lia | apply Z.lt_succ_r, Z.div_lt_upper_bound; lia]. }
  destruct (hexDigit_cases upper (b mod 16)) as (Hlo1 & Hlo2 & _).
  { pose proof (Z.mod_pos_bound b 16). lia. }
  cbn [fold_right hexByte String.list_ascii_of_string].
  split; [|split].
  - cbn [forallb]. rewrite Hhi1, Hlo1. exact IH1.
  - exact IH2.
  - cbn [Client.parsePairs]. rewrite Hhi2, Hlo2, IH3. f_equal.
    rewrite (Z.div_mod b 16) at 3 by lia. reflexivity.
Qed.

Lemma hexToBytes_body (hex : string) :
  Client.hexToBytes hex
  = if negb (forallb Client.isHexDigit (hexBody hex)) then Throw (InvalidHex hex)
    else Ok (Client.parsePairs
               (if Nat.even (length (hexBody hex)) then hexBody hex
                else "0"%char :: hexBody hex)).
Proof. reflexivity. Qed.

Lemma hexBody_renderHex (upper prefixed : bool) (bs : list Z) :
  Forall isByte bs ->
  hexBody (renderHex upper prefixed bs)
  = String.list_ascii_of_string (fold_right (hexByte upper) EmptyString bs).
Proof.
  intros Hbs. unfold hexBody, renderHex. f_equal. destruct prefixed; [reflexivity|].
  change (String.append EmptyString ?s) with s.
  destruct Hbs as [|b bs Hb _]; [reflexivity|].
  unfold isByte in Hb.
  assert (Hhi : 0 <= b / 16 <= 15).
  { split; [apply Z.div_pos; lia | apply Z.lt_succ_r, Z.div_lt_upper_bound; lia]. }
  assert (Hlo : 0 <= b mod 16 <= 15).
  { pose proof (Z.mod_pos_bound b 16). lia. }
  exact (hexDigits_no_prefix upper (b / 16) (b mod 16)
           (fold_right (hexByte upper) EmptyString bs) _ Hhi Hlo eq_refl).
Qed.

Lemma hexToBytes_renderHex (upper prefixed : bool) (bs : list Z) :
  Forall isByte bs ->
  Client.hexToBytes (renderHex upper prefixed bs) = Ok bs.
Proof.
  intros Hbs. destruct (renderHex_digits upper bs Hbs) as (H1 & H2 & H3).
  cbv zeta in H1, H2, H3.
  rewrite hexToBytes_body, hexBody_renderHex by exact Hbs.
  rewrite H1, H2. simpl. rewrite H3. reflexivity.
Qed.

(** X15: [hexToBytes] reads back any byte string from its hex
    rendering, in upper case (as [byteToHex] writes a packet's hexValue)
    or lower case (as the digest of [deriveTurnSeed] is written), with
    or without the [0x] prefix. *)
Theorem hexToBytes_reads_back (upper prefixed : bool) (bs : list Z) :
  Forall isByte bs ->
  Client.hexToBytes (renderHex upper prefixed bs) = Ok bs.
Proof. apply hexToBytes_renderHex. Qed.

Lemma hexToBytes_reads_back_witness :
  Client.hexToBytes (renderHex true false [250; 0; 15]) = Ok [250; 0; 15].
Proof.
  apply (hexToBytes_reads_back true false [250; 0; 15]).
  repeat constructor; unfold isByte; lia.
Defined.

Lemma parsePairs_bytes cs :
  forallb Client.isHexDigit cs = true ->
  Forall isByte (Client.parsePairs cs)
  /\ length (Client.parsePairs cs) = Nat.div2 (length cs).
Proof.
  assert (Hdigit : forall c, Client.isHexDigit c = true ->
                             0 <= Client.hexDigitValue c <= 15).
  { intros c. unfold Client.isHexDigit, Client.hexDigitValue. cbv zeta.
    generalize (Z.of_nat (Ascii.nat_of_ascii c)). intros n Hn.
    destruct (Z.leb_spec 48 n), (Z.leb_spec n 57), (Z.leb_spec 97 n),
      (Z.leb_spec n 102), (Z.leb_spec 65 n), (Z.leb_spec n 70);
      simpl in Hn; try discriminate; lia. }
  revert cs.
  fix IH 1. intros [|hi [|lo rest]] H; simpl.
  - split; [constructor|reflexivity].
  - split; [constructor|reflexivity].
  - simpl in H. apply andb_prop in H as [Hhi H]. apply andb_prop in H as [Hlo H].
    destruct (IH rest H) as [IH1 IH2]. split.
    + constructor; [|exact IH1].
      apply Hdigit in Hhi, Hlo. unfold isByte. lia.
    + rewrite IH2. reflexivity.
Qed.

Lemma div2_succ_even (n : nat) : Nat.even n = true -> Nat.div2 (S n) = Nat.div2 n.
Proof.
  revert n. fix IH 1. intros [|[|n]] H; [reflexivity|discriminate|].
  change (S (Nat.div2 (S n)) = S (Nat.div2 n)). f_equal. apply IH, H.
Qed.

(** X16: [hexToBytes] throws exactly when a character after the
    optional [0x] prefix is not a hex digit, and the error carries the
    whole input; otherwise it returns bytes in 0..255, one per two
    characters, an odd count being rounded up (a leading 0 is added). *)
Theorem hexToBytes_domain (hex : string) :
  (forallb Client.isHexDigit (hexBody hex) = false
   /\ Client.hexToBytes hex = Throw (InvalidHex hex))
  \/ (forallb Client.isHexDigit (hexBody hex) = true
      /\ exists bytes, Client.hexToBytes hex = Ok bytes
           /\ Forall isByte bytes
           /\ length bytes = Nat.div2 (S (length (hexBody hex)))).
Proof.
  rewrite hexToBytes_body.
  destruct (forallb Client.isHexDigit (hexBody hex)) eqn:Hall; simpl;
    [right|left; split; reflexivity].
  split; [reflexivity|]. eexists. split; [reflexivity|].
  destruct (Nat.even (length (hexBody hex))) eqn:Heven.
  - destruct (parsePairs_bytes _ Hall) as [Hb Hl]. split; [exact Hb|].
    rewrite Hl. symmetry. apply div2_succ_even, Heven.
  - assert (Hall' : forallb Client.isHexDigit ("0"%char :: hexBody hex) = true).
    { simpl. exact Hall. }
    destruct (parsePairs_bytes _ Hall') as [Hb Hl]. split; [exact Hb|].
    rewrite Hl. reflexivity.
Qed.


(** ** The hand the client derives *)

Lemma mapByteToPacket_packetFrom (b i rarityByte : Z) :
  isByte b ->
  exists p, Client.mapByteToPacket b i rarityByte = Ok p /\ packetFrom b i p.
Proof.
  intros Hb. unfold Client.mapByteToPacket.
  destruct (Client.mapByteToPacketType b) as [type|e] eqn:Htype.
  - eexists. split; [reflexivity|].
    split; [reflexivity|]. split; [reflexivity|]. split; [exact Htype|].
    split; [reflexivity|].
    apply (hexToBytes_renderHex true true [b]). constructor; [exact Hb|constructor].
  - exfalso. unfold Client.mapByteToPacketType, isByte in *.
    destruct (Z.ltb_spec b 0); [lia|]. rewrite Z.gtb_ltb in Htype.
    destruct (Z.ltb_spec 255 b); [lia|]. simpl in Htype.
    repeat match type of Htype with
           | (if ?c then _ else _) = _ => destruct c; try discriminate Htype
           end.
Qed.

Lemma mapM_R_Forall2 {A B} (f : A -> Result B) (P : A -> B -> Prop) (l : list A) :
  (forall a, In a l -> exists b, f a = Ok b /\ P a b) ->
  exists bs, mapM_R f l = Ok bs /\ Forall2 P l bs.
Proof.
  induction l as [|a l IH]; intros Hf; simpl.
  - exists []. split; [reflexivity|constructor].
  - destruct (Hf a) as (b & -> & Hb); [left; reflexivity|].
    destruct IH as (bs & -> & Hbs); [intros a' Ha'; apply Hf; right; exact Ha'|].
    exists (b :: bs). split; [reflexivity|constructor; assumption].
Qed.

Lemma derivePackets_wellformed (levelSeed : list Z) (turn : Z) :
  1 <= turn ->
  exists hand,
    Client.derivePacketsFromSeed levelSeed turn = Ok hand
    /\ map Client.packet_id (Client.packets hand)
       = map (fun i => String.append "packet-" (decimal i)) (indices (5 + turn mod 3))
    /\ NoDup (map Client.packet_id (Client.packets hand))
    /\ Forall wellFormedPacket (Client.packets hand).
Proof.
  intros Hturn. unfold Client.derivePacketsFromSeed.
  rewrite client_calculatePacketCount_valid by exact Hturn. simpl bindR.
  destruct (hexToBytes_deriveTurnSeed levelSeed turn)
    as (seedBytes & -> & _ & Hlen & Hbytes).
  simpl bindR. rewrite Hlen. change (Z.of_nat 32) with 32.
  fold (indices (5 + turn mod 3)).
  destruct (mapM_R_Forall2
              (fun i => Client.mapByteToPacket
                          (Client.at_index seedBytes (Z.rem (i * 2) 32)) i
                          (Client.at_index seedBytes (Z.rem (i * 2 + 1) 32)))
              (fun i p => packetFrom (Client.at_index seedBytes (Z.rem (i * 2) 32)) i p
                          /\ isByte (Client.byteValue p))
              (indices (5 + turn mod 3)))
    as (ps & Hps & Hall).
  { intros i _.
    destruct (mapByteToPacket_packetFrom
                (Client.at_index seedBytes (Z.rem (i * 2) 32)) i
                (Client.at_index seedBytes (Z.rem (i * 2 + 1) 32)))
      as (p & Hp & Hfrom); [apply nth_isByte, Hbytes|].
    exists p. split; [exact Hp|]. split; [exact Hfrom|].
    destruct Hfrom as (_ & -> & _). apply nth_isByte, Hbytes. }
  cbv beta zeta. rewrite Hps. simpl bindR. eexists. split; [reflexivity|].
  simpl Client.packets.
  assert (Hids : map Client.packet_id ps
                 = map (fun i => String.append "packet-" (decimal i))
                     (indices (5 + turn mod 3))).
  { clear -Hall. induction Hall as [|i p l ps [(Hid & _) _] _ IH]; [reflexivity|].
    simpl. rewrite Hid, IH. reflexivity. }
  split; [exact Hids|]. split.
  - rewrite Hids. pose proof (Z.mod_pos_bound turn 3 ltac:(lia)) as Hm.
    assert (Hn : turn mod 3 = 0 \/ turn mod 3 = 1 \/ turn mod 3 = 2) by lia.
    destruct Hn as [-> | [-> | ->]];
      apply (bool_decide_unpack _); vm_compute; exact I.
  - clear -Hall. induction Hall as [|i p l ps [(_ & Hb & Ht & Hv & Hh) Hbyte] _ IH];
      constructor; [|exact IH].
    rewrite <- Hb in Ht, Hh. exact (conj Hbyte (conj Ht (conj Hv Hh))).
Qed.

(** X17: for every seed and every turn from 1, [derivePacketsFromSeed]
    returns a hand of [5 + turn mod 3] packets whose ids are packet-0,
    packet-1, ... in order, hence pairwise distinct; each packet has a
    byte in 0..255, the kind [mapByteToPacketType] gives that byte, the
    value of that kind, and a hexValue that reads back as that byte. *)
Theorem derived_hand_wellformed (levelSeed : list Z) (turn : Z) :
  1 <= turn ->
  exists hand,
    Client.derivePacketsFromSeed levelSeed turn = Ok hand
    /\ map Client.packet_id (Client.packets hand)
       = map (fun i => String.append "packet-" (decimal i)) (indices (5 + turn mod 3))
    /\ NoDup (map Client.packet_id (Client.packets hand))
    /\ Forall wellFormedPacket (Client.packets hand).
Proof. apply derivePackets_wellformed. Qed.

Lemma derived_hand_wellformed_witness :
  exists hand,
    Client.derivePacketsFromSeed zeroSeed 1 = Ok hand
    /\ map Client.packet_id (Client.packets hand)
       = map (fun i => String.append "packet-" (decimal i)) (indices (5 + 1 mod 3))
    /\ NoDup (map Client.packet_id (Client.packets hand))
    /\ Forall wellFormedPacket (Client.packets hand).
Proof. apply (derived_hand_wellformed zeroSeed 1). lia. Defined.


(** ** The level generator *)

Lemma inGrid_cells x y : 0 <= x < 6 -> 0 <= y < 6 -> In (x, y) cells.
Proof.
  intros Hx Hy.
  assert (Hx' : x = 0 \/ x = 1 \/ x = 2 \/ x = 3 \/ x = 4 \/ x = 5) by lia.
  assert (Hy' : y = 0 \/ y = 1 \/ y = 2 \/ y = 3 \/ y = 4 \/ y = 5) by lia.
  destruct Hx' as [-> | [-> | [-> | [-> | [-> | ->]]]]];
    destruct Hy' as [-> | [-> | [-> | [-> | [-> | ->]]]]];
    vm_compute; tauto.
Qed.

Lemma cells_inGrid c : In c cells -> 0 <= c.1 < 6 /\ 0 <= c.2 < 6.
Proof.
  intros Hc. vm_compute in Hc.
  repeat (destruct Hc as [<- | Hc]; [simpl; lia|]). contradiction.
Qed.

Lemma probeStep_inGrid c :
  0 <= c.1 < 6 /\ 0 <= c.2 < 6 -> 0 <= (probeStep c).1 < 6 /\ 0 <= (probeStep c).2 < 6.
Proof.
  intros [Hx Hy]. unfold probeStep. cbv zeta. simpl.
  rewrite !Z.rem_mod_nonneg by lia.
  pose proof (Z.mod_pos_bound (c.1 + 1) 6). pose proof (Z.mod_pos_bound (c.2 + 1) 6).
  destruct (_ =? 0); lia.
Qed.

(** From any cell of the grid the probe passes every cell of the grid
    within 36 steps. *)
Lemma probe_reaches c f :
  In c cells -> In f cells ->
  exists j, (j < 36)%nat /\ Nat.iter j probeStep c = f.
Proof.
  intros Hc Hf.
  assert (Hall : forallb (fun c =>
            forallb (fun f =>
              existsb (fun j =>
                         let r := Nat.iter j probeStep c in
                         (r.1 =? f.1) && (r.2 =? f.2))
                      (seq 0 36)) cells) cells = true)
    by (vm_compute; reflexivity).
  rewrite forallb_forall in Hall. specialize (Hall c Hc).
  rewrite forallb_forall in Hall. specialize (Hall f Hf).
  apply existsb_exists in Hall as (j & Hj & Heq). cbv zeta in Heq.
  apply andb_prop in Heq as [H1 H2]. apply Z.eqb_eq in H1, H2.
  exists j. split; [apply in_seq in Hj; lia|].
  destruct (Nat.iter j probeStep c), f. simpl in *. congruence.
Qed.

Lemma probe_finds (used : gset string) attempts :
  forall (j : nat) c,
  (j < attempts)%nat ->
  0 <= c.1 < 6 /\ 0 <= c.2 < 6 ->
  cellKey (Nat.iter j probeStep c) ∉ used ->
  let r := LevelGenerator.probe attempts used c.1 c.2 in
  (0 <= r.1 < 6 /\ 0 <= r.2 < 6) /\ cellKey r ∉ used.
Proof.
  induction attempts as [|attempts IH]; intros j c Hj Hc Hfree; [lia|].
  cbn [LevelGenerator.probe].
  destruct (decide (LevelGenerator.key c.1 c.2 ∈ used)) as [Hused|Hnot].
  - destruct j as [|j]; [contradiction|].
    rewrite Nat.iter_succ_r in Hfree.
    apply (IH j (probeStep c)); [lia|apply probeStep_inGrid, Hc|exact Hfree].
  - split; [exact Hc|exact Hnot].
Qed.

Lemma cells_keys_NoDup : NoDup (map cellKey cells).
Proof. apply (bool_decide_unpack _). vm_compute. exact I. Qed.

Lemma free_cell (used : gset string) :
  (size used < 36)%nat -> exists f, In f cells /\ cellKey f ∉ used.
Proof.
  intros Hsize.
  destruct (decide (Forall (fun c => cellKey c ∈ used) cells)) as [Hall|Hnot].
  - exfalso.
    assert (Hsub : list_to_set (C := gset string) (map cellKey cells) ⊆ used).
    { intros k Hk. apply elem_of_list_to_set, list_elem_of_In, in_map_iff in Hk
        as (c & <- & Hc).
      rewrite Forall_forall in Hall. apply Hall, list_elem_of_In, Hc. }
    apply subseteq_size in Hsub.
    rewrite size_list_to_set in Hsub by apply cells_keys_NoDup.
    change (length (map cellKey cells)) with 36%nat in Hsub. lia.
  - apply not_Forall_Exists in Hnot; [|intros c; apply _].
    apply Exists_exists in Hnot as (f & Hf & Hfree).
    exists f. split; [apply list_elem_of_In, Hf|exact Hfree].
Qed.

(** With fewer than 36 cells taken, the probe ends on a free cell of the
    grid. *)
Lemma probe_free (used : gset string) x y :
  (size used < 36)%nat -> 0 <= x < 6 -> 0 <= y < 6 ->
  let r := LevelGenerator.probe 36 used x y in
  (0 <= r.1 < 6 /\ 0 <= r.2 < 6) /\ cellKey r ∉ used.
Proof.
  intros Hsize Hx Hy.
  destruct (free_cell used Hsize) as (f & Hf & Hfree).
  destruct (probe_reaches (x, y) f (inGrid_cells x y Hx Hy) Hf) as (j & Hj & Hreach).
  apply (probe_finds used 36 j (x, y) Hj); [simpl; lia|].
  rewrite Hreach. exact Hfree.
Qed.


Lemma byteAt_isByte bytes i : Forall isByte bytes -> isByte (LevelGenerator.byteAt bytes i).
Proof. intros Hb. apply nth_isByte, Hb. Qed.

Lemma kindOf_drawn b :
  LevelGenerator.kind_type (LevelGenerator.kindOf b) <> "CACHE_GOLD"%string
  /\ 15 <= LevelGenerator.kind_hp (LevelGenerator.kindOf b) <= 30
  /\ 3 <= LevelGenerator.kind_damage (LevelGenerator.kindOf b) <= 8.
Proof.
  unfold LevelGenerator.kindOf.
  destruct (_ && _); [|destruct (_ >? _)]; simpl; repeat split; try lia; discriminate.
Qed.

Lemma spawnEnemy_inv bytes n st :
  Forall isByte bytes -> (n < 35)%nat -> spawnInv n st ->
  spawnInv (S n) (LevelGenerator.spawnEnemy bytes st (Z.of_nat n)).
Proof.
  intros Hbytes Hn (Hptr & Hdrawn & Hpos & Hplayer & Hsize & Hnodup).
  unfold LevelGenerator.spawnEnemy. cbv zeta.
  pose proof (byteAt_isByte bytes (LevelGenerator.bytePtr st) Hbytes) as HbX.
  pose proof (byteAt_isByte bytes (LevelGenerator.bytePtr st + 1) Hbytes) as HbY.
  unfold isByte in HbX, HbY.
  assert (Hx : 0 <= Z.rem (LevelGenerator.byteAt bytes (LevelGenerator.bytePtr st)) 6 < 6).
  { rewrite Z.rem_mod_nonneg by lia. apply Z.mod_pos_bound. lia. }
  assert (Hy : 0 <= Z.rem (LevelGenerator.byteAt bytes (LevelGenerator.bytePtr st + 1)) 6 < 6).
  { rewrite Z.rem_mod_nonneg by lia. apply Z.mod_pos_bound. lia. }
  destruct (probe_free (LevelGenerator.usedPositions st) _ _ ltac:(lia) Hx Hy)
    as [Hgrid Hfree].
  destruct (LevelGenerator.probe 36 _ _ _) as [x y]. simpl in Hgrid, Hfree.
  unfold cellKey in Hfree. simpl in Hfree.
  destruct (kindOf_drawn (LevelGenerator.byteAt bytes (LevelGenerator.bytePtr st + 2)))
    as (Hty & Hhp & Hdmg).
  unfold spawnInv. cbn [LevelGenerator.bytePtr LevelGenerator.usedPositions
                         LevelGenerator.spawned].
  split; [lia|]. split; [|split; [|split; [|split]]].
  - rewrite seq_S, map_app. apply Forall2_app; [exact Hdrawn|].
    constructor; [|constructor].
    unfold drawnEnemy. simpl. repeat split; try assumption; lia.
  - apply Forall_app. split.
    + eapply List.Forall_impl; [|exact Hpos]. intros e [He1 He2].
      split; [exact He1|]. apply elem_of_union_r, He2.
    + constructor; [|constructor]. simpl. split; [exact Hgrid|].
      apply elem_of_union_l, elem_of_singleton. reflexivity.
  - apply elem_of_union_r, Hplayer.
  - rewrite size_union by (apply disjoint_singleton_l, Hfree).
    rewrite size_singleton. lia.
  - rewrite map_app. simpl map.
    assert (Hnew : {| Client.pos_x := x; Client.pos_y := y |}
                   ∉ Client.position LevelGenerator.defaultPlayer
                     :: map Client.enemy_position (LevelGenerator.spawned st)).
    { intros Hin. apply elem_of_cons in Hin as [Heq|Hin].
      - apply Hfree. injection Heq as -> ->. exact Hplayer.
      - apply list_elem_of_In, in_map_iff in Hin as (e & He & Hin).
        rewrite List.Forall_forall in Hpos. destruct (Hpos e Hin) as [_ Hk].
        rewrite He in Hk. exact (Hfree Hk). }
    change (NoDup ((Client.position LevelGenerator.defaultPlayer
                      :: map Client.enemy_position (LevelGenerator.spawned st))
                   ++ [{| Client.pos_x := x; Client.pos_y := y |}])).
    apply NoDup_app. split; [exact Hnodup|]. split.
    + intros p Hp Hp'. apply list_elem_of_singleton in Hp'. subst p. exact (Hnew Hp).
    + apply NoDup_singleton.
Qed.

Lemma spawn_loop_inv bytes n :
  Forall isByte bytes -> (n <= 35)%nat ->
  spawnInv n
    (fold_left (LevelGenerator.spawnEnemy bytes) (map Z.of_nat (seq 0 n))
       {| LevelGenerator.bytePtr := 1;
          LevelGenerator.usedPositions := {[ LevelGenerator.key 0 2 ]};
          LevelGenerator.spawned := [] |}).
Proof.
  intros Hbytes. induction n as [|n IH]; intros Hn.
  - unfold spawnInv.
    cbn [LevelGenerator.bytePtr LevelGenerator.usedPositions LevelGenerator.spawned
         fold_left seq map].
    split; [reflexivity|]. split; [constructor|].
    split; [constructor|]. split; [apply elem_of_singleton; reflexivity|].
    split; [rewrite size_singleton; lia|]. apply NoDup_singleton.
  - rewrite seq_S, map_app, fold_left_app. simpl fold_left.
    apply spawnEnemy_inv; [exact Hbytes|lia|apply IH; lia].
Qed.


Lemma far_keys_NoDup : NoDup (map cellKey ((0, 2) :: farCells)).
Proof. apply (bool_decide_unpack _). vm_compute. exact I. Qed.

Lemma far_free (used : gset string) :
  LevelGenerator.key 0 2 ∈ used -> (size used <= 5)%nat ->
  exists g, In g farCells /\ cellKey g ∉ used.
Proof.
  intros Hplayer Hsize.
  destruct (decide (Forall (fun c => cellKey c ∈ used) farCells)) as [Hall|Hnot].
  - exfalso.
    assert (Hsub : list_to_set (C := gset string) (map cellKey ((0, 2) :: farCells))
                   ⊆ used).
    { intros k Hk. apply elem_of_list_to_set, list_elem_of_In, in_map_iff in Hk
        as (c & <- & [<- | Hc]); [exact Hplayer|].
      rewrite Forall_forall in Hall. apply Hall, list_elem_of_In, Hc. }
    apply subseteq_size in Hsub.
    rewrite size_list_to_set in Hsub by apply far_keys_NoDup.
    change (length (map cellKey ((0, 2) :: farCells))) with 6%nat in Hsub. lia.
  - apply not_Forall_Exists in Hnot; [|intros c; apply _].
    apply Exists_exists in Hnot as (f & Hf & Hfree).
    exists f. split; [apply list_elem_of_In, Hf|exact Hfree].
Qed.

Lemma far_reached (p : Z) g :
  0 <= p -> In g farCells ->
  exists j, 0 <= j < 6
            /\ Z.rem (p + j) 6 = g.1 /\ Z.rem (p + j + 3) 6 = g.2
            /\ Z.abs (g.1 - 0) + Z.abs (g.2 - 2) >= 3.
Proof.
  intros Hp Hg. exists ((g.1 - p) mod 6).
  pose proof (Z.mod_pos_bound (g.1 - p) 6 ltac:(lia)) as Hj.
  split; [exact Hj|]. rewrite !Z.rem_mod_nonneg by lia.
  replace (p + (g.1 - p) mod 6 + 3) with (p + 3 + (g.1 - p) mod 6) by lia.
  rewrite !Zplus_mod_idemp_r.
  replace (p + (g.1 - p)) with g.1 by lia.
  replace (p + 3 + (g.1 - p)) with (g.1 + 3) by lia.
  vm_compute in Hg.
  repeat (destruct Hg as [<- | Hg]; [vm_compute; repeat split; discriminate|]).
  contradiction.
Qed.

Lemma spawnCache_finds (used : gset string) (p : Z) attempts :
  forall k j : Z,
  0 <= p -> 0 <= k -> k <= j < k + Z.of_nat attempts ->
  LevelGenerator.key (Z.rem (p + j) 6) (Z.rem (p + j + 3) 6) ∉ used ->
  Z.abs (Z.rem (p + j) 6 - 0) + Z.abs (Z.rem (p + j + 3) 6 - 2) >= 3 ->
  exists cx cy,
    LevelGenerator.spawnCache attempts k p used LevelGenerator.defaultPlayer
    = Some (LevelGenerator.cache cx cy)
    /\ (LevelGenerator.key cx cy ∉ used)
    /\ (0 <= cx < 6 /\ 0 <= cy < 6)
    /\ Z.abs (cx - 0) + Z.abs (cy - 2) >= 3.
Proof.
  induction attempts as [|attempts IH]; intros k j Hp Hk Hj Hfree Hfar; [lia|].
  cbn [LevelGenerator.spawnCache]. cbv zeta.
  change (Client.pos_x (Client.position LevelGenerator.defaultPlayer)) with 0.
  change (Client.pos_y (Client.position LevelGenerator.defaultPlayer)) with 2.
  destruct (negb (bool_decide (LevelGenerator.key (Z.rem (p + k) 6)
                                 (Z.rem (p + k + 3) 6) ∈ used))
            && (Z.abs (Z.rem (p + k) 6 - 0) + Z.abs (Z.rem (p + k + 3) 6 - 2) >=? 3))
    eqn:Hhere.
  - apply andb_prop in Hhere as [Hnot Hdist].
    apply negb_true_iff, bool_decide_eq_false in Hnot.
    rewrite Z.geb_leb in Hdist. apply Z.leb_le in Hdist.
    exists (Z.rem (p + k) 6), (Z.rem (p + k + 3) 6).
    split; [reflexivity|]. split; [exact Hnot|].
    rewrite !Z.rem_mod_nonneg by lia.
    rewrite !Z.rem_mod_nonneg in Hdist by lia.
    pose proof (Z.mod_pos_bound (p + k) 6 ltac:(lia)).
    pose proof (Z.mod_pos_bound (p + k + 3) 6 ltac:(lia)).
    repeat split; lia.
  - assert (Hne : j <> k).
    { intros ->. apply andb_false_iff in Hhere as [Hnot|Hdist].
      - apply negb_false_iff, bool_decide_eq_true in Hnot. contradiction.
      - rewrite Z.geb_leb in Hdist. apply Z.leb_gt in Hdist. lia. }
    apply (IH (k + 1) j); try assumption; lia.
Qed.

Lemma drawn_ids n es :
  Forall2 drawnEnemy (map Z.of_nat (seq 0 n)) es ->
  map Client.enemy_id es
  = map (fun i => String.append "enemy-" (decimal i)) (map Z.of_nat (seq 0 n)).
Proof.
  generalize (map Z.of_nat (seq 0 n)). intros l Hd.
  induction Hd as [|i e l es (Hid & _) _ IH]; [reflexivity|].
  simpl. rewrite Hid, IH. reflexivity.
Qed.

(** The level of every non-empty seed. *)
Lemma generateLevel_spec (bytes : list Z) :
  Forall isByte bytes -> bytes <> [] ->
  exists es cx cy,
    generated bytes es cx cy
    /\ Forall2 drawnEnemy (indices (nth 0 bytes 0 mod 3 + 2)) es
    /\ Forall inGrid (map Client.enemy_position (es ++ [LevelGenerator.cache cx cy]))
    /\ NoDup (Client.position LevelGenerator.defaultPlayer
                :: map Client.enemy_position (es ++ [LevelGenerator.cache cx cy]))
    /\ Z.abs (cx - 0) + Z.abs (cy - 2) >= 3.
Proof.
  intros Hbytes Hne. destruct bytes as [|countByte rest]; [contradiction|].
  assert (Hcount : isByte countByte) by (inversion Hbytes; assumption).
  unfold isByte in Hcount.
  pose proof (Z.mod_pos_bound countByte 3 ltac:(lia)) as Hmod.
  unfold generated, LevelGenerator.generateLevelFromSeed. cbv zeta.
  change (nth 0 (countByte :: rest) 0) with countByte.
  rewrite Z.rem_mod_nonneg by lia.
  change (LevelGenerator.key
            (Client.pos_x (Client.position LevelGenerator.defaultPlayer))
            (Client.pos_y (Client.position LevelGenerator.defaultPlayer)))
    with (LevelGenerator.key 0 2).
  pose proof (spawn_loop_inv (countByte :: rest) (Z.to_nat (countByte mod 3 + 2))
                Hbytes ltac:(lia)) as Hinv.
  set (st := fold_left _ _ _) in *.
  destruct Hinv as (Hptr & Hdrawn & Hpos & Hplayer & Hsize & Hnodup).
  destruct (far_free (LevelGenerator.usedPositions st) Hplayer ltac:(lia))
    as (g & Hg & Hfree).
  destruct (far_reached (LevelGenerator.bytePtr st) g ltac:(lia) Hg)
    as (j & Hj & Hgx & Hgy & Hfar).
  unfold cellKey in Hfree. rewrite <- Hgx, <- Hgy in Hfree, Hfar.
  destruct (spawnCache_finds (LevelGenerator.usedPositions st)
              (LevelGenerator.bytePtr st) 50 0 j ltac:(lia) ltac:(lia) ltac:(lia)
              Hfree Hfar)
    as (cx & cy & -> & Hcfree & Hcgrid & Hcfar).
  exists (LevelGenerator.spawned st), cx, cy.
  split; [reflexivity|]. split; [exact Hdrawn|]. split; [|split; [|exact Hcfar]].
  - rewrite map_app. apply Forall_app. split.
    + apply Forall_map. eapply List.Forall_impl; [|exact Hpos]. intros e [He _]. exact He.
    + constructor; [exact Hcgrid|constructor].
  - rewrite map_app.
    change (NoDup ((Client.position LevelGenerator.defaultPlayer
                      :: map Client.enemy_position (LevelGenerator.spawned st))
                   ++ [{| Client.pos_x := cx; Client.pos_y := cy |}])).
    apply NoDup_app. split; [exact Hnodup|]. split; [|apply NoDup_singleton].
    intros pos Hin Hin'. apply list_elem_of_singleton in Hin'. subst pos.
    apply Hcfree. apply elem_of_cons in Hin as [Heq|Hin].
    + injection Heq as -> ->. exact Hplayer.
    + apply list_elem_of_In, in_map_iff in Hin as (e & He & Hin).
      rewrite List.Forall_forall in Hpos. destruct (Hpos e Hin) as [_ Hk].
      rewrite He in Hk. exact Hk.
Qed.


Lemma zeroSeed_bytes : Forall isByte zeroSeed.
Proof. apply Forall_forall. intros b Hb. vm_compute in Hb.
  apply list_elem_of_In in Hb. vm_compute. 
  repeat (destruct Hb as [<- | Hb]; [split; discriminate|]). contradiction.
Qed.

(** X18: for the bytes of any non-empty seed, [generateLevelFromSeed]
    returns the default player and [bytes[0] mod 3 + 2] enemies (2, 3 or
    4) named enemy-0, enemy-1, ... that are not caches, at full hp
    between 15 and 30, followed by exactly one cache, cache-gold, with
    1 hp and no damage: the cache loop never runs out of attempts.  All
    ids are distinct. *)
Theorem level_roster (bytes : list Z) :
  Forall isByte bytes -> bytes <> [] ->
  exists level es c,
    LevelGenerator.generateLevelFromSeed bytes = Some level
    /\ LevelGenerator.player level = LevelGenerator.defaultPlayer
    /\ LevelGenerator.enemies level = es ++ [c]
    /\ Forall2 drawnEnemy (indices (nth 0 bytes 0 mod 3 + 2)) es
    /\ (2 <= length es <= 4)%nat
    /\ Client.enemy_id c = "cache-gold"%string
    /\ Client.enemy_type c = "CACHE_GOLD"%string
    /\ Client.enemy_hp c = 1 /\ Client.enemy_maxHp c = 1 /\ Client.damage c = 0
    /\ NoDup (map Client.enemy_id (LevelGenerator.enemies level)).
Proof.
  intros Hbytes Hne.
  destruct (generateLevel_spec bytes Hbytes Hne) as (es & cx & cy & Hgen & Hd & _).
  exists {| LevelGenerator.enemies := es ++ [LevelGenerator.cache cx cy];
            LevelGenerator.player := LevelGenerator.defaultPlayer |}, es,
    (LevelGenerator.cache cx cy).
  split; [exact Hgen|]. split; [reflexivity|]. split; [reflexivity|].
  split; [exact Hd|].
  assert (Hb : isByte (nth 0 bytes 0)) by (apply nth_isByte, Hbytes).
  unfold isByte in Hb.
  pose proof (Z.mod_pos_bound (nth 0 bytes 0) 3 ltac:(lia)) as Hmod.
  pose proof (Forall2_length _ _ _ Hd) as Hlen.
  unfold indices in Hlen, Hd. rewrite length_map, length_seq in Hlen.
  split; [lia|]. do 5 (split; [reflexivity|]).
  cbn [LevelGenerator.enemies]. rewrite map_app, (drawn_ids _ _ Hd).
  assert (Hn : nth 0 bytes 0 mod 3 = 0 \/ nth 0 bytes 0 mod 3 = 1
               \/ nth 0 bytes 0 mod 3 = 2) by lia.
  destruct Hn as [-> | [-> | ->]];
    apply (bool_decide_unpack _); vm_compute; exact I.
Qed.

Lemma level_roster_witness :
  exists level es c,
    LevelGenerator.generateLevelFromSeed zeroSeed = Some level
    /\ LevelGenerator.player level = LevelGenerator.defaultPlayer
    /\ LevelGenerator.enemies level = es ++ [c]
    /\ Forall2 drawnEnemy (indices (nth 0 zeroSeed 0 mod 3 + 2)) es
    /\ (2 <= length es <= 4)%nat
    /\ Client.enemy_id c = "cache-gold"%string
    /\ Client.enemy_type c = "CACHE_GOLD"%string
    /\ Client.enemy_hp c = 1 /\ Client.enemy_maxHp c = 1 /\ Client.damage c = 0
    /\ NoDup (map Client.enemy_id (LevelGenerator.enemies level)).
Proof.
  apply (level_roster zeroSeed).
  - exact zeroSeed_bytes.
  - discriminate.
Defined.

(** X19: in the level of any non-empty seed every enemy, the cache
    included, stands on a cell of the 6 x 6 grid, no two of them share a
    cell, none stands on the player's start (0, 2), and the cache, the
    last of the list, is 3 or more steps (Manhattan) from it. *)
Theorem level_placement (bytes : list Z) :
  Forall isByte bytes -> bytes <> [] ->
  exists level c,
    LevelGenerator.generateLevelFromSeed bytes = Some level
    /\ Forall inGrid (map Client.enemy_position (LevelGenerator.enemies level))
    /\ NoDup (Client.position (LevelGenerator.player level)
                :: map Client.enemy_position (LevelGenerator.enemies level))
    /\ last (LevelGenerator.enemies level) = Some c
    /\ Client.enemy_type c = "CACHE_GOLD"%string
    /\ manhattan (Client.enemy_position c)
         (Client.position (LevelGenerator.player level)) >= 3.
Proof.
  intros Hbytes Hne.
  destruct (generateLevel_spec bytes Hbytes Hne)
    as (es & cx & cy & Hgen & _ & Hgrid & Hnodup & Hfar).
  exists {| LevelGenerator.enemies := es ++ [LevelGenerator.cache cx cy];
            LevelGenerator.player := LevelGenerator.defaultPlayer |},
    (LevelGenerator.cache cx cy).
  split; [exact Hgen|]. split; [exact Hgrid|]. split; [exact Hnodup|].
  split; [apply last_snoc|]. split; [reflexivity|exact Hfar].
Qed.

Lemma level_placement_witness :
  exists level c,
    LevelGenerator.generateLevelFromSeed zeroSeed = Some level
    /\ Forall inGrid (map Client.enemy_position (LevelGenerator.enemies level))
    /\ NoDup (Client.position (LevelGenerator.player level)
                :: map Client.enemy_position (LevelGenerator.enemies level))
    /\ last (LevelGenerator.enemies level) = Some c
    /\ Client.enemy_type c = "CACHE_GOLD"%string
    /\ manhattan (Client.enemy_position c)
         (Client.position (LevelGenerator.player level)) >= 3.
Proof.
  apply (level_placement zeroSeed).
  - exact zeroSeed_bytes.
  - discriminate.
Defined.


(** ** The game store *)

Lemma existsb_id_In (es : list Client.Enemy) (t : string) :
  existsb (fun e => String.eqb (Client.enemy_id e) t) es = true
  <-> In t (map Client.enemy_id es).
Proof.
  rewrite existsb_exists, in_map_iff. split; intros (e & H1 & H2).
  - exists e. apply String.eqb_eq in H2. split; [exact H2|exact H1].
  - exists e. split; [exact H2|]. apply String.eqb_eq, H1.
Qed.

Lemma find_enemy_alive (es : list Client.Enemy) (t : string) :
  Forall (fun e => Client.enemy_hp e > 0) es ->
  In t (map Client.enemy_id es) ->
  match find (fun e => String.eqb (Client.enemy_id e) t) es with
  | None => true
  | Some enemy => Client.enemy_hp enemy <=? 0
  end = false.
Proof.
  intros Halive Hin. apply existsb_id_In, existsb_exists in Hin as (e & He & Heq).
  destruct (find _ es) as [e'|] eqn:Hfind.
  - apply find_some in Hfind as [He' _].
    rewrite List.Forall_forall in Halive. specialize (Halive e' He').
    apply Z.leb_gt. lia.
  - exfalso. pose proof (find_none _ _ Hfind e He) as Hn. simpl in Hn. congruence.
Qed.

Lemma filter_alive (es : list Client.Enemy) :
  Forall (fun e => Client.enemy_hp e > 0) es ->
  filter (fun e => Client.enemy_hp e > 0) es = es.
Proof.
  induction 1 as [|e es He _ IH]; [reflexivity|].
  rewrite filter_cons. destruct (decide (Client.enemy_hp e > 0)); [|contradiction].
  rewrite IH. reflexivity.
Qed.

Lemma pending_In (pending : list Client.Assignment) (packetId : string) :
  existsb (fun a => String.eqb (Client.packetId a) packetId) pending = true
  <-> In packetId (map Client.packetId pending).
Proof.
  rewrite existsb_exists, in_map_iff. split; intros (a & H1 & H2).
  - exists a. apply String.eqb_eq in H2. split; [exact H2|exact H1].
  - exists a. split; [exact H2|]. apply String.eqb_eq, H1.
Qed.

(** X20: while every enemy of the state is alive, [isValidAssignment]
    accepts a packet and a target exactly when the packet has no pending
    assignment and the target is one of [getValidTargetsForPacket]. *)
Theorem valid_targets_agree (s : GameStore.Store) (g : Client.GameState)
    (packetId targetId : string) :
  GameStore.gameState s = Some g ->
  Forall (fun e => Client.enemy_hp e > 0) (Client.enemies g) ->
  GameStore.isValidAssignment s packetId targetId = true
  <-> In targetId (GameStore.getValidTargetsForPacket s packetId)
      /\ ~ In packetId (map Client.packetId (GameStore.pendingAssignments s)).
Proof.
  intros Hg Halive.
  unfold GameStore.isValidAssignment, GameStore.getValidTargetsForPacket.
  rewrite Hg.
  destruct (GameStore.findPacket packetId (GameStore.packetQueue s)) as [packet|];
    [|split; [discriminate|intros [[] _]]].
  rewrite <- pending_In.
  destruct (existsb _ (GameStore.pendingAssignments s));
    [split; [discriminate|intros [_ Hn]; contradiction Hn; reflexivity]|].
  rewrite filter_alive by exact Halive.
  unfold GameStore.canAssignPacketToTarget.
  destruct (String.eqb_spec targetId "trash") as [->|Htrash].
  { simpl. split; [intros _|reflexivity].
    split; [|discriminate]. destruct (Client.packet_type packet); left; reflexivity. }
  destruct (existsb (fun e => String.eqb (Client.enemy_id e) targetId) (Client.enemies g))
    eqn:Hknown.
  - pose proof (proj1 (existsb_id_In _ _) Hknown) as Hin.
    rewrite (find_enemy_alive _ _ Halive Hin), andb_false_r.
    destruct (Client.packet_type packet); cbv zeta;
      try (split; [intros _; split; [right; exact Hin|discriminate]|reflexivity]).
    all: split.
    all: try (intros Hp; apply String.eqb_eq in Hp; subst targetId;
              split; [right; left; reflexivity|discriminate]).
    all: intros [[Ht|[Hp|[]]] _]; [congruence|subst targetId; reflexivity].
  - assert (Hnot : ~ In targetId (map Client.enemy_id (Client.enemies g))).
    { intros Hin. apply existsb_id_In in Hin. congruence. }
    destruct (String.prefix "enemy-" targetId) eqn:Hprefix; cbn [andb].
    + assert (Hfind : find (fun e => String.eqb (Client.enemy_id e) targetId)
                        (Client.enemies g) = None).
      { destruct (find _ _) as [e|] eqn:Hf; [|reflexivity].
        apply find_some in Hf as [He Heq]. exfalso. apply Hnot, in_map_iff.
        exists e. apply String.eqb_eq in Heq. split; assumption. }
      rewrite Hfind. split; [discriminate|]. intros [Hin _]. exfalso.
      destruct (Client.packet_type packet).
      all: try (destruct Hin as [Ht|Hin]; [congruence|contradiction]).
      all: destruct Hin as [Ht|[Hp|[]]]; [congruence|subst targetId; discriminate].
    + destruct (Client.packet_type packet); cbv zeta.
      all: try (split; [discriminate|];
                intros [[Ht|Hin] _]; [congruence|contradiction]).
      all: split.
      all: try (intros Hp; apply String.eqb_eq in Hp; subst targetId;
                split; [right; left; reflexivity|discriminate]).
      all: intros [[Ht|[Hp|[]]] _]; [congruence|subst targetId; reflexivity].
Qed.


Lemma valid_targets_agree_witness :
  GameStore.isValidAssignment testStore "packet-0" "enemy-0" = true
  <-> In "enemy-0"%string (GameStore.getValidTargetsForPacket testStore "packet-0")
      /\ ~ In "packet-0"%string
             (map Client.packetId (GameStore.pendingAssignments testStore)).
Proof.
  apply (valid_targets_agree testStore testState "packet-0" "enemy-0").
  - reflexivity.
  - repeat constructor.
Defined.

Lemma filter_notPacket_ids (packetId : string) (pending : list Client.Assignment) :
  forall a, In a (List.filter (GameStore.notPacket packetId) pending) ->
            In a pending /\ Client.packetId a <> packetId.
Proof.
  intros a Ha. apply filter_In in Ha as [Ha Hn]. split; [exact Ha|].
  unfold GameStore.notPacket in Hn. apply negb_true_iff, String.eqb_neq in Hn. exact Hn.
Qed.

Lemma filter_notPacket_NoDup (packetId : string) (pending : list Client.Assignment) :
  NoDup (map Client.packetId pending) ->
  NoDup (map Client.packetId (List.filter (GameStore.notPacket packetId) pending)).
Proof.
  induction pending as [|a l IH]; intros Hnd; [constructor|].
  simpl in Hnd. apply NoDup_cons in Hnd as [Hnotin Hnd]. simpl.
  destruct (GameStore.notPacket packetId a); [|apply IH, Hnd].
  simpl. apply NoDup_cons. split; [|apply IH, Hnd].
  intros Hin. apply Hnotin. apply list_elem_of_In in Hin. apply list_elem_of_In.
  apply in_map_iff in Hin as (b & Hb & Hin). apply in_map_iff.
  exists b. split; [exact Hb|]. apply filter_In in Hin as [Hin _]. exact Hin.
Qed.

Lemma findPacket_In (packetId : string) (queue : list Client.Packet) packet :
  GameStore.findPacket packetId queue = Some packet ->
  In packetId (map Client.packet_id queue).
Proof.
  intros Hf. apply find_some in Hf as [Hin Heq]. apply String.eqb_eq in Heq.
  apply in_map_iff. exists packet. split; assumption.
Qed.

Lemma isValidAssignment_known (s : GameStore.Store) (g : Client.GameState)
    (packetId targetId : string) :
  GameStore.gameState s = Some g ->
  GameStore.isValidAssignment s packetId targetId = true ->
  In packetId (map Client.packet_id (GameStore.packetQueue s))
  /\ ~ In packetId (map Client.packetId (GameStore.pendingAssignments s))
  /\ knownTarget g targetId.
Proof.
  intros Hg. unfold GameStore.isValidAssignment. rewrite Hg.
  destruct (GameStore.findPacket _ _) as [packet|] eqn:Hf; [|discriminate].
  destruct (existsb _ (GameStore.pendingAssignments s)) eqn:Hp; [discriminate|].
  destruct (_ && _); [discriminate|].
  intros Hcan. split; [eapply findPacket_In, Hf|]. split.
  - intros Hin. apply pending_In in Hin. congruence.
  - unfold GameStore.canAssignPacketToTarget in Hcan.
    destruct (String.eqb_spec targetId "trash") as [->|_];
      [right; left; reflexivity|].
    cbv zeta in Hcan.
    destruct (Client.packet_type packet);
      try (right; right; apply existsb_exists in Hcan as (e & He & Heq);
           exists e; apply String.eqb_eq in Heq; split; assumption);
      left; apply String.eqb_eq, Hcan.
Qed.

Lemma assignPacket_inv (packetId targetId : string) (s : GameStore.Store) :
  storeInv s -> storeInv (GameStore.assignPacket packetId targetId s).1.
Proof.
  intros Hinv. unfold GameStore.assignPacket.
  destruct (GameStore.isValidAssignment s packetId targetId) eqn:Hvalid;
    [|exact Hinv].
  destruct Hinv as (g & Hg & Hq & Hnd & Hall).
  destruct (isValidAssignment_known s g _ _ Hg Hvalid) as (Hin & Hfresh & Hknown).
  exists g. cbn [negb fst GameStore.gameState GameStore.packetQueue
                 GameStore.pendingAssignments].
  split; [exact Hg|]. split; [exact Hq|]. split.
  - rewrite map_app. apply NoDup_app.
    split; [apply filter_notPacket_NoDup, Hnd|]. split; [|apply NoDup_singleton].
    intros x Hx Hx'. apply list_elem_of_singleton in Hx'. simpl in Hx'. subst x.
    apply list_elem_of_In, in_map_iff in Hx as (a & Ha & Hx).
    apply filter_notPacket_ids in Hx as [_ Hne]. contradiction.
  - intros a Ha. apply in_app_iff in Ha as [Ha|[<-|[]]].
    + apply filter_notPacket_ids in Ha as [Ha _]. apply Hall, Ha.
    + split; [exact Hin|exact Hknown].
Qed.

Lemma unassignPacket_inv (packetId : string) (s : GameStore.Store) :
  storeInv s -> storeInv (GameStore.unassignPacket packetId s).
Proof.
  intros (g & Hg & Hq & Hnd & Hall). exists g.
  unfold GameStore.unassignPacket.
  cbn [GameStore.set_pendingAssignments GameStore.gameState GameStore.packetQueue
       GameStore.pendingAssignments].
  split; [exact Hg|]. split; [exact Hq|].
  split; [apply filter_notPacket_NoDup, Hnd|].
  intros a Ha. apply filter_notPacket_ids in Ha as [Ha _]. apply Hall, Ha.
Qed.

Lemma actions_inv (actions : list Action) (s : GameStore.Store) :
  storeInv s -> storeInv (fold_left act actions s).
Proof.
  revert s. induction actions as [|a l IH]; intros s Hinv; [exact Hinv|].
  simpl. apply IH. destruct a; [apply assignPacket_inv|apply unassignPacket_inv];
    exact Hinv.
Qed.

(** A full set of pending assignments is what the resolver validates. *)
Lemma storeInv_valid (s : GameStore.Store) (g : Client.GameState) :
  storeInv s -> GameStore.gameState s = Some g ->
  length (GameStore.pendingAssignments s) = length (Client.dataStream g) ->
  validAssignments g (GameStore.pendingAssignments s).
Proof.
  intros (g' & Hg' & Hq & Hnd & Hall) Hg Hlen.
  rewrite Hg in Hg'. injection Hg' as <-. rewrite Hq in Hall.
  split; [exact Hall|]. split; [exact Hnd|].
  intros p Hp.
  apply (NoDup_length_incl (l := map Client.packetId (GameStore.pendingAssignments s))
           (l' := map Client.packet_id (Client.dataStream g))).
  - apply NoDup_ListNoDup. exact Hnd.
  - rewrite !length_map. lia.
  - intros x Hx. apply in_map_iff in Hx as (a & <- & Ha). apply Hall, Ha.
  - apply in_map, Hp.
Qed.


Lemma executeTurn_scheduled (s s1 : GameStore.Store) (c : GameStore.Scheduled) :
  GameStore.executeTurn s = (s1, Some c) ->
  GameStore.gameState s = Some (GameStore.sch_gameState c)
  /\ GameStore.sch_pendingAssignments c = GameStore.pendingAssignments s
  /\ length (GameStore.pendingAssignments s)
     = length (Client.dataStream (GameStore.sch_gameState c))
  /\ s1 = GameStore.set_isExecuting s true.
Proof.
  unfold GameStore.executeTurn.
  destruct (GameStore.gameState s) as [g|]; [|discriminate].
  destruct (Nat.eqb_spec (length (GameStore.pendingAssignments s))
              (length (Client.dataStream g))) as [Hlen|]; [|discriminate].
  simpl. intros [= <- <-]. simpl. repeat split. exact Hlen.
Qed.

(** X21: however the player assigns and unassigns packets from a store
    whose pending assignments fit its hand (an empty list does), if
    [executeTurn] then schedules the resolution, [resolveTurn] does not
    throw in it: the callback stores the resolved state (with the
    intents of the next turn when the game continues), the result and an
    empty list of pending assignments, and asks for a new hand exactly
    when the result is CONTINUE. *)
Theorem planned_turn_resolves (actions : list Action)
    (s s1 : GameStore.Store) (c : GameStore.Scheduled) :
  storeInv s ->
  GameStore.executeTurn (fold_left act actions s) = (s1, Some c) ->
  exists next,
    Client.resolveTurn (GameStore.sch_gameState c) (GameStore.sch_pendingAssignments c)
    = Ok next
    /\ GameStore.gameResult (GameStore.resolveScheduled c s1).1
       = Some (Client.checkTurnResult next)
    /\ GameStore.pendingAssignments (GameStore.resolveScheduled c s1).1 = []
    /\ (GameStore.resolveScheduled c s1).2
       = bool_decide (Client.checkTurnResult next = CONTINUE)
    /\ GameStore.isExecuting (GameStore.resolveScheduled c s1).1
       = (GameStore.resolveScheduled c s1).2
    /\ GameStore.gameState (GameStore.resolveScheduled c s1).1
       = Some (if (GameStore.resolveScheduled c s1).2
               then Client.set_enemies next
                      (GameStore.updateEnemyIntents (Client.enemies next)
                         (Client.turnCounter next))
               else next).
Proof.
  intros Hinv Hexec. apply (actions_inv actions) in Hinv.
  destruct (executeTurn_scheduled _ _ _ Hexec) as (Hg & Hpending & Hlen & ->).
  pose proof (storeInv_valid _ _ Hinv Hg Hlen) as Hvalid.
  rewrite <- Hpending in Hvalid.
  pose proof (resolveTurn_all_or_nothing (GameStore.sch_gameState c)
                (GameStore.sch_pendingAssignments c)) as Hall.
  rewrite (validAssignments_accepted _ _ Hvalid) in Hall.
  destruct Hall as [next Hnext]. exists next. split; [exact Hnext|].
  unfold GameStore.resolveScheduled. rewrite Hnext. cbv zeta.
  destruct (decide (Client.checkTurnResult next = CONTINUE)) as [Hc|Hc].
  - rewrite (bool_decide_eq_true_2 _ Hc). repeat split.
  - rewrite (bool_decide_eq_false_2 _ Hc). repeat split.
Qed.


Lemma planned_turn_resolves_witness :
  exists next,
    Client.resolveTurn (GameStore.sch_gameState plannedScheduled)
      (GameStore.sch_pendingAssignments plannedScheduled)
    = Ok next
    /\ GameStore.gameResult (GameStore.resolveScheduled plannedScheduled plannedStore).1
       = Some (Client.checkTurnResult next)
    /\ GameStore.pendingAssignments
         (GameStore.resolveScheduled plannedScheduled plannedStore).1 = []
    /\ (GameStore.resolveScheduled plannedScheduled plannedStore).2
       = bool_decide (Client.checkTurnResult next = CONTINUE)
    /\ GameStore.isExecuting (GameStore.resolveScheduled plannedScheduled plannedStore).1
       = (GameStore.resolveScheduled plannedScheduled plannedStore).2
    /\ GameStore.gameState (GameStore.resolveScheduled plannedScheduled plannedStore).1
       = Some (if (GameStore.resolveScheduled plannedScheduled plannedStore).2
               then Client.set_enemies next
                      (GameStore.updateEnemyIntents (Client.enemies next)
                         (Client.turnCounter next))
               else next).
Proof.
  apply (planned_turn_resolves plannedActions testStore plannedStore plannedScheduled).
  - exists testState. split; [reflexivity|]. split; [reflexivity|].
    split; [constructor|]. intros a [].
  - reflexivity.
Defined.


Lemma act_fields (a : Action) (s : GameStore.Store) :
  GameStore.gameState (act s a) = GameStore.gameState s
  /\ GameStore.currentLevelSeed (act s a) = GameStore.currentLevelSeed s.
Proof.
  destruct a as [p t|p]; simpl; [|split; reflexivity].
  unfold GameStore.assignPacket. destruct (negb _); split; reflexivity.
Qed.

Lemma actions_fields (actions : list Action) (s : GameStore.Store) :
  GameStore.gameState (fold_left act actions s) = GameStore.gameState s
  /\ GameStore.currentLevelSeed (fold_left act actions s) = GameStore.currentLevelSeed s.
Proof.
  revert s. induction actions as [|a l IH]; intros s; [split; reflexivity|].
  simpl. destruct (IH (act s a)) as [-> ->]. apply act_fields.
Qed.

Lemma imap_set_intent_hp (f : nat -> Client.Enemy -> Client.EnemyIntent)
    (es : list Client.Enemy) :
  map Client.enemy_hp (imap (fun i e => GameStore.set_intent e (f i e)) es)
  = map Client.enemy_hp es.
Proof.
  revert f. induction es as [|e es IH]; intros f; [reflexivity|].
  simpl. f_equal. apply (IH (fun i => f (S i))).
Qed.

Lemma updateEnemyIntents_hp (es : list Client.Enemy) (turnCounter : Z) :
  map Client.enemy_hp (GameStore.updateEnemyIntents es turnCounter)
  = map Client.enemy_hp es.
Proof. unfold GameStore.updateEnemyIntents. cbv zeta. apply imap_set_intent_hp. Qed.

Lemma Forall_hp (P : Z -> Prop) (es es' : list Client.Enemy) :
  map Client.enemy_hp es' = map Client.enemy_hp es ->
  Forall (fun e => P (Client.enemy_hp e)) es ->
  Forall (fun e => P (Client.enemy_hp e)) es'.
Proof.
  intros Heq H. apply (Forall_map Client.enemy_hp P) in H.
  apply (Forall_map Client.enemy_hp P). rewrite Heq. exact H.
Qed.

Lemma levelEnemies_alive (es : list Client.Enemy) indices' c :
  Forall2 drawnEnemy indices' es -> Client.enemy_hp c = 1 ->
  Forall (fun e => Client.enemy_hp e > 0) (es ++ [c]).
Proof.
  intros Hd Hc. apply Forall_app. split; [|constructor; [lia|constructor]].
  induction Hd as [|i e l es' (_ & _ & _ & Hhp & _) _ IH]; constructor;
    [lia|exact IH].
Qed.

Lemma hand_values (hand : list Client.Packet) :
  Forall wellFormedPacket hand -> Forall (fun p => 0 <= Client.packet_value p) hand.
Proof.
  apply List.Forall_impl. intros p (_ & _ & -> & _).
  destruct (Client.packet_type p); simpl; lia.
Qed.

Section StoreSeeds.

Variable toBytes : string -> list Z.

(** X22: for a non-empty seed whose bytes are a non-empty byte string,
    [startGame] does not throw and leaves a store a turn can be planned
    on: turn 1, score 0, status PLANNING, the player and the enemies of
    the generated level (all alive), a hand of 6 packets and nothing
    assigned. *)
Theorem startGame_playable (seed : string) (s : GameStore.Store) :
  seed <> EmptyString -> Forall isByte (toBytes seed) -> toBytes seed <> [] ->
  exists s' g level,
    GameStore.startGame toBytes seed s = Some (Ok s')
    /\ playable s'
    /\ GameStore.gameState s' = Some g
    /\ LevelGenerator.generateLevelFromSeed (toBytes seed) = Some level
    /\ Client.player g = LevelGenerator.player level
    /\ Client.enemies g = LevelGenerator.enemies level
    /\ Client.turnCounter g = 1 /\ Client.score g = 0
    /\ Client.status g = Client.PLANNING
    /\ length (Client.dataStream g) = 6%nat
    /\ GameStore.pendingAssignments s' = []
    /\ GameStore.isExecuting s' = false.
Proof.
  intros Hseed Hbytes Hne.
  destruct (generateLevel_spec (toBytes seed) Hbytes Hne)
    as (es & cx & cy & Hgen & Hdrawn & _).
  destruct (derivePackets_wellformed (toBytes seed) 1 ltac:(lia))
    as (hand & Hhand & Hids & _ & Hwf).
  unfold GameStore.startGame. rewrite Hgen, Hhand. cbn [bindR].
  eexists. eexists. eexists. split; [reflexivity|].
  cbn [GameStore.gameState GameStore.pendingAssignments GameStore.isExecuting
       LevelGenerator.player LevelGenerator.enemies].
  split; [|repeat split].
  - split.
    + eexists. split; [reflexivity|]. split; [reflexivity|].
      split; [constructor|]. intros a [].
    + eexists. exists seed. split; [reflexivity|]. split; [reflexivity|].
      split; [exact Hseed|]. split; [simpl; lia|]. split.
      * unfold inRanges. simpl. split; [lia|]. split; [lia|]. split.
        -- eapply List.Forall_impl;
             [|apply (levelEnemies_alive es _ (LevelGenerator.cache cx cy) Hdrawn eq_refl)].
           intros e He. simpl in He. lia.
        -- apply hand_values, Hwf.
      * simpl. apply (levelEnemies_alive es _ (LevelGenerator.cache cx cy) Hdrawn eq_refl).
  - simpl. rewrite <- (length_map Client.packet_id), Hids, length_map.
    reflexivity.
Qed.

(** X23: on a store a turn can be planned on, with a turn counter
    within the safe-integer range (where its increment is exact), once
    the player's assignments let [executeTurn] schedule the resolution
    and the resolution ends with CONTINUE, the [generateNewHand] it asks
    for does not throw and leaves again a store a turn can be planned
    on: the turn counter one higher, a hand of [5 + turn mod 3] packets
    for it, status PLANNING, nothing assigned. *)
Theorem turn_cycle_playable (actions : list Action)
    (s s1 s2 : GameStore.Store) (c : GameStore.Scheduled) :
  playable s ->
  GameStore.executeTurn (fold_left act actions s) = (s1, Some c) ->
  safeInteger (Client.turnCounter (GameStore.sch_gameState c)) ->
  GameStore.resolveScheduled c s1 = (s2, true) ->
  exists s3 g3,
    GameStore.generateNewHand toBytes (GameStore.set_isExecuting s2 false) = Ok s3
    /\ playable s3
    /\ GameStore.gameState s3 = Some g3
    /\ Client.turnCounter g3 = Client.turnCounter (GameStore.sch_gameState c) + 1
    /\ Z.of_nat (length (Client.dataStream g3)) = 5 + Client.turnCounter g3 mod 3
    /\ Client.status g3 = Client.PLANNING
    /\ GameStore.pendingAssignments s3 = []
    /\ GameStore.isExecuting s3 = false.
Proof.
  intros (Hinv & g & seed & Hg & Hseed & Hne & Hturn & Hranges & Halive) Hexec _ Hres.
  pose proof (actions_inv actions s Hinv) as Hinv'.
  destruct (actions_fields actions s) as [Hg' Hseed'].
  destruct (executeTurn_scheduled _ _ _ Hexec) as (Hgc & Hpending & Hlen & ->).
  rewrite Hg', Hg in Hgc. injection Hgc as Hgc. 
  unfold GameStore.resolveScheduled in Hres.
  destruct (Client.resolveTurn (GameStore.sch_gameState c)
              (GameStore.sch_pendingAssignments c)) as [next|e] eqn:Hnext;
    [|discriminate].
  cbv zeta in Hres.
  destruct (decide (Client.checkTurnResult next = CONTINUE)) as [Hc|Hc];
    [|discriminate].
  injection Hres as <-.
  rewrite <- Hgc in Hnext.
  pose proof (resolveTurn_ranges _ _ _ Hranges Hnext) as (Hhp & Hsh & _).
  apply resolveTurn_before_finish in Hnext as (last & -> & Hev & Hlive & _).
  destruct (finishTurn_fields last) as (_ & Hassign & Htc & Hpl & Hen & _).
  destruct Hev as (_ & Htc' & _).
  cbv zeta in Hassign, Htc, Hpl, Hen.
  assert (Hturn3 : 1 <= Client.turnCounter (Client.finishTurn last)) by lia.
  destruct (derivePackets_wellformed (toBytes seed)
              (Client.turnCounter (Client.finishTurn last)) Hturn3)
    as (hand & Hhand & Hids & _ & Hwf).
  unfold GameStore.generateNewHand.
  cbn [GameStore.set_isExecuting GameStore.gameState GameStore.currentLevelSeed
       GameStore.moveHistory].
  rewrite Hseed', Hseed. apply String.eqb_neq in Hne. rewrite Hne.
  cbn [Client.turnCounter Client.set_enemies].
  rewrite Hhand. cbn [bindR].
  eexists. eexists. split; [reflexivity|].
  cbn [GameStore.gameState GameStore.pendingAssignments GameStore.isExecuting].
  split; [|repeat split].
  - split.
    + eexists. split; [reflexivity|]. split; [reflexivity|].
      split; [constructor|]. intros a [].
    + eexists. exists seed. split; [reflexivity|]. split; [reflexivity|].
      apply String.eqb_neq in Hne. split; [exact Hne|].
      split; [simpl; lia|]. split.
      * unfold inRanges. cbn [Client.player Client.enemies Client.dataStream].
        split; [exact Hhp|]. split; [exact Hsh|]. split; [|apply hand_values, Hwf].
        rewrite Hen.
        apply (Forall_hp (fun h => 0 <= h) _ _ (updateEnemyIntents_hp _ _)).
        eapply List.Forall_impl; [|exact Hlive]. intros e He. simpl in He. lia.
      * cbn [Client.enemies]. rewrite Hen.
        apply (Forall_hp (fun h => h > 0) _ _ (updateEnemyIntents_hp _ _)), Hlive.
  - cbn [Client.turnCounter]. rewrite <- Hgc. lia.
  - cbn [Client.dataStream Client.turnCounter].
    rewrite <- (length_map Client.packet_id), Hids. unfold indices.
    rewrite !length_map, length_seq.
    pose proof (Z.mod_pos_bound (Client.turnCounter (Client.finishTurn last)) 3
                  ltac:(lia)). lia.
Qed.

End StoreSeeds.


Lemma startGame_playable_witness :
  exists s' g level,
    GameStore.startGame zeroBytes "0x00" GameStore.initialStore = Some (Ok s')
    /\ playable s'
    /\ GameStore.gameState s' = Some g
    /\ LevelGenerator.generateLevelFromSeed (zeroBytes "0x00") = Some level
    /\ Client.player g = LevelGenerator.player level
    /\ Client.enemies g = LevelGenerator.enemies level
    /\ Client.turnCounter g = 1 /\ Client.score g = 0
    /\ Client.status g = Client.PLANNING
    /\ length (Client.dataStream g) = 6%nat
    /\ GameStore.pendingAssignments s' = []
    /\ GameStore.isExecuting s' = false.
Proof.
  apply (startGame_playable zeroBytes "0x00" GameStore.initialStore).
  - discriminate.
  - exact zeroSeed_bytes.
  - discriminate.
Defined.

Lemma testStore_playable : playable testStore.
Proof.
  split.
  - exists testState. split; [reflexivity|]. split; [reflexivity|].
    split; [constructor|]. intros a [].
  - exists testState, "0x1234"%string.
    split; [reflexivity|]. split; [reflexivity|]. split; [discriminate|].
    split; [simpl; lia|]. split.
    + unfold inRanges. simpl. repeat split; try lia; repeat constructor; simpl; lia.
    + repeat constructor.
Qed.

Lemma turn_cycle_playable_witness :
  exists s3 g3,
    GameStore.generateNewHand zeroBytes (GameStore.set_isExecuting resolvedStore false)
    = Ok s3
    /\ playable s3
    /\ GameStore.gameState s3 = Some g3
    /\ Client.turnCounter g3
       = Client.turnCounter (GameStore.sch_gameState plannedScheduled) + 1
    /\ Z.of_nat (length (Client.dataStream g3)) = 5 + Client.turnCounter g3 mod 3
    /\ Client.status g3 = Client.PLANNING
    /\ GameStore.pendingAssignments s3 = []
    /\ GameStore.isExecuting s3 = false.
Proof.
  apply (turn_cycle_playable zeroBytes plannedActions testStore plannedStore
           resolvedStore plannedScheduled).
  - exact testStore_playable.
  - reflexivity.
  - unfold safeInteger. simpl. lia.
  - vm_compute. reflexivity.
Defined.


(** ** The game contract *)

Lemma resolveTurn_score (levelSeed : list Z)
    (initialPlayer : TurnVerifier.Player) (initialEnemies : list TurnVerifier.Enemy)
    (turn : Z) (assignments : list TurnVerifier.Assignment) (initialScore : Z)
    (newPlayer : TurnVerifier.Player) (newEnemies : list TurnVerifier.Enemy)
    (result : TurnResult) (newScore : Z) :
  TurnVerifier.resolveTurn levelSeed initialPlayer initialEnemies turn assignments
    initialScore = TurnVerifier.Return (newPlayer, newEnemies, result, newScore) ->
  newScore = initialScore + victoryBonus newPlayer result.
Proof.
  unfold TurnVerifier.resolveTurn.
  destruct (negb _); [discriminate|].
  destruct (negb _); [discriminate|].
  destruct (TurnVerifier.applyAssignments _ _ _) as [[p1 es1]|]; simpl; [|discriminate].
  rewrite awardKills_same. simpl.
  destruct (TurnVerifier.checkTurnResult p1 es1) as [r1|]; simpl; [|discriminate].
  assert (Hend : forall p r,
    TurnVerifier.bindO
      (if decide (r = VICTORY)
       then TurnVerifier.bindO (TurnVerifier.add_checked 32 initialScore 500)
              (fun sc => if TurnVerifier.hp p =? TurnVerifier.maxHp p
                         then TurnVerifier.add_checked 32 sc 200
                         else TurnVerifier.Return sc)
       else TurnVerifier.Return initialScore)
      (fun sc => TurnVerifier.Return (p, es1, r, sc))
    = TurnVerifier.Return (newPlayer, newEnemies, result, newScore) ->
    newScore = initialScore + victoryBonus newPlayer result).
  { intros p r. unfold victoryBonus, TurnVerifier.add_checked.
    destruct (decide (r = VICTORY)) as [->|Hr]; simpl.
    - destruct (initialScore + 500 <? 2 ^ 32); simpl; [|discriminate].
      destruct (TurnVerifier.hp p =? TurnVerifier.maxHp p) eqn:Hfull.
      + destruct (initialScore + 500 + 200 <? 2 ^ 32); simpl; [|discriminate].
        intros [= <- <- <- <-]. rewrite Hfull. lia.
      + simpl. intros [= <- <- <- <-]. rewrite Hfull. lia.
    - intros [= <- <- <- <-]. destruct r; try contradiction; lia. }
  destruct (decide (r1 = CONTINUE)); simpl.
  - destruct (TurnVerifier.executeEnemyPhase p1 es1) as [p2|]; simpl; [|discriminate].
    destruct (TurnVerifier.checkTurnResult p2 es1) as [r2|]; simpl; [|discriminate].
    apply Hend.
  - apply Hend.
Qed.

Lemma game_insert (st : FateboundCore.State) (gameId gameId' : Z) (g : FateboundCore.Game) :
  FateboundCore.game (FateboundCore.set_game st gameId g) gameId'
  = if decide (gameId = gameId') then g else FateboundCore.game st gameId'.
Proof.
  unfold FateboundCore.game, FateboundCore.set_game. simpl.
  destruct (decide (gameId = gameId')) as [->|Hne].
  - rewrite lookup_insert_eq. reflexivity.
  - rewrite lookup_insert_ne by exact Hne. reflexivity.
Qed.

Ltac unrequire H :=
  repeat match type of H with
         | FateboundCore.require ?c _ _ = FateboundCore.Done _ =>
             let Hc := fresh "Hreq" in
             unfold FateboundCore.require at 1 in H;
             destruct c eqn:Hc; [|discriminate H]
         end.

Lemma startGame_Done sender value fee sequenceNumber refundAccepted st st' :
  FateboundCore.startGame sender value fee sequenceNumber refundAccepted st
  = FateboundCore.Done st' ->
  (default 0 (FateboundCore.activeGameId st !! sender) = 0
   \/ ~ openGame (FateboundCore.game st
                    (default 0 (FateboundCore.activeGameId st !! sender))))
  /\ FateboundCore.gameCounter st' = FateboundCore.gameCounter st + 1
  /\ FateboundCore.games st'
     = <[FateboundCore.gameCounter st + 1 := requestedGame sender]>
         (FateboundCore.games st)
  /\ FateboundCore.activeGameId st'
     = <[sender := FateboundCore.gameCounter st + 1]> (FateboundCore.activeGameId st)
  /\ exists n, sequenceNumber = Some n
       /\ FateboundCore.sequenceToGameId st'
          = <[n := FateboundCore.gameCounter st + 1]> (FateboundCore.sequenceToGameId st).
Proof.
  unfold FateboundCore.startGame. cbv zeta. intros H. unrequire H.
  destruct (negb _); [discriminate|].
  destruct sequenceNumber as [n|]; [|discriminate].
  destruct (_ && _); [discriminate|]. injection H as <-. simpl.
  split; [|repeat split; exists n; split; reflexivity].
  apply orb_prop in Hreq as [Hreq|Hreq].
  - apply orb_prop in Hreq as [Hreq|Hreq].
    + left. apply Z.eqb_eq, Hreq.
    + right. apply bool_decide_eq_true in Hreq. intros [Ho|Ho]; congruence.
  - right. apply bool_decide_eq_true in Hreq. intros [Ho|Ho]; congruence.
Qed.

Lemma entropyCallback_Done sender sequenceNumber provider randomNumber st st' :
  FateboundCore._entropyCallback sender sequenceNumber provider randomNumber st
  = FateboundCore.Done st' ->
  sender = FateboundCore.ENTROPY
  /\ exists gameId g',
       FateboundCore.sequenceToGameId st !! sequenceNumber = Some gameId
       /\ FateboundCore.status (FateboundCore.game st gameId)
          = FateboundCore.WAITING_FOR_VRF
       /\ st' = {| FateboundCore.gameCounter := FateboundCore.gameCounter st;
                   FateboundCore.games := <[gameId := g']> (FateboundCore.games st);
                   FateboundCore.activeGameId := FateboundCore.activeGameId st;
                   FateboundCore.sequenceToGameId :=
                     delete sequenceNumber (FateboundCore.sequenceToGameId st) |}
       /\ FateboundCore.status g' = FateboundCore.ACTIVE
       /\ FateboundCore.player g' = FateboundCore.player (FateboundCore.game st gameId)
       /\ FateboundCore.score g' = FateboundCore.score (FateboundCore.game st gameId)
       /\ FateboundCore.currentTurn g' = 1
       /\ FateboundCore.seed g' = randomNumber.
Proof.
  unfold FateboundCore._entropyCallback. cbv zeta. intros H. unrequire H.
  destruct (TurnVerifier.computeStateHash _ _ _ _) as [h|]; [|discriminate].
  simpl in H. injection H as <-.
  split; [apply Z.eqb_eq, Hreq|].
  destruct (FateboundCore.sequenceToGameId st !! sequenceNumber) as [gameId|] eqn:Hseq;
    [|discriminate].
  simpl in *. eexists gameId, _. split; [reflexivity|].
  split; [apply bool_decide_eq_true in Hreq1; exact Hreq1|].
  split; [reflexivity|]. repeat split.
Qed.

Lemma submitTurn_Done sender gameId player enemies assignments st st' :
  FateboundCore.submitTurn sender gameId player enemies assignments st
  = FateboundCore.Done st' ->
  sender = FateboundCore.player (FateboundCore.game st gameId)
  /\ FateboundCore.status (FateboundCore.game st gameId) = FateboundCore.ACTIVE
  /\ exists newPlayer newEnemies result newScore stateHash,
       TurnVerifier.resolveTurn (FateboundCore.seed (FateboundCore.game st gameId))
         player enemies (FateboundCore.currentTurn (FateboundCore.game st gameId))
         assignments (FateboundCore.score (FateboundCore.game st gameId))
       = TurnVerifier.Return (newPlayer, newEnemies, result, newScore)
       /\ TurnVerifier.computeStateHash player enemies
            (FateboundCore.currentTurn (FateboundCore.game st gameId))
            (FateboundCore.score (FateboundCore.game st gameId))
          = TurnVerifier.Return (FateboundCore.stateHash (FateboundCore.game st gameId))
       /\ TurnVerifier.computeStateHash newPlayer newEnemies
            (FateboundCore.currentTurn (FateboundCore.game st gameId) + 1) newScore
          = TurnVerifier.Return stateHash
       /\ st' = FateboundCore.set_game st gameId
                  {| FateboundCore.player :=
                       FateboundCore.player (FateboundCore.game st gameId);
                     FateboundCore.seed := FateboundCore.seed (FateboundCore.game st gameId);
                     FateboundCore.stateHash := stateHash;
                     FateboundCore.currentTurn :=
                       FateboundCore.currentTurn (FateboundCore.game st gameId) + 1;
                     FateboundCore.score := newScore;
                     FateboundCore.status :=
                       if decide (result = CONTINUE) then FateboundCore.ACTIVE
                       else FateboundCore.COMPLETED;
                     FateboundCore.result :=
                       if decide (result = CONTINUE)
                       then FateboundCore.result (FateboundCore.game st gameId)
                       else result |}.
Proof.
  unfold FateboundCore.submitTurn. cbv zeta. intros H. unrequire H.
  apply Z.eqb_eq in Hreq. apply bool_decide_eq_true in Hreq0.
  destruct (TurnVerifier.computeStateHash player enemies _ _) as [claimed|] eqn:Hclaimed;
    [|discriminate].
  cbn [FateboundCore.verifier] in H. unrequire H.
  apply bool_decide_eq_true in Hreq1. subst claimed.
  destruct (TurnVerifier.resolveTurn _ _ _ _ _ _) as [[[[newPlayer newEnemies] result] newScore]|]
    eqn:Hresolve; [|discriminate].
  cbn [FateboundCore.verifier] in H.
  destruct (negb _); [discriminate|].
  destruct (TurnVerifier.computeStateHash newPlayer newEnemies _ _) as [h|] eqn:Hh;
    [|discriminate].
  cbn [FateboundCore.verifier] in H. injection H as <-.
  split; [exact Hreq|]. split; [exact Hreq0|].
  exists newPlayer, newEnemies, result, newScore, h.
  split; [reflexivity|]. split; [reflexivity|]. split; [exact Hh|].
  rewrite Hreq0. destruct (decide (result = CONTINUE)) as [Hc|Hc].
  - rewrite (bool_decide_eq_true_2 _ Hc). reflexivity.
  - rewrite (bool_decide_eq_false_2 _ Hc). reflexivity.
Qed.

Lemma claimVictory_Done sender gameId claimedScore st st' :
  FateboundCore.claimVictory sender gameId claimedScore st = FateboundCore.Done st' ->
  sender = FateboundCore.player (FateboundCore.game st gameId)
  /\ FateboundCore.status (FateboundCore.game st gameId) = FateboundCore.ACTIVE
  /\ st' = FateboundCore.set_game st gameId
             {| FateboundCore.player := FateboundCore.player (FateboundCore.game st gameId);
                FateboundCore.seed := FateboundCore.seed (FateboundCore.game st gameId);
                FateboundCore.stateHash :=
                  FateboundCore.stateHash (FateboundCore.game st gameId);
                FateboundCore.currentTurn :=
                  FateboundCore.currentTurn (FateboundCore.game st gameId);
                FateboundCore.score := claimedScore mod 2 ^ 32;
                FateboundCore.status := FateboundCore.COMPLETED;
                FateboundCore.result := VICTORY |}.
Proof.
  unfold FateboundCore.claimVictory. cbv zeta. intros H. unrequire H.
  injection H as <-. apply Z.eqb_eq in Hreq. apply bool_decide_eq_true in Hreq0.
  repeat split; assumption.
Qed.

Lemma forfeitGame_Done sender gameId st st' :
  FateboundCore.forfeitGame sender gameId st = FateboundCore.Done st' ->
  sender = FateboundCore.player (FateboundCore.game st gameId)
  /\ openGame (FateboundCore.game st gameId)
  /\ st' = FateboundCore.set_game st gameId
             {| FateboundCore.player := FateboundCore.player (FateboundCore.game st gameId);
                FateboundCore.seed := FateboundCore.seed (FateboundCore.game st gameId);
                FateboundCore.stateHash :=
                  FateboundCore.stateHash (FateboundCore.game st gameId);
                FateboundCore.currentTurn :=
                  FateboundCore.currentTurn (FateboundCore.game st gameId);
                FateboundCore.score := FateboundCore.score (FateboundCore.game st gameId);
                FateboundCore.status := FateboundCore.COMPLETED;
                FateboundCore.result := DEFEAT |}.
Proof.
  unfold FateboundCore.forfeitGame. cbv zeta. intros H. unrequire H.
  injection H as <-. apply Z.eqb_eq in Hreq.
  split; [exact Hreq|]. split; [|reflexivity].
  apply orb_prop in Hreq0 as [Hs|Hs]; apply bool_decide_eq_true in Hs;
    [right|left]; exact Hs.
Qed.


Lemma game_in_range (st : FateboundCore.State) (gameId : Z) :
  coreInv st ->
  FateboundCore.status (FateboundCore.game st gameId) <> FateboundCore.NONE ->
  0 < gameId <= FateboundCore.gameCounter st.
Proof.
  intros (_ & Hrange & _) Hs.
  destruct (Z.le_gt_cases gameId 0) as [Hle|Hgt];
    [|destruct (Z.le_gt_cases gameId (FateboundCore.gameCounter st)) as [Hle'|Hgt']].
  - exfalso. apply Hs. unfold FateboundCore.game.
    rewrite (Hrange gameId (or_introl Hle)). reflexivity.
  - lia.
  - exfalso. apply Hs. unfold FateboundCore.game.
    rewrite (Hrange gameId (or_intror Hgt')). reflexivity.
Qed.

Lemma game_of_games (st st' : FateboundCore.State) (gameId gameId' : Z) g' :
  FateboundCore.games st' = <[gameId := g']> (FateboundCore.games st) ->
  FateboundCore.game st' gameId'
  = if decide (gameId = gameId') then g' else FateboundCore.game st gameId'.
Proof.
  intros Hg. unfold FateboundCore.game. rewrite Hg.
  destruct (decide (gameId = gameId')) as [->|Hne].
  - rewrite lookup_insert_eq. reflexivity.
  - rewrite lookup_insert_ne by exact Hne. reflexivity.
Qed.

(** A change of one existing game that keeps its player and neither
    reopens it nor gives points to an unfinished game keeps the
    invariant. *)
Lemma coreInv_update (st st' : FateboundCore.State) (gameId : Z) g' :
  coreInv st ->
  FateboundCore.gameCounter st' = FateboundCore.gameCounter st ->
  FateboundCore.games st' = <[gameId := g']> (FateboundCore.games st) ->
  FateboundCore.activeGameId st' = FateboundCore.activeGameId st ->
  FateboundCore.status (FateboundCore.game st gameId) <> FateboundCore.NONE ->
  FateboundCore.player g' = FateboundCore.player (FateboundCore.game st gameId) ->
  FateboundCore.status g' <> FateboundCore.NONE ->
  (openGame g' -> openGame (FateboundCore.game st gameId)) ->
  (FateboundCore.status g' <> FateboundCore.COMPLETED -> FateboundCore.score g' = 0) ->
  coreInv st'.
Proof.
  intros Hinv Hc Hg Ha Hs Hp Hs' Hopen Hscore.
  pose proof (game_in_range st gameId Hinv Hs) as Hin.
  destruct Hinv as (Hcount & Hrange & Hactive & Hpointer & Hzero).
  unfold coreInv. rewrite Hc, Ha.
  split; [exact Hcount|]. split; [|split; [|split]].
  - intros id Hid. rewrite Hg, lookup_insert_ne by lia. apply Hrange, Hid.
  - intros id. rewrite (game_of_games st st' gameId id g' Hg).
    destruct (decide (gameId = id)) as [<-|Hne]; [|apply Hactive].
    intros Ho. rewrite Hp. apply Hactive, Hopen, Ho.
  - intros p id Hpid. destruct (Hpointer p id Hpid) as (H0 & Hpl & Hst).
    rewrite (game_of_games st st' gameId id g' Hg).
    destruct (decide (gameId = id)) as [<-|Hne]; [|repeat split; assumption].
    split; [exact H0|]. split; [rewrite Hp; exact Hpl|exact Hs'].
  - intros id. rewrite (game_of_games st st' gameId id g' Hg).
    destruct (decide (gameId = id)) as [<-|Hne]; [exact Hscore|apply Hzero].
Qed.

Lemma coreInv_startGame sender value fee sequenceNumber refundAccepted st st' :
  coreInv st ->
  FateboundCore.startGame sender value fee sequenceNumber refundAccepted st
  = FateboundCore.Done st' ->
  coreInv st'.
Proof.
  intros Hinv Hstart.
  destruct (startGame_Done _ _ _ _ _ _ _ Hstart) as (Hfree & Hc & Hg & Ha & _).
  pose proof Hinv as (Hcount & Hrange & Hactive & Hpointer & Hzero).
  set (new := FateboundCore.gameCounter st + 1) in *.
  assert (Hnone : FateboundCore.games st !! new = None) by (apply Hrange; lia).
  assert (Hold : forall id, FateboundCore.status (FateboundCore.game st id)
                            <> FateboundCore.NONE -> new <> id).
  { intros id Hs. pose proof (game_in_range st id Hinv Hs). lia. }
  unfold coreInv. rewrite Hc, Ha.
  split; [lia|]. split; [|split; [|split]].
  - intros id Hid. rewrite Hg, lookup_insert_ne by lia. apply Hrange. lia.
  - intros id. rewrite (game_of_games st st' new id _ Hg).
    destruct (decide (new = id)) as [<-|Hne].
    + intros _. simpl. rewrite lookup_insert_eq. reflexivity.
    + intros Ho.
      destruct (decide (FateboundCore.player (FateboundCore.game st id) = sender))
        as [Hsame|Hdiff].
      * exfalso. pose proof (Hactive id Ho) as Hptr. rewrite Hsame in Hptr.
        rewrite Hptr in Hfree. destruct Hfree as [H0|Hclosed]; [|exact (Hclosed Ho)].
        subst id. unfold FateboundCore.game in Ho.
        rewrite (Hrange 0 (or_introl (Z.le_refl 0))) in Ho.
        destruct Ho as [Ho|Ho]; discriminate Ho.
      * rewrite lookup_insert_ne by congruence. apply Hactive, Ho.
  - intros p id Hpid. rewrite (game_of_games st st' new id _ Hg).
    destruct (decide (sender = p)) as [<-|Hne].
    + rewrite lookup_insert_eq in Hpid. injection Hpid as <-.
      destruct (decide (new = new)); [|contradiction].
      split; [unfold new; lia|]. split; [reflexivity|discriminate].
    + rewrite lookup_insert_ne in Hpid by exact Hne.
      destruct (Hpointer p id Hpid) as (H0 & Hpl & Hst).
      destruct (decide (new = id)) as [Heq|_]; [exfalso; exact (Hold id Hst Heq)|].
      repeat split; assumption.
  - intros id. rewrite (game_of_games st st' new id _ Hg).
    destruct (decide (new = id)); [reflexivity|apply Hzero].
Qed.

(** Every transaction that returns changes the record of one game, by
    one of the four steps, and keeps the invariant. *)
Lemma call_step (c : FateboundCore.Call) (st st' : FateboundCore.State) :
  coreInv st -> FateboundCore.call c st = FateboundCore.Done st' ->
  coreInv st'
  /\ exists gameId g',
       FateboundCore.games st' = <[gameId := g']> (FateboundCore.games st)
       /\ gameStep (FateboundCore.sender_of c) (FateboundCore.game st gameId) g'.
Proof.
  intros Hinv Hcall. destruct c as [sender value fee seq refund
                                   |sender seq provider rnd
                                   |sender gameId player enemies assignments
                                   |sender gameId claimed
                                   |sender gameId]; simpl in Hcall.
  - split; [eapply coreInv_startGame; eassumption|].
    destruct (startGame_Done _ _ _ _ _ _ _ Hcall) as (_ & _ & Hg & _).
    eexists _, _. split; [exact Hg|]. left. split; [|reflexivity].
    destruct Hinv as (_ & Hrange & _). unfold FateboundCore.game.
    rewrite Hrange by lia. reflexivity.
  - destruct (entropyCallback_Done _ _ _ _ _ _ Hcall)
      as (Hsender & gameId & g' & Hseq & Hwait & -> & Hst & Hpl & Hsc & Hturn & _).
    split.
    + apply (coreInv_update st _ gameId g' Hinv); try reflexivity.
      * rewrite Hwait. discriminate.
      * exact Hpl.
      * rewrite Hst. discriminate.
      * intros _. left. exact Hwait.
      * intros _. rewrite Hsc. destruct Hinv as (_ & _ & _ & _ & Hzero).
        apply Hzero. rewrite Hwait. discriminate.
    + exists gameId, g'. split; [reflexivity|]. right. left.
      repeat split; assumption.
  - destruct (submitTurn_Done _ _ _ _ _ _ _ Hcall)
      as (Hsender & Hact & newPlayer & newEnemies & result & newScore & h
          & Hres & _ & _ & ->).
    pose proof (resolveTurn_score _ _ _ _ _ _ _ _ _ _ Hres) as Hscore.
    assert (Hzero : FateboundCore.score (FateboundCore.game st gameId) = 0).
    { destruct Hinv as (_ & _ & _ & _ & Hzero). apply Hzero. rewrite Hact. discriminate. }
    split.
    + eapply (coreInv_update st _ gameId _ Hinv); try reflexivity.
      * rewrite Hact. discriminate.
      * simpl. destruct (decide (result = CONTINUE)); discriminate.
      * intros _. right. exact Hact.
      * simpl. destruct (decide (result = CONTINUE)) as [->|]; [|contradiction].
        intros _. rewrite Hscore, Hzero. reflexivity.
    + eexists gameId, _. split; [reflexivity|]. right. right. right. simpl.
      split; [exact Hact|]. split; [exact Hsender|].
      split; [destruct (decide (result = CONTINUE)); [left|right]; reflexivity|].
      split; [reflexivity|]. split; [reflexivity|].
      destruct (decide (result = CONTINUE)) as [->|]; [|discriminate].
      intros _. split; [rewrite Hscore; simpl; lia|reflexivity].
  - destruct (claimVictory_Done _ _ _ _ _ Hcall) as (Hsender & Hact & ->).
    split.
    + eapply (coreInv_update st _ gameId _ Hinv); try reflexivity.
      * rewrite Hact. discriminate.
      * discriminate.
      * intros [Ho|Ho]; discriminate Ho.
      * intros Hn. contradiction Hn. reflexivity.
    + eexists gameId, _. split; [reflexivity|]. right. right. right. simpl.
      split; [exact Hact|]. split; [exact Hsender|].
      split; [right; reflexivity|]. split; [reflexivity|]. split; [reflexivity|].
      discriminate.
  - destruct (forfeitGame_Done _ _ _ _ Hcall) as (Hsender & Hopen & ->).
    split.
    + eapply (coreInv_update st _ gameId _ Hinv); try reflexivity.
      * destruct Hopen as [Ho|Ho]; rewrite Ho; discriminate.
      * discriminate.
      * intros [Ho|Ho]; discriminate Ho.
      * intros Hn. contradiction Hn. reflexivity.
    + eexists gameId, _. split; [reflexivity|]. simpl.
      destruct Hopen as [Ho|Ho].
      * right. right. left. repeat split; assumption.
      * right. right. right. split; [exact Ho|]. split; [exact Hsender|].
        split; [right; reflexivity|]. split; [reflexivity|]. split; [reflexivity|].
        discriminate.
Qed.

Lemma coreInv_deployed : coreInv FateboundCore.deployed.
Proof.
  unfold coreInv, FateboundCore.deployed, FateboundCore.game. simpl.
  split; [lia|]. split; [intros; apply lookup_empty|].
  split; [intros id [Ho|Ho]; rewrite lookup_empty in Ho; discriminate Ho|].
  split; [intros p id Hp; rewrite lookup_empty in Hp; discriminate Hp|].
  intros id _. rewrite lookup_empty. reflexivity.
Qed.

Lemma coreInv_after (st : FateboundCore.State) (c : FateboundCore.Call) :
  coreInv st -> coreInv (FateboundCore.after st c).
Proof.
  intros Hinv. unfold FateboundCore.after.
  destruct (FateboundCore.call c st) as [st'|] eqn:Hcall; [|exact Hinv].
  apply (call_step c st st' Hinv Hcall).
Qed.

Lemma reachable_inv (st : FateboundCore.State) : reachable st -> coreInv st.
Proof.
  intros [calls ->]. rewrite <- (rev_involutive calls).
  induction (rev calls) as [|c l IH]; [exact coreInv_deployed|].
  simpl. rewrite fold_left_app. simpl. apply coreInv_after, IH.
Qed.


Lemma reachable_after (st : FateboundCore.State) (c : FateboundCore.Call) :
  reachable st -> reachable (FateboundCore.after st c).
Proof.
  intros [calls ->]. exists (calls ++ [c]). rewrite fold_left_app. reflexivity.
Qed.

Lemma after_game (st : FateboundCore.State) (c : FateboundCore.Call) (gameId : Z) :
  coreInv st ->
  FateboundCore.game (FateboundCore.after st c) gameId = FateboundCore.game st gameId
  \/ gameStep (FateboundCore.sender_of c) (FateboundCore.game st gameId)
       (FateboundCore.game (FateboundCore.after st c) gameId).
Proof.
  intros Hinv. unfold FateboundCore.after.
  destruct (FateboundCore.call c st) as [st'|] eqn:Hcall; [|left; reflexivity].
  destruct (call_step c st st' Hinv Hcall) as (_ & gid & g' & Hg & Hstep).
  rewrite (game_of_games st st' gid gameId g' Hg).
  destruct (decide (gid = gameId)) as [<-|Hne]; [right; exact Hstep|left; reflexivity].
Qed.

Lemma gameStep_open sender g g' :
  gameStep sender g g' -> FateboundCore.status g <> FateboundCore.COMPLETED.
Proof.
  intros [(H & _)|[(H & _)|[(H & _)|(H & _)]]]; rewrite H; discriminate.
Qed.

(** X24: a COMPLETED game is final: in every storage the transactions
    can reach, no further sequence of transactions, by anyone, changes
    any field of the record of a game whose status is COMPLETED. *)
Theorem completed_is_final (st : FateboundCore.State)
    (calls : list FateboundCore.Call) (gameId : Z) :
  reachable st ->
  FateboundCore.status (FateboundCore.game st gameId) = FateboundCore.COMPLETED ->
  FateboundCore.game (fold_left FateboundCore.after calls st) gameId
  = FateboundCore.game st gameId.
Proof.
  revert st. induction calls as [|c l IH]; intros st Hr Hdone; [reflexivity|].
  simpl.
  assert (Hsame : FateboundCore.game (FateboundCore.after st c) gameId
                  = FateboundCore.game st gameId).
  { destruct (after_game st c gameId (reachable_inv st Hr)) as [Heq|Hstep];
      [exact Heq|].
    apply gameStep_open in Hstep. contradiction. }
  rewrite IH; [exact Hsame|apply reachable_after, Hr|rewrite Hsame; exact Hdone].
Qed.

Lemma deployed_reachable : reachable FateboundCore.deployed.
Proof. exists []. reflexivity. Qed.


Lemma completed_is_final_witness :
  FateboundCore.game
    (fold_left FateboundCore.after [FateboundCore.ClaimVictory 7 1 999] forfeited) 1
  = FateboundCore.game forfeited 1.
Proof.
  apply (completed_is_final forfeited [FateboundCore.ClaimVictory 7 1 999] 1).
  - exists forfeitedCalls. reflexivity.
  - vm_compute. reflexivity.
Defined.

(** X25: in every reachable storage [hasActiveGame] answers true for
    an address exactly when some game of that address is waiting or
    active, and no address has two such games. *)
Theorem open_game_unique (st : FateboundCore.State) :
  reachable st ->
  (forall p,
     FateboundCore.hasActiveGame p st = true
     <-> exists gameId, openGame (FateboundCore.game st gameId)
                        /\ FateboundCore.player (FateboundCore.game st gameId) = p)
  /\ (forall gameId gameId',
        openGame (FateboundCore.game st gameId) ->
        openGame (FateboundCore.game st gameId') ->
        FateboundCore.player (FateboundCore.game st gameId)
        = FateboundCore.player (FateboundCore.game st gameId') ->
        gameId = gameId').
Proof.
  intros Hr. pose proof (reachable_inv st Hr) as (Hcount & Hrange & Hactive & Hpointer & _).
  split.
  - intros p. unfold FateboundCore.hasActiveGame. cbv zeta. split.
    + destruct (FateboundCore.activeGameId st !! p) as [gid|] eqn:Hp;
        [|simpl; discriminate].
      simpl. destruct (gid =? 0); [discriminate|].
      intros Ho. destruct (Hpointer p gid Hp) as (_ & Hpl & _).
      exists gid. split; [|exact Hpl].
      apply orb_prop in Ho as [Ho|Ho]; apply bool_decide_eq_true in Ho;
        [right|left]; exact Ho.
    + intros (gid & Ho & Hpl). pose proof (Hactive gid Ho) as Hptr.
      rewrite Hpl in Hptr. rewrite Hptr.
      destruct (Z.eqb_spec gid 0) as [->|_].
      * exfalso. unfold FateboundCore.game in Ho.
        rewrite (Hrange 0 (or_introl (Z.le_refl 0))) in Ho.
        destruct Ho as [Ho|Ho]; discriminate Ho.
      * destruct Ho as [Ho|Ho]; rewrite Ho; reflexivity.
  - intros gid gid' Ho Ho' Hsame.
    rewrite <- (Hactive gid Ho), <- (Hactive gid' Ho'), Hsame. reflexivity.
Qed.

Lemma open_game_unique_witness :
  (forall p,
     FateboundCore.hasActiveGame p forfeited = true
     <-> exists gameId, openGame (FateboundCore.game forfeited gameId)
                        /\ FateboundCore.player (FateboundCore.game forfeited gameId) = p)
  /\ (forall gameId gameId',
        openGame (FateboundCore.game forfeited gameId) ->
        openGame (FateboundCore.game forfeited gameId') ->
        FateboundCore.player (FateboundCore.game forfeited gameId)
        = FateboundCore.player (FateboundCore.game forfeited gameId') ->
        gameId = gameId').
Proof.
  apply (open_game_unique forfeited). exists forfeitedCalls. reflexivity.
Defined.

(** X26: in every reachable storage, a transaction that changes the
    record of a game does it by one of four steps: the game did not
    exist and is requested for the sender; it was waiting and the
    Entropy contract activates it; it was waiting and its player
    forfeits it; or it was active and its player plays on or ends it.
    No other sender changes a game, and the player of a game never
    changes. *)
Theorem game_changes_authorized (st : FateboundCore.State)
    (c : FateboundCore.Call) (gameId : Z) :
  reachable st ->
  FateboundCore.game (FateboundCore.after st c) gameId <> FateboundCore.game st gameId ->
  gameStep (FateboundCore.sender_of c) (FateboundCore.game st gameId)
    (FateboundCore.game (FateboundCore.after st c) gameId).
Proof.
  intros Hr Hchanged.
  destruct (after_game st c gameId (reachable_inv st Hr)) as [Heq|Hstep];
    [contradiction|exact Hstep].
Qed.

Lemma game_changes_authorized_witness :
  gameStep 7 (FateboundCore.game FateboundCore.deployed 1)
    (FateboundCore.game
       (FateboundCore.after FateboundCore.deployed
          (FateboundCore.StartGame 7 0 0 (Some 1) true)) 1).
Proof.
  apply (game_changes_authorized FateboundCore.deployed
           (FateboundCore.StartGame 7 0 0 (Some 1) true) 1).
  - exists []. reflexivity.
  - vm_compute. discriminate.
Defined.

Lemma laterGame_refl g : laterGame g g.
Proof. repeat split; lia. Qed.

Lemma laterGame_trans g1 g2 g3 : laterGame g1 g2 -> laterGame g2 g3 -> laterGame g1 g3.
Proof.
  intros (Hr1 & Hp1 & Hs1) (Hr2 & Hp2 & Hs2). split; [lia|]. split.
  - intros Hn. rewrite Hp2, Hp1; [reflexivity|exact Hn|].
    intros Hnone. rewrite Hnone in Hr1. destruct (FateboundCore.status g1);
      simpl in Hr1; try lia. contradiction.
  - intros H2. rewrite Hs2, Hs1; [reflexivity|exact H2|lia].
Qed.

Lemma gameStep_later sender g g' : gameStep sender g g' -> laterGame g g'.
Proof.
  intros [(H & ->)|[(H & _ & H' & Hp & _)|[(H & _ & H' & Hp & _)|(H & _ & H' & Hp & Hs & _)]]];
    unfold laterGame; rewrite H.
  - simpl. split; [lia|]. split; [contradiction|lia].
  - rewrite H'. simpl. split; [lia|]. split; [intros _; exact Hp|lia].
  - rewrite H'. simpl. split; [lia|]. split; [intros _; exact Hp|lia].
  - split; [destruct H' as [-> | ->]; simpl; lia|].
    split; [intros _; exact Hp|intros _; exact Hs].
Qed.

(** X27: over any sequence of transactions from a reachable storage
    the status of a game never goes back in the order NONE,
    WAITING_FOR_VRF, ACTIVE, COMPLETED; the player of an existing game
    never changes; and the seed of a game that is active or completed
    never changes. *)
Theorem game_lifecycle (st : FateboundCore.State)
    (calls : list FateboundCore.Call) (gameId : Z) :
  reachable st ->
  laterGame (FateboundCore.game st gameId)
    (FateboundCore.game (fold_left FateboundCore.after calls st) gameId).
Proof.
  revert st. induction calls as [|c l IH]; intros st Hr; [apply laterGame_refl|].
  simpl. eapply laterGame_trans; [|apply IH, reachable_after, Hr].
  destruct (after_game st c gameId (reachable_inv st Hr)) as [-> | Hstep];
    [apply laterGame_refl|eapply gameStep_later, Hstep].
Qed.

Lemma game_lifecycle_witness :
  laterGame (FateboundCore.game FateboundCore.deployed 1)
    (FateboundCore.game (fold_left FateboundCore.after forfeitedCalls
                           FateboundCore.deployed) 1).
Proof.
  apply (game_lifecycle FateboundCore.deployed forfeitedCalls 1).
  exists []. reflexivity.
Defined.


(** X28: in every reachable storage a game that is not COMPLETED has
    score 0, and a [submitTurn] that returns leaves the game either
    ACTIVE with score 0, or COMPLETED as a DEFEAT with score 0, or
    COMPLETED as a VICTORY with score 500 or 700: no kill is ever
    counted on-chain. *)
Theorem onchain_scores (st st' : FateboundCore.State) (sender gameId : Z)
    (player : TurnVerifier.Player) (enemies : list TurnVerifier.Enemy)
    (assignments : list TurnVerifier.Assignment) :
  reachable st ->
  FateboundCore.submitTurn sender gameId player enemies assignments st
  = FateboundCore.Done st' ->
  FateboundCore.score (FateboundCore.game st gameId) = 0
  /\ submittedGame (FateboundCore.game st' gameId).
Proof.
  intros Hr Hsubmit.
  pose proof (reachable_inv st Hr) as (_ & _ & _ & _ & Hzero).
  destruct (submitTurn_Done _ _ _ _ _ _ _ Hsubmit)
    as (_ & Hact & newPlayer & newEnemies & result & newScore & h & Hres & _ & _ & ->).
  assert (H0 : FateboundCore.score (FateboundCore.game st gameId) = 0).
  { apply Hzero. rewrite Hact. discriminate. }
  split; [exact H0|].
  pose proof (resolveTurn_score _ _ _ _ _ _ _ _ _ _ Hres) as Hscore.
  rewrite H0 in Hscore. rewrite game_insert.
  destruct (decide (gameId = gameId)); [|contradiction].
  unfold submittedGame. simpl. unfold victoryBonus in Hscore.
  destruct result; simpl.
  - left. split; [reflexivity|lia].
  - right. right. split; [reflexivity|]. split; [reflexivity|].
    destruct (_ =? _); lia.
  - right. left. split; [reflexivity|]. split; [reflexivity|lia].
Qed.

Lemma onchain_scores_witness :
  FateboundCore.score (FateboundCore.game activated 1) = 0
  /\ submittedGame (FateboundCore.game (FateboundCore.after activated firstTurn) 1).
Proof.
  apply (onchain_scores activated (FateboundCore.after activated firstTurn) 7 1
           FateboundCore.initialPlayer FateboundCore._getDefaultEnemies trashAll).
  - exists activatedCalls. reflexivity.
  - vm_compute. reflexivity.
Defined.


Lemma initial_hash_returns :
  TurnVerifier.computeStateHash FateboundCore.initialPlayer
    FateboundCore._getDefaultEnemies 1 0
  = TurnVerifier.Return
      (Keccak.keccak256
         (TurnVerifier.statePreimage FateboundCore.initialPlayer
            FateboundCore._getDefaultEnemies 1 0)).
Proof. reflexivity. Qed.

(** X29: an address without a waiting or active game that pays the fee
    can have a game recorded as a VICTORY with any score below 2^32
    without submitting a turn: after its [startGame], the callback of
    the Entropy contract and its [claimVictory], the game is COMPLETED
    with result VICTORY, turn 1 and the claimed score (modulo 2^32). *)
Theorem victory_without_turns (st : FateboundCore.State)
    (sender value fee sequenceNumber provider : Z) (refundAccepted : bool)
    (randomNumber : list Z) (claimedScore : Z) :
  reachable st ->
  FateboundCore.hasActiveGame sender st = false ->
  fee <= value -> (fee < value -> refundAccepted = true) ->
  FateboundCore.gameCounter st + 1 < 2 ^ 256 ->
  let gameId := FateboundCore.gameCounter st + 1 in
  let g := FateboundCore.game
             (fold_left FateboundCore.after
                (claimAtOnce sender value fee sequenceNumber provider refundAccepted
                   randomNumber gameId claimedScore) st) gameId in
  FateboundCore.player g = sender
  /\ FateboundCore.seed g = randomNumber
  /\ FateboundCore.currentTurn g = 1
  /\ FateboundCore.status g = FateboundCore.COMPLETED
  /\ FateboundCore.result g = VICTORY
  /\ FateboundCore.score g = claimedScore mod 2 ^ 32.
Proof.
  intros Hr Hfree Hfee Hrefund Hcount gameId.
  pose proof (reachable_inv st Hr) as (Hpos & _).
  unfold claimAtOnce. cbn [fold_left].
  (* startGame *)
  assert (H1 : FateboundCore.after st
                 (FateboundCore.StartGame sender value fee (Some sequenceNumber)
                    refundAccepted)
               = {| FateboundCore.gameCounter := gameId;
                    FateboundCore.games :=
                      <[gameId := requestedGame sender]> (FateboundCore.games st);
                    FateboundCore.activeGameId :=
                      <[sender := gameId]> (FateboundCore.activeGameId st);
                    FateboundCore.sequenceToGameId :=
                      <[sequenceNumber := gameId]> (FateboundCore.sequenceToGameId st) |}).
  { unfold FateboundCore.after, FateboundCore.call, FateboundCore.startGame.
    cbv zeta.
    assert (Hreq : (default 0 (FateboundCore.activeGameId st !! sender) =? 0)
                   || bool_decide
                        (FateboundCore.status
                           (FateboundCore.game st
                              (default 0 (FateboundCore.activeGameId st !! sender)))
                         = FateboundCore.COMPLETED)
                   || bool_decide
                        (FateboundCore.status
                           (FateboundCore.game st
                              (default 0 (FateboundCore.activeGameId st !! sender)))
                         = FateboundCore.NONE) = true).
    { unfold FateboundCore.hasActiveGame in Hfree. cbv zeta in Hfree.
      destruct (default 0 (FateboundCore.activeGameId st !! sender) =? 0);
        [reflexivity|].
      destruct (FateboundCore.status _); try reflexivity; discriminate Hfree. }
    rewrite Hreq. unfold FateboundCore.require.
    rewrite Z.geb_leb. destruct (Z.leb_spec fee value); [|lia].
    destruct (Z.ltb_spec (FateboundCore.gameCounter st + 1) (2 ^ 256)); [|lia].
    cbn [negb].
    assert (Hpay : (value >? fee) && negb refundAccepted = false).
    { rewrite Z.gtb_ltb. destruct (Z.ltb_spec fee value); [|reflexivity].
      rewrite Hrefund by assumption. reflexivity. }
    rewrite Hpay. reflexivity. }
  rewrite H1. clear H1.
  (* the callback *)
  set (st1 := {| FateboundCore.gameCounter := gameId |}).
  assert (H2 : FateboundCore.after st1
                 (FateboundCore.EntropyCallback FateboundCore.ENTROPY sequenceNumber
                    provider randomNumber)
               = {| FateboundCore.gameCounter := gameId;
                    FateboundCore.games :=
                      <[gameId :=
                          {| FateboundCore.player := sender;
                             FateboundCore.seed := randomNumber;
                             FateboundCore.stateHash :=
                               Keccak.keccak256
                                 (TurnVerifier.statePreimage FateboundCore.initialPlayer
                                    FateboundCore._getDefaultEnemies 1 0);
                             FateboundCore.currentTurn := 1;
                             FateboundCore.score := 0;
                             FateboundCore.status := FateboundCore.ACTIVE;
                             FateboundCore.result := CONTINUE |}]>
                        (FateboundCore.games st1);
                    FateboundCore.activeGameId := FateboundCore.activeGameId st1;
                    FateboundCore.sequenceToGameId :=
                      delete sequenceNumber (FateboundCore.sequenceToGameId st1) |}).
  { unfold FateboundCore.after, FateboundCore.call, FateboundCore._entropyCallback.
    cbv zeta. rewrite Z.eqb_refl. unfold FateboundCore.require at 1.
    assert (Hseq : FateboundCore.sequenceToGameId st1 !! sequenceNumber = Some gameId)
      by apply lookup_insert_eq.
    rewrite Hseq. cbn [default from_option id].
    destruct (Z.eqb_spec gameId 0) as [H0|_]; [unfold gameId in H0; lia|].
    unfold FateboundCore.require at 1. cbn [negb].
    assert (Hgame : FateboundCore.game st1 gameId = requestedGame sender).
    { unfold FateboundCore.game, st1. cbn [FateboundCore.games].
      rewrite lookup_insert_eq. reflexivity. }
    rewrite Hgame. unfold FateboundCore.require at 1.
    rewrite bool_decide_eq_true_2 by reflexivity.
    rewrite initial_hash_returns. reflexivity. }
  rewrite H2. clear H2.
  (* the claim *)
  set (st2 := {| FateboundCore.gameCounter := gameId |}).
  assert (Hgame : FateboundCore.game st2 gameId
                  = {| FateboundCore.player := sender;
                       FateboundCore.seed := randomNumber;
                       FateboundCore.stateHash :=
                         Keccak.keccak256
                           (TurnVerifier.statePreimage FateboundCore.initialPlayer
                              FateboundCore._getDefaultEnemies 1 0);
                       FateboundCore.currentTurn := 1;
                       FateboundCore.score := 0;
                       FateboundCore.status := FateboundCore.ACTIVE;
                       FateboundCore.result := CONTINUE |}).
  { unfold FateboundCore.game, st2. cbn [FateboundCore.games].
    rewrite lookup_insert_eq. reflexivity. }
  unfold FateboundCore.after, FateboundCore.call, FateboundCore.claimVictory.
  cbv zeta. rewrite Hgame. cbn [FateboundCore.player FateboundCore.status].
  rewrite Z.eqb_refl. unfold FateboundCore.require.
  rewrite bool_decide_eq_true_2 by reflexivity.
  rewrite game_insert. destruct (decide (gameId = gameId)); [|contradiction].
  repeat split.
Qed.

Lemma victory_without_turns_witness :
  let g := FateboundCore.game
             (fold_left FateboundCore.after
                (claimAtOnce 7 0 0 1 0 true zeroSeed
                   (FateboundCore.gameCounter FateboundCore.deployed + 1) 4000000000)
                FateboundCore.deployed)
             (FateboundCore.gameCounter FateboundCore.deployed + 1) in
  FateboundCore.player g = 7
  /\ FateboundCore.seed g = zeroSeed
  /\ FateboundCore.currentTurn g = 1
  /\ FateboundCore.status g = FateboundCore.COMPLETED
  /\ FateboundCore.result g = VICTORY
  /\ FateboundCore.score g = 4000000000 mod 2 ^ 32.
Proof.
  apply (victory_without_turns FateboundCore.deployed 7 0 0 1 0 true zeroSeed 4000000000).
  - exists []. reflexivity.
  - reflexivity.
  - lia.
  - reflexivity.
  - simpl. lia.
Defined.


(** ** The level of the client and the state the contract commits to *)

Lemma preimage_ends_with_cache_flag (player : TurnVerifier.Player)
    (enemies : list TurnVerifier.Enemy) (last : TurnVerifier.Enemy) (turn score : Z) :
  exists front,
    TurnVerifier.statePreimage player (enemies ++ [last]) turn score
    = front ++ TurnVerifier.encode_bool (TurnVerifier.isCache last).
Proof.
  rewrite statePreimage_array_order, map_app, concat_app.
  cbn [map concat]. rewrite app_nil_r. unfold TurnVerifier.encodeEnemy.
  rewrite !app_assoc. eexists. reflexivity.
Qed.

(** X30: the bytes the contract hashes when it activates a game (the
    default player and its three default enemies, none a cache) are
    never the bytes of a state whose enemies are those of the level the
    client generates from the seed, whatever the player, turn and
    score: the generated level always ends with a cache. *)
Theorem initial_commitment_differs (bytes : list Z) (level : LevelGenerator.Level)
    (player : TurnVerifier.Player) (enemies : list TurnVerifier.Enemy)
    (turn score : Z) :
  Forall isByte bytes ->
  LevelGenerator.generateLevelFromSeed bytes = Some level ->
  Forall2 mirrorsEnemy (LevelGenerator.enemies level) enemies ->
  TurnVerifier.statePreimage player enemies turn score
  <> TurnVerifier.statePreimage FateboundCore.initialPlayer
       FateboundCore._getDefaultEnemies 1 0.
Proof.
  intros Hbytes Hlevel Hmirror.
  assert (Hne : bytes <> []) by (intros ->; discriminate Hlevel).
  destruct (generateLevel_spec bytes Hbytes Hne) as (es & cx & cy & Hgen & _).
  unfold generated in Hgen. rewrite Hgen in Hlevel. injection Hlevel as <-.
  cbn [LevelGenerator.enemies] in Hmirror.
  apply Forall2_app_inv_l in Hmirror as (vs & vc & _ & Hc & ->).
  inversion Hc as [|c0 v l0 l1 (_ & _ & _ & _ & Hflag) Hnil]; subst.
  inversion Hnil; subst.
  destruct (preimage_ends_with_cache_flag player vs v turn score) as [front ->].
  rewrite Hflag. cbn [LevelGenerator.cache Client.enemy_type].
  change (String.eqb "CACHE_GOLD" "CACHE_GOLD") with true.
  change (TurnVerifier.statePreimage FateboundCore.initialPlayer
            FateboundCore._getDefaultEnemies 1 0)
    with (removelast (TurnVerifier.statePreimage FateboundCore.initialPlayer
                        FateboundCore._getDefaultEnemies 1 0)
          ++ TurnVerifier.encode_bool false).
  intros Heq. apply app_inj_2 in Heq as [_ Heq]; [|reflexivity].
  discriminate Heq.
Qed.

Lemma initial_commitment_differs_witness :
  TurnVerifier.statePreimage FateboundCore.initialPlayer zeroLevelMirror 1 0
  <> TurnVerifier.statePreimage FateboundCore.initialPlayer
       FateboundCore._getDefaultEnemies 1 0.
Proof.
  apply (initial_commitment_differs zeroSeed zeroLevel).
  - exact zeroSeed_bytes.
  - vm_compute. reflexivity.
  - repeat constructor.
Defined.
